(** * Mython: lexer, runtime values and statement execution

    A shallow embedding of the Mython interpreter (lexer.cpp, runtime.cpp,
    statement.cpp) together with the properties of its specification that
    were checked against it.

    - [parse]     : the character stream, the tokens and [Parser::ParseTokens];
    - [ast]       : the executable tree and the runtime objects;
    - [runtime]   : classes, instances, closures, [Call], [Print], comparators;
    - [statement] : [Execute] for every node. *)

From Stdlib Require Import ZArith String Ascii List Bool Lia DecimalString HexadecimalString.
From Stdlib Require DecimalZ.
From stdpp Require Import gmap strings list.

Local Open Scope string_scope.
Local Open Scope Z_scope.

(** ** Shared helpers: decimal output, as [operator<<] and [to_string] give it *)

Definition dec_of_Z (z : Z) : string := DecimalString.NilZero.string_of_int (Z.to_int z).
Definition dec_of_nat (n : nat) : string :=
  DecimalString.NilZero.string_of_uint (Nat.to_uint n).

(** [int] is 32 bits wide, [int16_t] 16 and [uint16_t] 16: the value that is
    stored after an operation, written out as wrap-around. *)
Definition wrap_int (z : Z) : Z := (z + 2147483648) mod 4294967296 - 2147483648.
Definition wrap_int16 (z : Z) : Z := (z + 32768) mod 65536 - 32768.
Definition wrap_uint16 (z : Z) : Z := z mod 65536.

(** ** The lexer (namespace [parse]) *)

Module token_type.
Inductive Token : Type :=
| Number (value : Z)
| Id (value : string)
| Char (value : ascii)
| String (value : string)
| Class | Return | If | Else | Def | Newline | Print | Indent | Dedent
| And | Or | Not | Eq | NotEq | LessOrEq | GreaterOrEq
| None | True | False | Eof.
End token_type.

Module parse.

Abbreviation Token := token_type.Token.

Definition NUM_SPACE_DENT_ : Z := 2.

(** *** std::istream over a fixed text

    [buf] is what is left to read; [eofbit] and [failbit] are the stream's
    state bits. Every input function first builds a sentry, which sets
    [failbit] when the stream is not good. *)
Record istream : Type := mk_istream {
  buf : string;
  eofbit : bool;
  failbit : bool
}.

Definition open (text : string) : istream :=
  {| buf := text; eofbit := false; failbit := false |}.

Definition good (s : istream) : bool := negb (eofbit s) && negb (failbit s).

(** [explicit operator bool]: not [fail()]. *)
Definition ok (s : istream) : bool := negb (failbit s).

Definition set_fail (s : istream) : istream :=
  {| buf := buf s; eofbit := eofbit s; failbit := true |}.

(** [peek()]: the next character without extracting it, or eof (here [None]);
    reaching the end sets [eofbit]. *)
Definition peek (s : istream) : option ascii * istream :=
  if good s then
    match buf s with
    | EmptyString => (None, {| buf := buf s; eofbit := true; failbit := failbit s |})
    | String.String c _ => (Some c, s)
    end
  else (None, set_fail s).

(** [get()] and [get(char&)]: extract one character; at the end both
    [eofbit] and [failbit] are set. *)
Definition get (s : istream) : option ascii * istream :=
  if good s then
    match buf s with
    | EmptyString => (None, {| buf := buf s; eofbit := true; failbit := true |})
    | String.String c rest => (Some c, {| buf := rest; eofbit := false; failbit := false |})
    end
  else (None, set_fail s).

(** [putback(c)]: clears [eofbit], then puts [c] in front when the sentry
    passes. The lexer only puts back the character it has just extracted. *)
Definition putback (c : ascii) (s : istream) : istream :=
  if failbit s then {| buf := buf s; eofbit := false; failbit := true |}
  else {| buf := String.String c (buf s); eofbit := false; failbit := false |}.

(** The body of [std::getline] once the sentry has passed: characters up to
    and including the next line feed are extracted. *)
Fixpoint skip_line (b : string) : string * bool :=
  match b with
  | EmptyString => (EmptyString, true)
  | String.String c rest =>
      if Ascii.eqb c "010" then (rest, false) else skip_line rest
  end.

(** [getline(input, comments)]; the line's text is not used by the caller. *)
Definition getline (s : istream) : istream :=
  if good s then
    match buf s with
    | EmptyString => {| buf := EmptyString; eofbit := true; failbit := true |}
    | _ => let '(rest, hit_eof) := skip_line (buf s) in
           {| buf := rest; eofbit := hit_eof; failbit := false |}
    end
  else set_fail s.

(** *** <cctype> in the "C" locale *)
Definition code (c : ascii) : nat := nat_of_ascii c.
Definition dquote : ascii := "034"%char.
Definition between (lo hi : nat) (c : ascii) : bool :=
  (Nat.leb lo (code c) && Nat.leb (code c) hi)%bool.
Definition isdigit (c : ascii) : bool := between 48 57 c.
Definition isalpha (c : ascii) : bool := between 65 90 c || between 97 122 c.
Definition isalnum (c : ascii) : bool := isalpha c || isdigit c.
Definition ispunct (c : ascii) : bool :=
  between 33 47 c || between 58 64 c || between 91 96 c || between 123 126 c.

Definition is_char (c : ascii) (o : option ascii) : bool :=
  match o with Some d => Ascii.eqb c d | Datatypes.None => false end.

(** *** Exceptions and results *)
Inductive Exception : Type :=
| LexerError (what : string)
| out_of_range (what : string)      (* std::out_of_range, from std::stoi *)
| assertion_failed.                 (* assert(...) *)

Inductive Res (A : Type) : Type :=
| Done (a : A)
| Raise (e : Exception)
| NoFuel.
Arguments Done {A} a.
Arguments Raise {A} e.
Arguments NoFuel {A}.

Definition bind {A B} (r : Res A) (k : A -> Res B) : Res B :=
  match r with
  | Done a => k a
  | Raise e => Raise e
  | NoFuel => NoFuel
  end.

(** *** class Parser *)
Record Parser : Type := mk_Parser {
  input_tokens_ : istream;
  tokens_ : list Token;
  current_dent_ : Z
}.

Definition with_input (p : Parser) (s : istream) : Parser :=
  {| input_tokens_ := s; tokens_ := tokens_ p; current_dent_ := current_dent_ p |}.

Definition emplace_back (t : Token) (p : Parser) : Parser :=
  {| input_tokens_ := input_tokens_ p; tokens_ := tokens_ p ++ [t];
     current_dent_ := current_dent_ p |}.

(** [tokens_.back().Is<T>()], guarded by [!tokens_.empty()] at every use. *)
Definition back (p : Parser) : option Token := last (tokens_ p).

Definition back_is (t : Token) (p : Parser) : bool :=
  match back p, t with
  | Some token_type.Newline, token_type.Newline => true
  | Some token_type.Dedent, token_type.Dedent => true
  | _, _ => false
  end.

Definition empty (p : Parser) : bool :=
  match tokens_ p with [] => true | _ => false end.

Definition token_types (word : string) : option Token :=
  if String.eqb word "class" then Some token_type.Class
  else if String.eqb word "return" then Some token_type.Return
  else if String.eqb word "if" then Some token_type.If
  else if String.eqb word "else" then Some token_type.Else
  else if String.eqb word "def" then Some token_type.Def
  else if String.eqb word "print" then Some token_type.Print
  else if String.eqb word "or" then Some token_type.Or
  else if String.eqb word "None" then Some token_type.None
  else if String.eqb word "and" then Some token_type.And
  else if String.eqb word "not" then Some token_type.Not
  else if String.eqb word "True" then Some token_type.True
  else if String.eqb word "False" then Some token_type.False
  else Datatypes.None.

Definition push_char (s : string) (c : ascii) : string :=
  s +:+ String.String c EmptyString.

(** [detail::ReadWord]; each turn of the loop extracts a character, so the
    length of the text left bounds the number of turns. *)
Fixpoint ReadWord_loop (turns : nat) (input : istream) (result_word : string)
  : string * istream :=
  match turns with
  | O => (result_word, input)
  | S n =>
      match get input with
      | (Some symbol, input') =>
          if isalnum symbol || Ascii.eqb symbol "_"
          then ReadWord_loop n input' (push_char result_word symbol)
          else (result_word, putback symbol input')
      | (Datatypes.None, input') => (result_word, input')
      end
  end.

Definition ReadWord (input : istream) : string * istream :=
  ReadWord_loop (S (String.length (buf input))) input EmptyString.

Definition IsEof (p : Parser) : bool * Parser :=
  let '(c, s) := peek (input_tokens_ p) in
  (match c with Datatypes.None => true | Some _ => false end, with_input p s).

Fixpoint RemovingSpaces_loop (turns : nat) (s : istream) : istream :=
  match turns with
  | O => s
  | S n =>
      let '(c, s1) := peek s in
      if is_char " " c then RemovingSpaces_loop n (snd (get s1)) else s1
  end.

Definition RemovingSpacesBeforeTokens (p : Parser) : Parser :=
  with_input p
    (RemovingSpaces_loop (S (String.length (buf (input_tokens_ p)))) (input_tokens_ p)).

Definition HandleKeywordOrId (p : Parser) : Res Parser :=
  let '(eof, p) := IsEof p in
  if eof then Done p
  else
    let '(symbol, s) := peek (input_tokens_ p) in
    let p := with_input p s in
    match symbol with
    | Datatypes.None => Done p
    | Some symbol =>
        if negb (isalpha symbol) && negb (Ascii.eqb symbol "_") then Done p
        else
          let '(parsed_word, s) := ReadWord (input_tokens_ p) in
          let p := with_input p s in
          match token_types parsed_word with
          | Some kw => Done (emplace_back kw p)
          | Datatypes.None => Done (emplace_back (token_type.Id parsed_word) p)
          end
    end.

Definition HandleOperatorEqOrSymbol (p : Parser) : Res Parser :=
  let '(eof, p) := IsEof p in
  if eof then Done p
  else
    let '(c, s) := peek (input_tokens_ p) in
    let p := with_input p s in
    if is_char "#" c then Done p
    else
      match get (input_tokens_ p) with
      | (Datatypes.None, s) => Done (with_input p s)
      | (Some first_symbol, s) =>
          if negb (ispunct first_symbol) || Ascii.eqb first_symbol dquote
             || Ascii.eqb first_symbol "'"
          then Done (with_input p (putback first_symbol s))
          else
            let two (t : Token) :=
              let '(nxt, s) := peek s in
              if is_char "=" nxt
              then Done (emplace_back t (with_input p (snd (get s))))
              else Done (emplace_back (token_type.Char first_symbol) (with_input p s)) in
            if Ascii.eqb first_symbol "!" then two token_type.NotEq
            else if Ascii.eqb first_symbol "=" then two token_type.Eq
            else if Ascii.eqb first_symbol ">" then two token_type.GreaterOrEq
            else if Ascii.eqb first_symbol "<" then two token_type.LessOrEq
            else Done (emplace_back (token_type.Char first_symbol) (with_input p s))
      end.

(** The digits read so far, as a number: what [std::stoi] converts. *)
Definition digit_value (c : ascii) : Z := Z.of_nat (code c) - 48.

Fixpoint digits_value (s : string) (acc : Z) : Z :=
  match s with
  | EmptyString => acc
  | String.String c rest => digits_value rest (10 * acc + digit_value c)
  end.

(** [std::stoi] on a non-empty run of digits: the value when it fits an
    [int], [std::out_of_range] otherwise. *)
Definition stoi (parsed_num : string) : Res Z :=
  let v := digits_value parsed_num 0 in
  if v <=? 2147483647 then Done v else Raise (out_of_range "stoi").

Fixpoint HandleIntValue_loop (turns : nat) (input : istream) (parsed_num : string)
  : string * istream :=
  match turns with
  | O => (parsed_num, input)
  | S n =>
      match get input with
      | (Some symbol, input') =>
          if isdigit symbol
          then HandleIntValue_loop n input' (push_char parsed_num symbol)
          else (parsed_num, putback symbol input')
      | (Datatypes.None, input') => (parsed_num, input')
      end
  end.

Definition HandleIntValue (p : Parser) : Res Parser :=
  let '(eof, p) := IsEof p in
  if eof then Done p
  else
    match get (input_tokens_ p) with
    | (Datatypes.None, s) => Done (with_input p s)
    | (Some symbol, s) =>
        if negb (isdigit symbol) then Done (with_input p (putback symbol s))
        else
          let '(parsed_num, s) :=
            HandleIntValue_loop (S (String.length (buf s))) s
                                (String.String symbol EmptyString) in
          bind (stoi parsed_num) (fun num =>
          Done (emplace_back (token_type.Number num) (with_input p s)))
    end.

Definition HandleSpecialSymbol (ch : ascii) : Res ascii :=
  if Ascii.eqb ch "n" then Done "010"%char
  else if Ascii.eqb ch "t" then Done "009"%char
  else if Ascii.eqb ch "r" then Done "013"%char
  else if Ascii.eqb ch dquote then Done dquote
  else if Ascii.eqb ch "\" then Done "\"%char
  else if Ascii.eqb ch "'" then Done "'"%char
  else Raise (LexerError ("Unrecognized escape sequence \" +:+ String.String ch EmptyString)).

(** [char c = input.get()]: eof (-1) converts to the character 255. *)
Definition to_char (o : option ascii) : ascii :=
  match o with Some c => c | Datatypes.None => "255"%char end.

Fixpoint HandleString_loop (turns : nat) (begin_symbol : ascii) (input : istream)
         (str : string) : Res (string * istream) :=
  match turns with
  | O => Done (str, input)
  | S n =>
      match get input with
      | (Datatypes.None, input') => Done (str, input')
      | (Some symbol, input') =>
          if Ascii.eqb symbol begin_symbol then Done (str, input')
          else if Ascii.eqb symbol "\" then
            let '(c, input'') := get input' in
            let special_symbol := to_char c in
            if Ascii.eqb special_symbol "000"
            then Raise (LexerError "The line was not closed")
            else bind (HandleSpecialSymbol special_symbol) (fun e =>
                 HandleString_loop n begin_symbol input'' (push_char str e))
          else if Ascii.eqb symbol "010" || Ascii.eqb symbol "013"
          then Raise (LexerError "Unexpected end of line")
          else HandleString_loop n begin_symbol input' (push_char str symbol)
      end
  end.

Definition HandleString (p : Parser) : Res Parser :=
  let '(eof, p) := IsEof p in
  if eof then Done p
  else
    match get (input_tokens_ p) with
    | (Datatypes.None, s) => Done (with_input p s)
    | (Some begin_symbol, s) =>
        if negb (Ascii.eqb begin_symbol "'") && negb (Ascii.eqb begin_symbol dquote)
        then Done (with_input p (putback begin_symbol s))
        else
          bind (HandleString_loop (S (String.length (buf s))) begin_symbol s EmptyString)
               (fun '(str, s) =>
                  Done (emplace_back (token_type.String str) (with_input p s)))
    end.

Definition HandleComments (p : Parser) : Res Parser :=
  let '(c, s) := peek (input_tokens_ p) in
  let p := with_input p s in
  if negb (is_char "#" c) then Done p
  else
    let s := getline (input_tokens_ p) in
    let p := with_input p s in
    if ok s && negb (empty p) && negb (back_is token_type.Newline p)
       && negb (back_is token_type.Dedent p)
    then Done (emplace_back token_type.Newline p)
    else Done p.

Definition HandleNewLine (p : Parser) : Res Parser :=
  let '(eof, p) := IsEof p in
  if eof then Done p
  else
    let '(c, s) := peek (input_tokens_ p) in
    let p := with_input p s in
    if negb (is_char "010" c) then Done p
    else
      let p := with_input p (snd (get (input_tokens_ p))) in
      if negb (empty p) && negb (back_is token_type.Newline p)
      then Done (emplace_back token_type.Newline p)
      else Done p.

(** The counting loop of [HandleDent]; [count_space] is a [uint16_t]. *)
Fixpoint count_spaces (turns : nat) (s : istream) (count_space : Z) : Z * istream :=
  match turns with
  | O => (count_space, s)
  | S n =>
      let '(c, s1) := peek s in
      if is_char " " c
      then count_spaces n (snd (get s1)) (wrap_uint16 (count_space + 1))
      else (count_space, s1)
  end.

(** [while (delta_dent > 0)]: one [Indent] per level. *)
Fixpoint indent_loop (delta_dent : nat) (p : Parser) : Parser :=
  match delta_dent with
  | O => p
  | S n =>
      let p := emplace_back token_type.Indent p in
      indent_loop n {| input_tokens_ := input_tokens_ p; tokens_ := tokens_ p;
                       current_dent_ := current_dent_ p + 1 |}
  end.

(** [while (delta_dent < 0)]: one [Dedent] per level, with the assertion. *)
Fixpoint dedent_loop (delta_dent : nat) (p : Parser) : Res Parser :=
  match delta_dent with
  | O => Done p
  | S n =>
      let p := emplace_back token_type.Dedent p in
      if current_dent_ p =? 0 then Raise assertion_failed
      else dedent_loop n {| input_tokens_ := input_tokens_ p; tokens_ := tokens_ p;
                            current_dent_ := current_dent_ p - 1 |}
  end.

Definition HandleDent (p : Parser) : Res Parser :=
  if negb (empty p) && negb (back_is token_type.Newline p) then Done p
  else
    let '(c, s) := peek (input_tokens_ p) in
    let p := with_input p s in
    if is_char "010" c then Done p
    else
      let '(count_space, s) :=
        count_spaces (S (String.length (buf s))) s 0 in
      let p := with_input p s in
      if negb (count_space mod NUM_SPACE_DENT_ =? 0)
      then Raise (LexerError
             ("One of the indents contains an odd number of spaces. Num space = "
              +:+ dec_of_Z count_space))
      else
        let delta_dent := wrap_int16 (count_space / NUM_SPACE_DENT_ - current_dent_ p) in
        if 0 <? delta_dent then Done (indent_loop (Z.to_nat delta_dent) p)
        else dedent_loop (Z.to_nat (- delta_dent)) p.

(** One turn of the [while (input_tokens_)] loop of [ParseTokens]. *)
Definition ParseTokens_turn (p : Parser) : Res Parser :=
  bind (HandleKeywordOrId p) (fun p =>
  bind (HandleOperatorEqOrSymbol p) (fun p =>
  bind (HandleIntValue p) (fun p =>
  bind (HandleString p) (fun p =>
  let p := RemovingSpacesBeforeTokens p in
  bind (HandleComments p) (fun p =>
  bind (HandleNewLine p) (fun p =>
  HandleDent p)))))).

(** The loop may run forever (a tab is consumed by no handler), hence the
    fuel. *)
Fixpoint ParseTokens_loop (fuel : nat) (p : Parser) : Res Parser :=
  match fuel with
  | O => NoFuel
  | S n =>
      if ok (input_tokens_ p)
      then bind (ParseTokens_turn p) (ParseTokens_loop n)
      else Done p
  end.

Definition ParseTokens (fuel : nat) (p : Parser) : Res Parser :=
  let p := RemovingSpacesBeforeTokens p in
  bind (ParseTokens_loop fuel p) (fun p =>
  let p :=
    if negb (empty p) && negb (back_is token_type.Newline p)
       && negb (back_is token_type.Dedent p)
    then emplace_back token_type.Newline p else p in
  Done (emplace_back token_type.Eof p)).

(** [Parser::Parser(input)] followed by [GetTokens()]. *)
Definition lex (fuel : nat) (text : string) : Res (list Token) :=
  bind (ParseTokens fuel {| input_tokens_ := open text; tokens_ := [];
                            current_dent_ := 0 |})
       (fun p => Done (tokens_ p)).

Definition count_token (t : Token) (ts : list Token) : nat :=
  length (filter (fun u => match t, u with
                           | token_type.Indent, token_type.Indent => true
                           | token_type.Dedent, token_type.Dedent => true
                           | _, _ => false
                           end = true) ts).

End parse.

(** ** Runtime objects and the executable tree *)

Module ast.

Local Set Warnings "-register-all".

Inductive Comparator : Type :=
| Equal | NotEqual | Less | Greater | LessOrEqual | GreaterOrEqual.

(** Modelled from the spec: the node classes of statement.h and the object
    classes of runtime.h, whose declarations are not among the sources; the
    constructors and their fields are the classes and members that
    statement.cpp, runtime.cpp and parse.cpp use. A [Method] owns its body, a
    [Class] owns its methods and refers to its parent, a [ClassDefinition]
    node holds its class: the four types are mutually recursive. An instance
    is referred to by its address ([InstancePtr]); a [NewInstance] node is
    known by the address of its member [class_instance_]. *)
Inductive Statement : Type :=
| NumericConst (value : Z)
| StringConst (value : string)
| BoolConst (value : bool)
| None
| VariableValue (dotted_ids_ : list string)
| Assignment (variable_name_ : string) (r_value_ : Statement)
| FieldAssignment (object_ : list string) (field_name_ : string) (r_value_ : Statement)
| Print (args_ : list Statement)
| MethodCall (object_ : Statement) (method_ : string) (args_ : list Statement)
| NewInstance (class_instance_ : positive) (args_ : list Statement)
| Stringify (argument_ : Statement)
| Add (lhs_ rhs_ : Statement)
| Sub (lhs_ rhs_ : Statement)
| Mult (lhs_ rhs_ : Statement)
| Div (lhs_ rhs_ : Statement)
| Or (lhs_ rhs_ : Statement)
| And (lhs_ rhs_ : Statement)
| Not (argument_ : Statement)
| Compound (statements_ : list Statement)
| MethodBody (body_ : Statement)
| Return (statement_ : Statement)
| ClassDefinition (class_ : option Object)
| IfElse (condition_ if_body_ : Statement) (else_body_ : option Statement)
| Comparison (cmp_ : Comparator) (lhs_ rhs_ : Statement)
with Object : Type :=
| Number (value : Z)
| String (value : string)
| Bool (value : bool)
| ClassObject (cls : Class)
| InstancePtr (address : positive)
with Class : Type :=
| mk_Class (name_ : string) (methods_ : list Method) (parent_ : option Class)
with Method : Type :=
| mk_Method (name : string) (formal_params : list string) (body : Statement).

End ast.

Module runtime.

Abbreviation Object := ast.Object.
Abbreviation Class := ast.Class.
Abbreviation Method := ast.Method.
Abbreviation Executable := ast.Statement.

(** An [ObjectHolder] is empty or refers to one object. Numbers, strings,
    booleans and classes are never changed once made, so a holder carries
    them by value; a class instance is changed through its holders, so a
    holder carries its address ([InstancePtr]). *)
Definition ObjectHolder : Type := option Object.

(** [Closure]: [std::unordered_map<std::string, ObjectHolder>]. A name can
    be bound to the empty holder, which differs from not being bound. *)
Abbreviation Closure := (gmap string (option ast.Object)).

Record ClassInstance : Type := mk_ClassInstance {
  class_ : Class;
  fields_ : Closure
}.

(** What execution can change besides the closure it is handed: the class
    instances, by address, and the text on the context's output stream. *)
Record World : Type := mk_World {
  instances : gmap positive ClassInstance;
  output : string
}.

Definition name (m : Method) : string := match m with ast.mk_Method n _ _ => n end.
Definition formal_params (m : Method) : list string :=
  match m with ast.mk_Method _ ps _ => ps end.
Definition body (m : Method) : Executable := match m with ast.mk_Method _ _ b => b end.

Definition name_ (c : Class) : string := match c with ast.mk_Class n _ _ => n end.
Definition methods_ (c : Class) : list Method :=
  match c with ast.mk_Class _ ms _ => ms end.
Definition parent_ (c : Class) : option Class :=
  match c with ast.mk_Class _ _ p => p end.

(** The table the constructor of [Class] fills: a later method of the same
    name replaces an earlier one. *)
Definition table_methods_ (c : Class) : gmap string Method :=
  fold_left (fun table method => <[name method := method]> table) (methods_ c) ∅.

Fixpoint GetMethod (c : Class) (method_name : string) {struct c} : option Method :=
  match c with
  | ast.mk_Class _ _ parent =>
      match table_methods_ c !! method_name with
      | Some m => Some m
      | None =>
          match parent with
          | Some p => GetMethod p method_name
          | None => None
          end
      end
  end.

Definition HasMethod (self : ClassInstance) (method : string) (argument_count : nat) : bool :=
  match GetMethod (class_ self) method with
  | Some method_ptr => Nat.eqb argument_count (length (formal_params method_ptr))
  | None => false
  end.

(** *** Outcomes of a call

    A call returns, throws, runs into undefined behaviour (a null pointer is
    dereferenced, an assertion fails, an object is read after its last
    holder is gone, the least [int] is divided by -1) or is cut off by the
    fuel of the model. [Undefined] promises nothing about the call; it also
    stands where the model cannot tell that an object is still there (see
    [statement.outlives_holder]).
    What is thrown is a [std::runtime_error] or, by [Return], an
    [ObjectHolder]. The state [S] a call leaves behind is kept on both the
    normal and the exceptional path: closures and the context are passed by
    reference. *)
Inductive Thrown : Type :=
| runtime_error (what : string)
| thrown_holder (result : ObjectHolder).

Inductive Outcome (S A : Type) : Type :=
| Returns (a : A) (s : S)
| Throws (e : Thrown) (s : S)
| Undefined
| NoFuel.
Arguments Returns {S A} a s.
Arguments Throws {S A} e s.
Arguments Undefined {S A}.
Arguments NoFuel {S A}.

Definition bind {S A B} (r : Outcome S A) (k : A -> S -> Outcome S B) : Outcome S B :=
  match r with
  | Returns a s => k a s
  | Throws e s => Throws e s
  | Undefined => Undefined
  | NoFuel => NoFuel
  end.

(** Leaving a callee's frame: its closure is dropped, the world is kept. *)
Definition leave {A} (r : Outcome (Closure * World) A) : Outcome World A :=
  match r with
  | Returns a (_, w) => Returns a w
  | Throws e (_, w) => Throws e w
  | Undefined => Undefined
  | NoFuel => NoFuel
  end.

(** Running a call that needs no closure inside a frame that has one. *)
Definition enter {A} (closure : Closure) (r : Outcome World A)
  : Outcome (Closure * World) A :=
  match r with
  | Returns a w => Returns a (closure, w)
  | Throws e w => Throws e (closure, w)
  | Undefined => Undefined
  | NoFuel => NoFuel
  end.

Definition dquote : string := String.String "034"%char EmptyString.

(** [os << this]: the text of a pointer is implementation-defined; here it
    is the address in hexadecimal. *)
Definition pointer_text (a : positive) : string :=
  "0x" +:+ HexadecimalString.NilZero.string_of_uint (Pos.to_hex_uint a).

(** Modelled from the spec: [ValueObject<T>::Print] of runtime.h, for
    [Number] and [String]: the decimal digits and the raw text. *)
Definition Number_Print (value : Z) : string := dec_of_Z value.
Definition String_Print (value : string) : string := value.

Section Dispatch.

(** [Executable::Execute], the virtual call through [method->body]. *)
Variable Execute : Executable -> Closure -> World ->
                   Outcome (Closure * World) ObjectHolder.

(** [closure[formal_params[i]] = actual_args[i]] for every formal
    parameter; [Call] has checked that the two lists are equally long. *)
Fixpoint bind_params (params : list string) (actual_args : list ObjectHolder)
         (closure : Closure) : Closure :=
  match params, actual_args with
  | p :: ps, arg :: rest => bind_params ps rest (<[p := arg]> closure)
  | _, _ => closure
  end.

(** [ClassInstance::Call] on the instance at address [self]. *)
Definition Call (self : positive) (method_name : string)
           (actual_args : list ObjectHolder) (context : World)
  : Outcome World ObjectHolder :=
  match instances context !! self with
  | None => Undefined
  | Some this =>
      if negb (HasMethod this method_name (length actual_args))
      then Throws (runtime_error ("Method " +:+ method_name +:+ " is not implemented."))
                  context
      else
        let closure : Closure := {[ "self" := Some (ast.InstancePtr self) ]} in
        match GetMethod (class_ this) method_name with
        | None => Undefined
        | Some method =>
            let expect_params_count := length (formal_params method) in
            if Nat.ltb (length actual_args) expect_params_count
            then Throws (runtime_error
                   (dec_of_nat expect_params_count +:+ " arguments were expected for the "
                    +:+ method_name +:+ " function.")) context
            else
              leave (Execute (body method)
                             (bind_params (formal_params method) actual_args closure)
                             context)
        end
  end.

(** [Object::Print(os, context)], by the dynamic type of the object; the
    text is what is written to [os]. [ClassInstance::Print] prints what
    [__str__] returns, which can again be an instance: [depth] bounds this
    chain. *)
Fixpoint Print (depth : nat) (object : Object) (context : World) {struct depth}
  : Outcome World string :=
  match depth with
  | O => NoFuel
  | S d =>
      match object with
      | ast.Number value => Returns (Number_Print value) context
      | ast.String value => Returns (String_Print value) context
      | ast.Bool value => Returns (if value then "True" else "False") context
      | ast.ClassObject cls => Returns ("Class " +:+ name_ cls) context
      | ast.InstancePtr this =>
          match instances context !! this with
          | None => Undefined
          | Some self =>
              if HasMethod self "__str__" 0 then
                bind (Call this "__str__" [] context) (fun result context =>
                  match result with
                  | Some object => Print d object context
                  | None => Undefined     (* AssertIsValid in operator-> *)
                  end)
              else Returns (pointer_text this) context
          end
      end
  end.

(** *** Comparators *)

(** The generic lambda handed to [ComparatorImpl], at its three uses. *)
Record comparator : Type := mk_comparator {
  on_bool : bool -> bool -> bool;
  on_int : Z -> Z -> bool;
  on_string : string -> string -> bool
}.

Definition eq_comparator : comparator :=
  {| on_bool := Bool.eqb; on_int := Z.eqb; on_string := String.eqb |}.

Definition less_comparator : comparator :=
  {| on_bool := fun a b => negb a && b; on_int := Z.ltb; on_string := String.ltb |}.

(** [Call(...).TryAs<Bool>()->GetValue()]: the pointer is not checked. *)
Definition unchecked_bool (result : ObjectHolder) (context : World)
  : Outcome World bool :=
  match result with
  | Some (ast.Bool value) => Returns value context
  | _ => Undefined
  end.

Definition ComparatorImpl (lhs rhs : ObjectHolder) (context : World)
           (cmp : comparator) (default_method_name : string)
  : Outcome World bool :=
  match lhs, rhs with
  | Some (ast.Bool l), Some (ast.Bool r) => Returns (on_bool cmp l r) context
  | Some (ast.Number l), Some (ast.Number r) => Returns (on_int cmp l r) context
  | Some (ast.String l), Some (ast.String r) => Returns (on_string cmp l r) context
  | Some (ast.InstancePtr class_instance), _ =>
      match instances context !! class_instance with
      | None => Undefined
      | Some self =>
          if HasMethod self default_method_name 1
          then bind (Call class_instance default_method_name [rhs] context)
                    unchecked_bool
          else Throws (runtime_error "Non-comparable objects") context
      end
  | _, _ => Throws (runtime_error "Non-comparable objects") context
  end.

Definition Equal (lhs rhs : ObjectHolder) (context : World) : Outcome World bool :=
  match lhs, rhs with
  | None, None => Returns true context
  | _, _ => ComparatorImpl lhs rhs context eq_comparator "__eq__"
  end.

Definition Less (lhs rhs : ObjectHolder) (context : World) : Outcome World bool :=
  ComparatorImpl lhs rhs context less_comparator "__lt__".

Definition NotEqual (lhs rhs : ObjectHolder) (context : World) : Outcome World bool :=
  bind (Equal lhs rhs context) (fun e context => Returns (negb e) context).

(** [!Less(...) && NotEqual(...)]: [NotEqual] runs only when [Less] gave
    false. *)
Definition Greater (lhs rhs : ObjectHolder) (context : World) : Outcome World bool :=
  bind (Less lhs rhs context) (fun l context =>
    if negb l then NotEqual lhs rhs context else Returns false context).

(** [Less(...) || Equal(...)]: [Equal] runs only when [Less] gave false. *)
Definition LessOrEqual (lhs rhs : ObjectHolder) (context : World) : Outcome World bool :=
  bind (Less lhs rhs context) (fun l context =>
    if l then Returns true context else Equal lhs rhs context).

Definition GreaterOrEqual (lhs rhs : ObjectHolder) (context : World)
  : Outcome World bool :=
  bind (Less lhs rhs context) (fun l context => Returns (negb l) context).

Definition compare (cmp : ast.Comparator) : ObjectHolder -> ObjectHolder -> World ->
                                             Outcome World bool :=
  match cmp with
  | ast.Equal => Equal
  | ast.NotEqual => NotEqual
  | ast.Less => Less
  | ast.Greater => Greater
  | ast.LessOrEqual => LessOrEqual
  | ast.GreaterOrEqual => GreaterOrEqual
  end.

End Dispatch.

End runtime.

(** ** Execution of the nodes (statement.cpp) *)

Module statement.

Import runtime.

Abbreviation Statement := ast.Statement.
Abbreviation Frame := (Closure * World)%type.

Definition ADD_METHOD : string := "__add__".
Definition INIT_METHOD : string := "__init__".

(** [obj.TryAs<runtime::ClassInstance>()->Fields()[field_name_]]:
    [operator[]] makes the slot, holding the empty holder, when the instance
    has no such field yet. *)
Definition touch_field (self : positive) (field_name : string) (context : World) : World :=
  {| instances :=
       alter (fun this =>
                {| class_ := class_ this;
                   fields_ := match fields_ this !! field_name with
                              | Some _ => fields_ this
                              | None => <[field_name := None]> (fields_ this)
                              end |}) self (instances context);
     output := output context |}.

(** [field = value], through the reference to the slot. *)
Definition store_field (self : positive) (field_name : string) (value : ObjectHolder)
           (context : World) : World :=
  {| instances :=
       alter (fun this => {| class_ := class_ this;
                             fields_ := <[field_name := value]> (fields_ this) |})
             self (instances context);
     output := output context |}.

(** [context.GetOutputStream() << text << std::endl] *)
Definition write_line (text : string) (context : World) : World :=
  {| instances := instances context;
     output := output context +:+ text +:+ String.String "010"%char EmptyString |}.

(** The loop of [VariableValue::Execute]: [new_closure] starts as a copy of
    the closure; a name that is bound and last is returned, a name bound to
    an instance moves [new_closure] to its fields, any other name leaves
    [new_closure] as it is; falling out of the loop throws. *)
Fixpoint VariableValue_loop (dotted_ids : list string) (new_closure : Closure)
         (closure : Closure) (context : World) : Outcome Frame ObjectHolder :=
  match dotted_ids with
  | [] => Throws (runtime_error
                    ("Unexpected error of the " +:+ dquote +:+ "VariableValue::Execute"
                     +:+ dquote +:+ " method")) (closure, context)
  | id :: rest =>
      match new_closure !! id with
      | Some value =>
          match rest with
          | [] => Returns value (closure, context)
          | _ :: _ =>
              match value with
              | Some (ast.InstancePtr base_ci) =>
                  match instances context !! base_ci with
                  | Some this => VariableValue_loop rest (fields_ this) closure context
                  | None => Undefined
                  end
              | _ => VariableValue_loop rest new_closure closure context
              end
          end
      | None => VariableValue_loop rest new_closure closure context
      end
  end.

Definition VariableValue_Execute (dotted_ids_ : list string) (closure : Closure)
           (context : World) : Outcome Frame ObjectHolder :=
  VariableValue_loop dotted_ids_ closure closure context.

(** Who else holds the object of the holder a node returns.

    [keeps_holder]: [VariableValue], [Assignment] and [FieldAssignment]
    return a copy of a holder that stays in the closure or in the fields of
    an instance; [NewInstance] shares the member of the node and
    [ClassDefinition] copies the holder the node keeps. *)
Definition keeps_holder (node : Statement) : bool :=
  match node with
  | ast.VariableValue _ | ast.Assignment _ _ | ast.FieldAssignment _ _ _
  | ast.NewInstance _ _ | ast.ClassDefinition _ => true
  | _ => false
  end.

(** [makes_object]: these nodes make the object themselves and return its
    only holder, [ObjectHolder::Own] in statement.cpp. (Modelled from the
    spec: a constant returns a fresh owning holder on the literal.) [Add]
    does so for numbers and strings, but hands on the result of [__add__]
    for an instance, so it is not listed. *)
Definition makes_object (node : Statement) : bool :=
  match node with
  | ast.NumericConst _ | ast.StringConst _ | ast.BoolConst _
  | ast.Print _ | ast.Stringify _ | ast.Sub _ _ | ast.Mult _ _ | ast.Div _ _
  | ast.Or _ _ | ast.And _ _ | ast.Not _ | ast.Comparison _ _ _ => true
  | _ => false
  end.

(** Is the object surely still there once the holder [oh], which [node]
    returned, has been destroyed? An instance is a member of its
    [NewInstance] node and a class is kept by its [ClassDefinition] node; a
    number, a string or a boolean is there when [node] keeps a holder on
    it. It is gone when [node] made it ([makes_object]). For the nodes that
    hand on what a method returned ([MethodCall], [Add], [MethodBody]) or
    what one of two bodies returned ([IfElse]) it depends on where the
    object comes from, which the model does not follow: the answer is no. *)
Definition outlives_holder (node : Statement) (oh : ObjectHolder) : bool :=
  match oh with
  | None => true
  | Some (ast.InstancePtr _) | Some (ast.ClassObject _) => true
  | Some (ast.Number _) | Some (ast.String _) | Some (ast.Bool _) => keeps_holder node
  end.

Section Nodes.

(** [Execute] of the child nodes and of method bodies; [depth] bounds the
    chain of [__str__] results that [Print] follows. *)
Variable Execute : Statement -> Closure -> World -> Outcome Frame ObjectHolder.
Variable depth : nat.

(** [for (arg : args_) actual_args.push_back(arg->Execute(closure, context))] *)
Fixpoint ExecuteArgs (args : list Statement) (closure : Closure) (context : World)
  : Outcome Frame (list ObjectHolder) :=
  match args with
  | [] => Returns [] (closure, context)
  | arg :: rest =>
      bind (Execute arg closure context) (fun value '(closure, context) =>
      bind (ExecuteArgs rest closure context) (fun values frame =>
      Returns (value :: values) frame))
  end.

Definition Assignment_Execute (variable_name_ : string) (r_value_ : Statement)
           (closure : Closure) (context : World) : Outcome Frame ObjectHolder :=
  bind (Execute r_value_ closure context) (fun value '(closure, context) =>
  Returns value (<[variable_name_ := value]> closure, context)).

Definition FieldAssignment_Execute (object_ : list string) (field_name_ : string)
           (r_value_ : Statement) (closure : Closure) (context : World)
  : Outcome Frame ObjectHolder :=
  bind (VariableValue_Execute object_ closure context) (fun obj '(closure, context) =>
    match obj with
    | Some (ast.InstancePtr self) =>
        match instances context !! self with
        | None => Undefined
        | Some _ =>
            bind (Execute r_value_ closure (touch_field self field_name_ context))
                 (fun field '(closure, context) =>
                    Returns field (<[field_name_ := field]> closure,
                                   store_field self field_name_ field context))
        end
    | _ => Throws (runtime_error
             "FieldAssignment::Execute. The object is not a custom type")
             (closure, context)
    end).

(** The text of one object on a stream, or [None] for the empty holder. *)
Definition print_holder (oh : ObjectHolder) (closure : Closure) (context : World)
  : Outcome Frame string :=
  match oh with
  | Some obj => enter closure (Print Execute depth obj context)
  | None => Returns "None" (closure, context)
  end.

Fixpoint Print_loop (args : list Statement) (i : nat) (os : string)
         (closure : Closure) (context : World) : Outcome Frame string :=
  match args with
  | [] => Returns os (closure, context)
  | arg :: rest =>
      let os := if Nat.eqb i 0 then os else os +:+ " " in
      bind (Execute arg closure context) (fun oh '(closure, context) =>
      bind (print_holder oh closure context) (fun text '(closure, context) =>
      Print_loop rest (S i) (os +:+ text) closure context))
  end.

Definition Print_Execute (args_ : list Statement) (closure : Closure) (context : World)
  : Outcome Frame ObjectHolder :=
  bind (Print_loop args_ 0 "" closure context) (fun os '(closure, context) =>
  Returns (Some (ast.String os)) (closure, write_line os context)).

Definition MethodCall_Execute (object_ : Statement) (method_ : string)
           (args_ : list Statement) (closure : Closure) (context : World)
  : Outcome Frame ObjectHolder :=
  bind (Execute object_ closure context) (fun obj '(closure, context) =>
    match obj with
    | Some (ast.InstancePtr class_instance) =>
        match instances context !! class_instance with
        | None => Undefined
        | Some this =>
            if negb (HasMethod this method_ (length args_))
            then Throws (runtime_error
                   ("MethodCall::Execute. The class does not have a " +:+ dquote
                    +:+ method_ +:+ dquote +:+ " method with "
                    +:+ dec_of_nat (length args_) +:+ " arguments"))
                   (closure, context)
            else
              bind (ExecuteArgs args_ closure context)
                   (fun actual_args '(closure, context) =>
                      enter closure (Call Execute class_instance method_ actual_args context))
        end
    | _ => Throws (runtime_error "MethodCall::Execute. The object is not a custom type")
                  (closure, context)
    end).

(** [class_instance_] is a member of the node, made by the node's
    constructor; the node is known here by the address of that member. *)
Definition NewInstance_Execute (class_instance_ : positive) (args_ : list Statement)
           (closure : Closure) (context : World) : Outcome Frame ObjectHolder :=
  match instances context !! class_instance_ with
  | None => Undefined
  | Some this =>
      if HasMethod this INIT_METHOD (length args_)
      then
        bind (ExecuteArgs args_ closure context) (fun actual_args '(closure, context) =>
        bind (enter closure (Call Execute class_instance_ INIT_METHOD actual_args context))
             (fun _ frame => Returns (Some (ast.InstancePtr class_instance_)) frame))
      else Returns (Some (ast.InstancePtr class_instance_)) (closure, context)
  end.

(** [runtime::Object* obj_ptr = argument_->Execute(closure, context).Get()]:
    the holder [Execute] returned is a temporary, destroyed at the end of
    the initialiser, before [Print] is called through [obj_ptr]. When the
    object outlives that holder ([outlives_holder]) it is printed. When the
    holder was the only one, [obj_ptr] dangles and the behaviour is
    undefined; where the model cannot tell, it promises nothing, which is
    [Undefined] as well. *)
Definition Stringify_Execute (argument_ : Statement) (closure : Closure)
           (context : World) : Outcome Frame ObjectHolder :=
  bind (Execute argument_ closure context) (fun oh '(closure, context) =>
  if outlives_holder argument_ oh
  then bind (print_holder oh closure context) (fun out frame =>
       Returns (Some (ast.String out)) frame)
  else Undefined).

(** Both operands, left first, then [op] on the two holders. *)
Definition BinaryOperation (lhs_ rhs_ : Statement)
           (op : ObjectHolder -> ObjectHolder -> Closure -> World ->
                 Outcome Frame ObjectHolder)
           (closure : Closure) (context : World) : Outcome Frame ObjectHolder :=
  bind (Execute lhs_ closure context) (fun lhs '(closure, context) =>
  bind (Execute rhs_ closure context) (fun rhs '(closure, context) =>
  op lhs rhs closure context)).

Definition Add_op (lhs rhs : ObjectHolder) (closure : Closure) (context : World)
  : Outcome Frame ObjectHolder :=
  match lhs, rhs with
  | Some (ast.Number l), Some (ast.Number r) =>
      Returns (Some (ast.Number (wrap_int (l + r)))) (closure, context)
  | Some (ast.String l), Some (ast.String r) =>
      Returns (Some (ast.String (l +:+ r))) (closure, context)
  | Some (ast.InstancePtr lhs_ci), _ =>
      match instances context !! lhs_ci with
      | None => Undefined
      | Some this =>
          if HasMethod this ADD_METHOD 1
          then enter closure (Call Execute lhs_ci ADD_METHOD [rhs] context)
          else Throws (runtime_error "Add::Execute is failed") (closure, context)
      end
  | _, _ => Throws (runtime_error "Add::Execute is failed") (closure, context)
  end.

Definition Sub_op (lhs rhs : ObjectHolder) (closure : Closure) (context : World)
  : Outcome Frame ObjectHolder :=
  match lhs, rhs with
  | Some (ast.Number l), Some (ast.Number r) =>
      Returns (Some (ast.Number (wrap_int (l - r)))) (closure, context)
  | _, _ => Throws (runtime_error "Sub::Execute is failed") (closure, context)
  end.

Definition Mult_op (lhs rhs : ObjectHolder) (closure : Closure) (context : World)
  : Outcome Frame ObjectHolder :=
  match lhs, rhs with
  | Some (ast.Number l), Some (ast.Number r) =>
      Returns (Some (ast.Number (wrap_int (l * r)))) (closure, context)
  | _, _ => Throws (runtime_error "Mult::Execute is failed") (closure, context)
  end.

(** [int result = lhs_num->GetValue() / rhs_num->GetValue()]: [int]
    division truncates towards zero. The quotient of the least [int] by -1
    is not an [int]: that division is undefined (on x86 it traps). *)
Definition Div_op (lhs rhs : ObjectHolder) (closure : Closure) (context : World)
  : Outcome Frame ObjectHolder :=
  match lhs, rhs with
  | Some (ast.Number l), Some (ast.Number r) =>
      if r =? 0 then Throws (runtime_error "Div::Execute is failed") (closure, context)
      else if (l =? -2147483648) && (r =? -1) then Undefined
      else Returns (Some (ast.Number (wrap_int (Z.quot l r)))) (closure, context)
  | _, _ => Throws (runtime_error "Div::Execute is failed") (closure, context)
  end.

(** [ptr && ptr->GetValue()] for [ptr = holder.TryAs<runtime::Bool>()] *)
Definition is_true_bool (oh : ObjectHolder) : bool :=
  match oh with
  | Some (ast.Bool value) => value
  | _ => false
  end.

Definition Or_Execute (lhs_ rhs_ : Statement) (closure : Closure) (context : World)
  : Outcome Frame ObjectHolder :=
  bind (Execute lhs_ closure context) (fun lhs_obj '(closure, context) =>
    if is_true_bool lhs_obj
    then Returns (Some (ast.Bool true)) (closure, context)
    else
      bind (Execute rhs_ closure context) (fun rhs_obj frame =>
        if is_true_bool rhs_obj
        then Returns (Some (ast.Bool true)) frame
        else Returns (Some (ast.Bool false)) frame)).

Definition And_Execute (lhs_ rhs_ : Statement) (closure : Closure) (context : World)
  : Outcome Frame ObjectHolder :=
  bind (Execute lhs_ closure context) (fun lhs_obj '(closure, context) =>
    if negb (is_true_bool lhs_obj)
    then Returns (Some (ast.Bool false)) (closure, context)
    else
      bind (Execute rhs_ closure context) (fun rhs_obj frame =>
        if negb (is_true_bool rhs_obj)
        then Returns (Some (ast.Bool false)) frame
        else Returns (Some (ast.Bool true)) frame)).

Definition Not_Execute (argument_ : Statement) (closure : Closure) (context : World)
  : Outcome Frame ObjectHolder :=
  bind (Execute argument_ closure context) (fun arg_obj frame =>
    match arg_obj with
    | Some (ast.Bool value) => Returns (Some (ast.Bool (negb value))) frame
    | _ => Throws (runtime_error
             ("Not::Execute. The argument cannot be cast to the " +:+ dquote
              +:+ "runtime::Bool" +:+ dquote +:+ " type")) frame
    end).

Fixpoint Compound_Execute (statements_ : list Statement) (closure : Closure)
         (context : World) : Outcome Frame ObjectHolder :=
  match statements_ with
  | [] => Returns None (closure, context)
  | statement :: rest =>
      bind (Execute statement closure context) (fun _ '(closure, context) =>
      Compound_Execute rest closure context)
  end.

(** [try { return body_->Execute(...); } catch (ObjectHolder result)] *)
Definition MethodBody_Execute (body_ : Statement) (closure : Closure) (context : World)
  : Outcome Frame ObjectHolder :=
  match Execute body_ closure context with
  | Throws (thrown_holder result) frame => Returns result frame
  | other => other
  end.

(** [throw statement_->Execute(closure, context)] *)
Definition Return_Execute (statement_ : Statement) (closure : Closure) (context : World)
  : Outcome Frame ObjectHolder :=
  bind (Execute statement_ closure context) (fun result frame =>
  Throws (thrown_holder result) frame).

(** [closure[class_.TryAs<runtime::Class>()->GetName()] = class_] *)
Definition ClassDefinition_Execute (cls : ObjectHolder) (closure : Closure)
           (context : World) : Outcome Frame ObjectHolder :=
  match cls with
  | Some (ast.ClassObject c) =>
      if String.eqb (name_ c) ""
      then Throws (runtime_error "Class name must not be empty") (closure, context)
      else Returns cls (<[name_ c := cls]> closure, context)
  | _ => Undefined
  end.

Definition IfElse_Execute (condition_ if_body_ : Statement)
           (else_body_ : option Statement) (closure : Closure) (context : World)
  : Outcome Frame ObjectHolder :=
  bind (Execute condition_ closure context) (fun condition '(closure, context) =>
    match condition with
    | Some (ast.Bool value) =>
        if value then Execute if_body_ closure context
        else match else_body_ with
             | Some else_body => Execute else_body closure context
             | None => Returns None (closure, context)
             end
    | _ => Throws (runtime_error "Execute is failed") (closure, context)
    end).

Definition Comparison_op (cmp_ : ast.Comparator) (lhs rhs : ObjectHolder)
           (closure : Closure) (context : World) : Outcome Frame ObjectHolder :=
  bind (enter closure (compare Execute cmp_ lhs rhs context)) (fun cmp_result frame =>
  Returns (Some (ast.Bool cmp_result)) frame).

End Nodes.

(** Modelled from the spec: [ValueStatement<T>::Execute] of statement.h
    ([NumericConst], [StringConst], [BoolConst]) returns a fresh owning
    holder on the literal. *)
Definition ValueStatement_Execute (value : Object) (closure : Closure) (context : World)
  : Outcome Frame ObjectHolder :=
  Returns (Some value) (closure, context).

(** [Execute], dispatched on the node's class. Every call of [Execute] made
    from a node (on a child or, through [Call], on a method body) uses one
    unit of [fuel]. *)
Fixpoint Execute (fuel : nat) (node : Statement) (closure : Closure) (context : World)
         {struct fuel} : Outcome Frame ObjectHolder :=
  match fuel with
  | O => NoFuel
  | S n =>
      match node with
      | ast.NumericConst value => ValueStatement_Execute (ast.Number value) closure context
      | ast.StringConst value => ValueStatement_Execute (ast.String value) closure context
      | ast.BoolConst value => ValueStatement_Execute (ast.Bool value) closure context
      | ast.None => Returns None (closure, context)
      | ast.VariableValue dotted_ids_ => VariableValue_Execute dotted_ids_ closure context
      | ast.Assignment var rv => Assignment_Execute (Execute n) var rv closure context
      | ast.FieldAssignment object field rv =>
          FieldAssignment_Execute (Execute n) object field rv closure context
      | ast.Print args => Print_Execute (Execute n) n args closure context
      | ast.MethodCall object method args =>
          MethodCall_Execute (Execute n) object method args closure context
      | ast.NewInstance class_instance args =>
          NewInstance_Execute (Execute n) class_instance args closure context
      | ast.Stringify argument => Stringify_Execute (Execute n) n argument closure context
      | ast.Add lhs rhs => BinaryOperation (Execute n) lhs rhs (Add_op (Execute n)) closure context
      | ast.Sub lhs rhs => BinaryOperation (Execute n) lhs rhs Sub_op closure context
      | ast.Mult lhs rhs => BinaryOperation (Execute n) lhs rhs Mult_op closure context
      | ast.Div lhs rhs => BinaryOperation (Execute n) lhs rhs Div_op closure context
      | ast.Or lhs rhs => Or_Execute (Execute n) lhs rhs closure context
      | ast.And lhs rhs => And_Execute (Execute n) lhs rhs closure context
      | ast.Not argument => Not_Execute (Execute n) argument closure context
      | ast.Compound statements => Compound_Execute (Execute n) statements closure context
      | ast.MethodBody body => MethodBody_Execute (Execute n) body closure context
      | ast.Return statement => Return_Execute (Execute n) statement closure context
      | ast.ClassDefinition cls => ClassDefinition_Execute cls closure context
      | ast.IfElse condition if_body else_body =>
          IfElse_Execute (Execute n) condition if_body else_body closure context
      | ast.Comparison cmp lhs rhs =>
          BinaryOperation (Execute n) lhs rhs (Comparison_op (Execute n) cmp) closure context
      end
  end.

(** The objects whose [Print] writes their text at once: every object but
    an instance whose class has [__str__] without parameters. *)
Definition prints_directly (context : World) (object : Object) : bool :=
  match object with
  | ast.InstancePtr this =>
      match instances context !! this with
      | Some self => negb (HasMethod self "__str__" 0)
      | None => false
      end
  | _ => true
  end.

(** [NewInstance::NewInstance(class_, args)]: the node at [address] and the
    world in which its member instance, of class [cls] and without fields,
    exists. *)
Definition NewInstance_new (address : positive) (cls : Class) (args : list Statement)
           (context : World) : Statement * World :=
  (ast.NewInstance address args,
   {| instances := <[address := {| class_ := cls; fields_ := ∅ |}]> (instances context);
      output := output context |}).

(** *** Where a node executes its children

    [operands node]: the two operands of a node that executes both, left
    first, and then works on the two values ([BinaryOperation]). *)
Definition operands (node : Statement) : option (Statement * Statement) :=
  match node with
  | ast.Add lhs rhs | ast.Sub lhs rhs | ast.Mult lhs rhs | ast.Div lhs rhs
  | ast.Comparison _ lhs rhs => Some (lhs, rhs)
  | _ => None
  end.

(** [calls n node closure context child closure' context']: [Execute] of
    [node], started in [closure] and [context] with [n] nested calls to go,
    reaches the call of [Execute] on its child [child], in [closure'] and
    [context']; what the node executes before that call has returned. One
    rule for every place in statement.cpp where a node calls [Execute] on
    one of its children. *)
Inductive calls (n : nat)
  : Statement -> Closure -> World -> Statement -> Closure -> World -> Prop :=
| calls_Assignment var rv c w :
    calls n (ast.Assignment var rv) c w rv c w
| calls_FieldAssignment object field rv c w self c1 w1 :
    VariableValue_Execute object c w = Returns (Some (ast.InstancePtr self)) (c1, w1) ->
    is_Some (instances w1 !! self) ->
    calls n (ast.FieldAssignment object field rv) c w rv c1 (touch_field self field w1)
| calls_Print before arg after c w os c1 w1 :
    Print_loop (Execute n) n before 0 "" c w = Returns os (c1, w1) ->
    calls n (ast.Print (before ++ arg :: after)) c w arg c1 w1
| calls_MethodCall_object object method args c w :
    calls n (ast.MethodCall object method args) c w object c w
| calls_MethodCall_args object method before arg after c w self this c1 w1 values c2 w2 :
    Execute n object c w = Returns (Some (ast.InstancePtr self)) (c1, w1) ->
    instances w1 !! self = Some this ->
    HasMethod this method (length (before ++ arg :: after)) = true ->
    ExecuteArgs (Execute n) before c1 w1 = Returns values (c2, w2) ->
    calls n (ast.MethodCall object method (before ++ arg :: after)) c w arg c2 w2
| calls_NewInstance class_instance before arg after c w this values c1 w1 :
    instances w !! class_instance = Some this ->
    HasMethod this INIT_METHOD (length (before ++ arg :: after)) = true ->
    ExecuteArgs (Execute n) before c w = Returns values (c1, w1) ->
    calls n (ast.NewInstance class_instance (before ++ arg :: after)) c w arg c1 w1
| calls_Stringify argument c w :
    calls n (ast.Stringify argument) c w argument c w
| calls_lhs node lhs rhs c w :
    operands node = Some (lhs, rhs) ->
    calls n node c w lhs c w
| calls_rhs node lhs rhs c w value c1 w1 :
    operands node = Some (lhs, rhs) ->
    Execute n lhs c w = Returns value (c1, w1) ->
    calls n node c w rhs c1 w1
| calls_Or_lhs lhs rhs c w :
    calls n (ast.Or lhs rhs) c w lhs c w
| calls_Or_rhs lhs rhs c w value c1 w1 :
    Execute n lhs c w = Returns value (c1, w1) ->
    is_true_bool value = false ->
    calls n (ast.Or lhs rhs) c w rhs c1 w1
| calls_And_lhs lhs rhs c w :
    calls n (ast.And lhs rhs) c w lhs c w
| calls_And_rhs lhs rhs c w value c1 w1 :
    Execute n lhs c w = Returns value (c1, w1) ->
    is_true_bool value = true ->
    calls n (ast.And lhs rhs) c w rhs c1 w1
| calls_Not argument c w :
    calls n (ast.Not argument) c w argument c w
| calls_Compound before statement after c w value c1 w1 :
    Compound_Execute (Execute n) before c w = Returns value (c1, w1) ->
    calls n (ast.Compound (before ++ statement :: after)) c w statement c1 w1
| calls_MethodBody body c w :
    calls n (ast.MethodBody body) c w body c w
| calls_Return statement c w :
    calls n (ast.Return statement) c w statement c w
| calls_IfElse_condition condition if_body else_body c w :
    calls n (ast.IfElse condition if_body else_body) c w condition c w
| calls_IfElse_if condition if_body else_body c w c1 w1 :
    Execute n condition c w = Returns (Some (ast.Bool true)) (c1, w1) ->
    calls n (ast.IfElse condition if_body else_body) c w if_body c1 w1
| calls_IfElse_else condition if_body else_body c w c1 w1 :
    Execute n condition c w = Returns (Some (ast.Bool false)) (c1, w1) ->
    calls n (ast.IfElse condition if_body (Some else_body)) c w else_body c1 w1.

(** [escapes n node closure context result frame]: while [node] is executed
    a [Return] is executed outside any [MethodBody] of the tree below
    [node]. From [node] down to the [Return] every node is executing a child
    and none of them is a [MethodBody]; the argument of the [Return] has
    returned [result], leaving [frame]. *)
Inductive escapes
  : nat -> Statement -> Closure -> World -> ObjectHolder -> Frame -> Prop :=
| escapes_Return n statement c w result frame :
    Execute n statement c w = Returns result frame ->
    escapes (S n) (ast.Return statement) c w result frame
| escapes_child n node c w child c1 w1 result frame :
    calls n node c w child c1 w1 ->
    (forall body, node <> ast.MethodBody body) ->
    escapes n child c1 w1 result frame ->
    escapes (S n) node c w result frame.

End statement.

(** ** Sample programs and inputs *)

Module samples.

Import runtime statement.

Definition LF : string := String.String "010"%char EmptyString.

Definition no_world : World := {| instances := ∅; output := "" |}.

(** An [if] suite that ends with the text, without a final line feed. *)
Definition open_suite : string := "if x:" +:+ LF +:+ "  y".

(** The same text with the final line feed. *)
Definition closed_suite : string := "if x:" +:+ LF +:+ "  y" +:+ LF.

Definition long_literal : string := "x = 99999999999".

(** [y = 7], the closure in which [x.y] is looked up. *)
Definition only_y : Closure := {[ "y" := Some (ast.Number 7) ]}.

(** [x = 5] and [y = 7]. *)
Definition number_x_and_y : Closure :=
  <[ "x" := Some (ast.Number 5) ]> only_y.

(** A class whose [__eq__] answers [True] and whose [__lt__] answers the
    number 1, and a world with one instance of it at address 1. *)
Definition Same : Class :=
  ast.mk_Class "Same"
    [ ast.mk_Method "__eq__" ["other"]
        (ast.MethodBody (ast.Compound [ast.Return (ast.BoolConst true)]));
      ast.mk_Method "__lt__" ["other"]
        (ast.MethodBody (ast.Compound [ast.Return (ast.NumericConst 1)])) ]
    None.

Definition same_world : World :=
  {| instances := {[ 1%positive := {| class_ := Same; fields_ := ∅ |} ]}; output := "" |}.

(** [class Box] with [def __init__(v): self.v = v]; the node [Box(n)],
    whose member instance is at address 1, and the world in which the node
    has just been built. *)
Definition Box : Class :=
  ast.mk_Class "Box"
    [ ast.mk_Method "__init__" ["v"]
        (ast.MethodBody
           (ast.Compound [ast.FieldAssignment ["self"] "v" (ast.VariableValue ["v"])])) ]
    None.

Definition Box_n : Statement :=
  fst (NewInstance_new 1 Box [ast.VariableValue ["n"]] no_world).

Definition box_world : World :=
  snd (NewInstance_new 1 Box [ast.VariableValue ["n"]] no_world).

Definition n_is (value : Z) : Closure := {[ "n" := Some (ast.Number value) ]}.

(** The world in which the instance at address 1 has the field [v]. *)
Definition box_with (value : Z) : World :=
  {| instances := {[ 1%positive :=
                       {| class_ := Box;
                          fields_ := {[ "v" := Some (ast.Number value) ]} |} ]};
     output := "" |}.

(** [class Loud] with [def __str__(): print 'hi'; return 'p'], an instance
    of it at address 1 and the scope [p = Loud()]. *)
Definition Loud : Class :=
  ast.mk_Class "Loud"
    [ ast.mk_Method "__str__" []
        (ast.MethodBody
           (ast.Compound [ast.Print [ast.StringConst "hi"];
                          ast.Return (ast.StringConst "p")])) ]
    None.

Definition loud_world : World :=
  {| instances := {[ 1%positive := {| class_ := Loud; fields_ := ∅ |} ]}; output := "" |}.

Definition loud_said_hi : World :=
  {| instances := {[ 1%positive := {| class_ := Loud; fields_ := ∅ |} ]};
     output := "hi" +:+ LF |}.

Definition p_is_loud : Closure := {[ "p" := Some (ast.InstancePtr 1) ]}.

(** Scenario 4 of the specification: [class Dog] with [__init__(name)] and
    [bark()], then [d = Dog('rex')] and [d.bark()]; the node [Dog('rex')]
    has its member instance at address 1. *)
Definition Dog : Class :=
  ast.mk_Class "Dog"
    [ ast.mk_Method "__init__" ["name"]
        (ast.MethodBody
           (ast.Compound [ast.FieldAssignment ["self"] "name" (ast.VariableValue ["name"])]));
      ast.mk_Method "bark" []
        (ast.MethodBody
           (ast.Compound [ast.Print [ast.VariableValue ["self"; "name"]]])) ]
    None.

Definition dog_program : Statement :=
  ast.Compound
    [ ast.ClassDefinition (Some (ast.ClassObject Dog));
      ast.Assignment "d" (fst (NewInstance_new 1 Dog [ast.StringConst "rex"] no_world));
      ast.MethodCall (ast.VariableValue ["d"]) "bark" [] ].

Definition dog_world : World :=
  snd (NewInstance_new 1 Dog [ast.StringConst "rex"] no_world).

(** [class Moody] whose [__lt__] notes that it ran, [self.seen = 1], and
    answers [False], and whose [__eq__] answers [self.seen == 1]; a world
    with one instance of it, at address 1, whose field [seen] is 0, and the
    world a call of [__lt__] leaves. *)
Definition Moody : Class :=
  ast.mk_Class "Moody"
    [ ast.mk_Method "__lt__" ["other"]
        (ast.MethodBody
           (ast.Compound [ast.FieldAssignment ["self"] "seen" (ast.NumericConst 1);
                          ast.Return (ast.BoolConst false)]));
      ast.mk_Method "__eq__" ["other"]
        (ast.MethodBody
           (ast.Compound
              [ast.Return (ast.Comparison ast.Equal (ast.VariableValue ["self"; "seen"])
                                          (ast.NumericConst 1))])) ]
    None.

Definition moody_with (seen : Z) : World :=
  {| instances := {[ 1%positive :=
                       {| class_ := Moody;
                          fields_ := {[ "seen" := Some (ast.Number seen) ]} |} ]};
     output := "" |}.

(** The program [x = 1], [if x == 1: return x], [x = 2], as [ParseProgram]
    builds it: the [return] is in the suite of a top-level [if]. *)
Definition return_in_if : Statement :=
  ast.IfElse (ast.Comparison ast.Equal (ast.VariableValue ["x"]) (ast.NumericConst 1))
             (ast.Compound [ast.Return (ast.VariableValue ["x"])])
             None.

Definition early_exit : Statement :=
  ast.Compound [ast.Assignment "x" (ast.NumericConst 1);
                return_in_if;
                ast.Assignment "x" (ast.NumericConst 2)].

Definition x_is_1 : Closure := {[ "x" := Some (ast.Number 1) ]}.

(** The text lexed by main.cpp. *)
Definition main_text : string :=
  "a = 10" +:+ LF +:+ "if a > 1: ##hello world" +:+ LF +:+ "  print 'more'" +:+ LF
  +:+ "else:" +:+ LF +:+ "  print 'less'" +:+ LF.

(** A scope with [self] bound to the instance at address 1. *)
Definition self_is_1 : Closure := {[ "self" := Some (ast.InstancePtr 1) ]}.

End samples.

(** ** The token cursor and what can be said of a token list *)

Module lexer.

Import parse.

(** [Token::index()]: the position of the alternative in [TokenBase]. *)
Definition index (t : Token) : nat :=
  match t with
  | token_type.Number _ => 0 | token_type.Id _ => 1 | token_type.Char _ => 2
  | token_type.String _ => 3 | token_type.Class => 4 | token_type.Return => 5
  | token_type.If => 6 | token_type.Else => 7 | token_type.Def => 8
  | token_type.Newline => 9 | token_type.Print => 10 | token_type.Indent => 11
  | token_type.Dedent => 12 | token_type.And => 13 | token_type.Or => 14
  | token_type.Not => 15 | token_type.Eq => 16 | token_type.NotEq => 17
  | token_type.LessOrEq => 18 | token_type.GreaterOrEq => 19 | token_type.None => 20
  | token_type.True => 21 | token_type.False => 22 | token_type.Eof => 23
  end.

(** [operator==(const Token&, const Token&)]: the alternatives are compared
    first; [rhs.As<T>()] is reached only when [rhs] holds the alternative
    [lhs] holds. *)
Definition Token_eq (lhs rhs : Token) : bool :=
  if negb (Nat.eqb (index lhs) (index rhs)) then false
  else
    match lhs, rhs with
    | token_type.Char l, token_type.Char r => Ascii.eqb l r
    | token_type.Number l, token_type.Number r => Z.eqb l r
    | token_type.String l, token_type.String r => String.eqb l r
    | token_type.Id l, token_type.Id r => String.eqb l r
    | _, _ => true
    end.

(** [operator!=] *)
Definition Token_ne (lhs rhs : Token) : bool := negb (Token_eq lhs rhs).

(** [class Lexer]: the tokens its [Parser] member made, and the cursor. *)
Record Lexer : Type := mk_Lexer {
  current_token_index_ : nat;
  parser_ : Parser
}.

(** [Lexer::Lexer(input)]: the [Parser] member lexes the whole input. *)
Definition Lexer_new (fuel : nat) (text : string) : Res Lexer :=
  bind (ParseTokens fuel {| input_tokens_ := open text; tokens_ := [];
                            current_dent_ := 0 |})
       (fun p => Done {| current_token_index_ := 0; parser_ := p |}).

(** [CurrentToken()]: [parser_.GetTokens()[current_token_index_]]; an index
    outside the vector has no token. *)
Definition CurrentToken (l : Lexer) : option Token :=
  tokens_ (parser_ l) !! current_token_index_ l.

(** [NextToken()]: the cursor moves unless it is on the last token. *)
Definition NextToken (l : Lexer) : option Token * Lexer :=
  let l' :=
    if negb (Nat.eqb (current_token_index_ l + 1) (length (tokens_ (parser_ l))))
    then {| current_token_index_ := current_token_index_ l + 1; parser_ := parser_ l |}
    else l in
  (CurrentToken l', l').

(** [k] calls of [NextToken]. *)
Fixpoint advance (k : nat) (l : Lexer) : Lexer :=
  match k with
  | O => l
  | S k' => advance k' (snd (NextToken l))
  end.

(** What the handlers promise of the tokens they emit. *)
Definition token_ok (t : Token) : bool :=
  match t with
  | token_type.Number value => (0 <=? value)%Z && (value <=? 2147483647)%Z
  | token_type.Id word =>
      match token_types word, word with
      | None, String.String c _ => isalpha c || Ascii.eqb c "_"
      | _, _ => false
      end
  | token_type.Char c =>
      ispunct c && negb (Ascii.eqb c dquote) && negb (Ascii.eqb c "'")
      && negb (Ascii.eqb c "#")
  | token_type.Eof => false
  | _ => true
  end.

(** The depth of indentation after a list of tokens. *)
Definition depth (ts : list Token) : Z :=
  Z.of_nat (count_token token_type.Indent ts) - Z.of_nat (count_token token_type.Dedent ts).

(** A text made of decimal digits only. *)
Fixpoint all_digits (s : string) : bool :=
  match s with
  | EmptyString => true
  | String.String c rest => isdigit c && all_digits rest
  end.

(** What [ParseTokens] keeps true of the tokens made so far and of
    [current_dent_]. *)
Definition Inv (p : Parser) : Prop :=
  forallb token_ok (tokens_ p) = true
  /\ (forall l1 l2, tokens_ p <> (l1 ++ token_type.Newline :: token_type.Newline :: l2)%list)
  /\ head (tokens_ p) <> Some token_type.Newline
  /\ (forall l1 l2, tokens_ p = (l1 ++ l2)%list -> (0 <= depth l1)%Z)
  /\ depth (tokens_ p) = current_dent_ p
  /\ (current_dent_ p <= 32767)%Z.

(** What a handler keeps: it hands on a state in which [Inv] holds, or
    raises something other than a failed assertion. *)
Definition keeps (r : Res Parser) : Prop :=
  match r with
  | Done p => Inv p
  | Raise e => e <> assertion_failed
  | NoFuel => True
  end.

End lexer.

(** ** What execution keeps of the world *)

Module world.

Import runtime statement.

(** [w'] comes after [w]: the output of [w] is the beginning of the output
    of [w'], and every instance of [w] is still there in [w'], of the same
    class and with at least the fields it had. *)
Definition extends (w w' : World) : Prop :=
  (exists more, output w' = (output w +:+ more)%string)
  /\ forall address this,
       instances w !! address = Some this ->
       exists this', instances w' !! address = Some this'
                     /\ class_ this' = class_ this
                     /\ forall f, is_Some (fields_ this !! f) -> is_Some (fields_ this' !! f).

(** A call that started in [w] ends, if it ends, in a world after [w]. *)
Definition keeps {A} (w : World) (r : Outcome World A) : Prop :=
  match r with
  | Returns _ w' => extends w w'
  | Throws _ w' => extends w w'
  | Undefined => True
  | NoFuel => True
  end.

Definition keeps_frame {A} (w : World) (r : Outcome Frame A) : Prop :=
  match r with
  | Returns _ (_, w') => extends w w'
  | Throws _ (_, w') => extends w w'
  | Undefined => True
  | NoFuel => True
  end.

End world.

(** ** Kinds of operands *)

Module values.

Import runtime.

(** Two holders on numbers, on strings or on booleans: the operands the
    comparators compare themselves. *)
Definition same_primitive (lhs rhs : ObjectHolder) : bool :=
  match lhs, rhs with
  | Some (ast.Bool _), Some (ast.Bool _) => true
  | Some (ast.Number _), Some (ast.Number _) => true
  | Some (ast.String _), Some (ast.String _) => true
  | _, _ => false
  end.

Definition is_instance (oh : ObjectHolder) : bool :=
  match oh with
  | Some (ast.InstancePtr _) => true
  | _ => false
  end.

(** Whether a number fits an [int]. *)
Definition fits_int (z : Z) : bool := (-2147483648 <=? z)%Z && (z <=? 2147483647)%Z.

End values.

(** ** More sample classes and texts *)

Module more_samples.

Import runtime statement.

(** [class Mute] with [def __str__():] and a body that returns nothing, and
    a world with one instance of it at address 1. *)
Definition Mute : Class :=
  ast.mk_Class "Mute"
    [ ast.mk_Method "__str__" [] (ast.MethodBody (ast.Compound [])) ]
    None.

Definition mute_world : World :=
  {| instances := {[ 1%positive := {| class_ := Mute; fields_ := ∅ |} ]}; output := "" |}.

(** The text of [samples.dog_program]. *)
Definition dog_text : string :=
  "class Dog:" +:+ samples.LF
  +:+ "  def __init__(name):" +:+ samples.LF
  +:+ "    self.name = name" +:+ samples.LF
  +:+ "  def bark():" +:+ samples.LF
  +:+ "    print self.name" +:+ samples.LF
  +:+ "d = Dog('rex')" +:+ samples.LF
  +:+ "d.bark()" +:+ samples.LF.

(** The call of a plain name as a statement. *)
Definition bare_call : string := "foo(1)" +:+ samples.LF.

End more_samples.

(** ** The parser (parse.cpp) *)

Module parser.

Abbreviation Token := token_type.Token.
Abbreviation Statement := ast.Statement.

(** What the parser throws. The two [LexerError]s come from [Lexer::Expect]
    of lexer.h; the text of the first one holds [typeid(T).name()], which the
    compiler chooses, so the model keeps the index of the alternative [T]
    instead of the text.

    Modelled from the spec: [ParseError], whose declaration in parse.h is not
    among the sources, is an error that carries a message. *)
Inductive Error : Type :=
| LexerError_data_type (T : nat)
| LexerError_value
| ParseError (what : string).

(** [class Parser] of parse.cpp: the lexer it reads from and the classes
    declared so far. The model adds the store of the [NewInstance] nodes
    built so far: [nodes] is the world in which the member instance of each
    of them exists, and [free] is the address the next node's member gets.
    Addresses are numbered in the order the nodes are built; all that
    matters is that two nodes never share one. *)
Record Parser : Type := mk_Parser {
  lexer_ : lexer.Lexer;
  declared_classes_ : runtime.Closure;
  nodes : runtime.World;
  free : positive
}.

Definition Parser_new (lexer : lexer.Lexer) : Parser :=
  {| lexer_ := lexer; declared_classes_ := ∅;
     nodes := {| runtime.instances := ∅; runtime.output := "" |}; free := 1 |}.

Definition with_lexer (lexer : lexer.Lexer) (p : Parser) : Parser :=
  {| lexer_ := lexer; declared_classes_ := declared_classes_ p;
     nodes := nodes p; free := free p |}.

(** A parsing function returns a value and the parser's new state, throws,
    runs into undefined behaviour (an index outside the token vector,
    [back()] of an empty vector, a holder of [declared_classes_] that is not
    a class) or is cut off by the fuel of the model. *)
Inductive Result (A : Type) : Type :=
| Ok (a : A) (p : Parser)
| Raise (e : Error)
| Undefined
| NoFuel.
Arguments Ok {A} a p.
Arguments Raise {A} e.
Arguments Undefined {A}.
Arguments NoFuel {A}.

Definition M (A : Type) : Type := Parser -> Result A.

Definition ret {A : Type} (a : A) : M A := fun p => Ok a p.
Definition throw {A : Type} (e : Error) : M A := fun _ => Raise e.
Definition undefined {A : Type} : M A := fun _ => Undefined.
Definition out_of_fuel {A : Type} : M A := fun _ => NoFuel.

Definition bind {A B : Type} (m : M A) (k : A -> M B) : M B :=
  fun p =>
    match m p with
    | Ok a p' => k a p'
    | Raise e => Raise e
    | Undefined => Undefined
    | NoFuel => NoFuel
    end.

Local Notation "x <- m ;; k" := (bind m (fun x => k))
  (at level 100, m at next level, right associativity).
Local Notation "m ;; k" := (bind m (fun _ => k))
  (at level 100, right associativity).

(** *** The lexer, as the parser uses it (lexer.h) *)

Definition CurrentToken : M Token :=
  fun p =>
    match lexer.CurrentToken (lexer_ p) with
    | Some t => Ok t p
    | Datatypes.None => Undefined
    end.

Definition NextToken : M Token :=
  fun p =>
    match lexer.NextToken (lexer_ p) with
    | (Some t, lexer) => Ok t (with_lexer lexer p)
    | (Datatypes.None, _) => Undefined
    end.

(** The alternatives of [TokenBase] that [Expect] is used at, by index. *)
Definition T_Id : nat := 1.
Definition T_Char : nat := 2.
Definition T_If : nat := 6.
Definition T_Def : nat := 8.
Definition T_Newline : nat := 9.
Definition T_Indent : nat := 11.
Definition T_Dedent : nat := 12.

(** [Expect<T>()] *)
Definition Expect (T : nat) : M Token :=
  t <- CurrentToken ;;
  if Nat.eqb (lexer.index t) T then ret t else throw (LexerError_data_type T).

(** [Expect<T>(value)], for [T = Char] *)
Definition Expect_Char (value : ascii) : M unit :=
  t <- Expect T_Char ;;
  match t with
  | token_type.Char v => if Ascii.eqb v value then ret tt else throw LexerError_value
  | _ => undefined
  end.

(** [Expect<Id>().value] *)
Definition Expect_Id : M string :=
  t <- Expect T_Id ;;
  match t with
  | token_type.Id value => ret value
  | _ => undefined
  end.

(** [ExpectNext<T>()] *)
Definition ExpectNext (T : nat) : M Token := NextToken ;; Expect T.

(** [ExpectNext<T>(value)], for [T = Char] *)
Definition ExpectNext_Char (value : ascii) : M unit := NextToken ;; Expect_Char value.

(** [ExpectNext<Id>().value] *)
Definition ExpectNext_Id : M string := NextToken ;; Expect_Id.

(** [operator==(const parse::Token&, char)] of parse.cpp *)
Definition is_char (token : Token) (c : ascii) : bool :=
  match token with
  | token_type.Char value => Ascii.eqb value c
  | _ => false
  end.

(** [v.back()]; [v.pop_back()] is [removelast]. *)
Definition back {A : Type} (v : list A) : M A :=
  match last v with
  | Some x => ret x
  | Datatypes.None => undefined
  end.

(** *** The parsing functions

    The functions of the grammar call one another. [Calls] holds all of
    them with one call less to go: a function's body, below, makes its calls
    through [call], and a turn of a loop counts as a call. *)
Record Calls : Type := mk_Calls {
  call_ParseProgram_loop : list Statement -> M Statement;
  call_ParseSuite : M Statement;
  call_ParseSuite_loop : list Statement -> M (list Statement);
  call_ParseMethods_loop : list runtime.Method -> M (list runtime.Method);
  call_ParseMethods_params : list string -> M (list string);
  call_ParseClassDefinition : M Statement;
  call_ParseDottedIds : M (list string);
  call_ParseDottedIds_loop : list string -> M (list string);
  call_ParseAssignmentOrCall : M Statement;
  call_ParseExpression : M Statement;
  call_ParseExpression_loop : Statement -> M Statement;
  call_ParseAdder : M Statement;
  call_ParseAdder_loop : Statement -> M Statement;
  call_ParseMult : M Statement;
  call_ParseDottedIdsInMultExpr : M Statement;
  call_ParseTestList : M (list Statement);
  call_ParseTestList_loop : list Statement -> M (list Statement);
  call_ParseCondition : M Statement;
  call_ParseTest : M Statement;
  call_ParseTest_loop : Statement -> M Statement;
  call_ParseAndTest : M Statement;
  call_ParseAndTest_loop : Statement -> M Statement;
  call_ParseNotTest : M Statement;
  call_ParseComparison : M Statement;
  call_ParseStatement : M Statement;
  call_ParseSimpleStatement : M Statement
}.

Section Functions.

Variable call : Calls.

(** The [while] loop of [ParseProgram], with the [return]. *)
Definition ParseProgram_loop (result : list Statement) : M Statement :=
  tok <- CurrentToken ;;
  match tok with
  | token_type.Eof => ret (ast.Compound result)
  | _ =>
      statement <- call_ParseStatement call ;;
      call_ParseProgram_loop call (result ++ [statement])
  end.

(** The [while] loop of [ParseSuite]. *)
Definition ParseSuite_loop (result : list Statement) : M (list Statement) :=
  tok <- CurrentToken ;;
  match tok with
  | token_type.Dedent => ret result
  | _ =>
      statement <- call_ParseStatement call ;;
      call_ParseSuite_loop call (result ++ [statement])
  end.

Definition ParseSuite : M Statement :=
  Expect T_Newline ;;
  ExpectNext T_Indent ;;
  NextToken ;;
  result <- call_ParseSuite_loop call [] ;;
  Expect T_Dedent ;;
  NextToken ;;
  ret (ast.Compound result).

(** The inner [while] loop of [ParseMethods]: the parameters after the
    first. *)
Definition ParseMethods_params (formal_params : list string) : M (list string) :=
  t <- NextToken ;;
  if is_char t ","
  then
    value <- ExpectNext_Id ;;
    call_ParseMethods_params call (formal_params ++ [value])
  else ret formal_params.

(** The outer [while] loop of [ParseMethods], with the [return]. *)
Definition ParseMethods_loop (result : list runtime.Method) : M (list runtime.Method) :=
  tok <- CurrentToken ;;
  match tok with
  | token_type.Def =>
      name <- ExpectNext_Id ;;
      ExpectNext_Char "(" ;;
      t <- NextToken ;;
      formal_params <-
        match t with
        | token_type.Id _ =>
            value <- Expect_Id ;;
            call_ParseMethods_params call [value]
        | _ => ret []
        end ;;
      Expect_Char ")" ;;
      ExpectNext_Char ":" ;;
      NextToken ;;
      suite <- call_ParseSuite call ;;
      call_ParseMethods_loop call
        (result ++ [ast.mk_Method name formal_params (ast.MethodBody suite)])
  | _ => ret result
  end.

Definition ParseClassDefinition : M Statement :=
  class_name <- Expect_Id ;;
  NextToken ;;
  tok <- CurrentToken ;;
  base_class <-
    (if is_char tok "("
     then
       name <- ExpectNext_Id ;;
       ExpectNext_Char ")" ;;
       NextToken ;;
       fun p =>
         match declared_classes_ p !! name with
         | Datatypes.None =>
             Raise (ParseError ("Base class " +:+ name +:+ " not found for class "
                                +:+ class_name))
         | Some (Some (ast.ClassObject cls)) => Ok (Some cls) p
         | Some _ => Undefined
         end
     else ret Datatypes.None) ;;
  Expect_Char ":" ;;
  ExpectNext T_Newline ;;
  ExpectNext T_Indent ;;
  ExpectNext T_Def ;;
  methods <- call_ParseMethods_loop call [] ;;
  Expect T_Dedent ;;
  NextToken ;;
  fun p =>
    let cls := ast.mk_Class class_name methods base_class in
    match declared_classes_ p !! class_name with
    | Some _ => Raise (ParseError ("Class " +:+ class_name +:+ " already exists"))
    | Datatypes.None =>
        Ok (ast.ClassDefinition (Some (ast.ClassObject cls)))
           {| lexer_ := lexer_ p;
              declared_classes_ :=
                <[class_name := Some (ast.ClassObject cls)]> (declared_classes_ p);
              nodes := nodes p; free := free p |}
    end.

(** The [while] loop of [ParseDottedIds]. *)
Definition ParseDottedIds_loop (result : list string) : M (list string) :=
  t <- NextToken ;;
  if is_char t "."
  then
    value <- ExpectNext_Id ;;
    call_ParseDottedIds_loop call (result ++ [value])
  else ret result.

Definition ParseDottedIds : M (list string) :=
  value <- Expect_Id ;;
  call_ParseDottedIds_loop call [value].

Definition ParseAssignmentOrCall : M Statement :=
  Expect T_Id ;;
  ids <- call_ParseDottedIds call ;;
  last_name <- back ids ;;
  let id_list := removelast ids in
  tok <- CurrentToken ;;
  if is_char tok "="
  then
    NextToken ;;
    match id_list with
    | [] =>
        r_value <- call_ParseTest call ;;
        ret (ast.Assignment last_name r_value)
    | _ =>
        r_value <- call_ParseTest call ;;
        ret (ast.FieldAssignment id_list last_name r_value)
    end
  else
    Expect_Char "(" ;;
    NextToken ;;
    match id_list with
    | [] =>
        throw (ParseError ("Mython doesn't support functions, only methods: "
                           +:+ last_name))
    | _ =>
        tok <- CurrentToken ;;
        args <- (if negb (is_char tok ")") then call_ParseTestList call else ret []) ;;
        Expect_Char ")" ;;
        NextToken ;;
        ret (ast.MethodCall (ast.VariableValue id_list) last_name args)
    end.

(** The [while] loop of [ParseExpression]. *)
Definition ParseExpression_loop (result : Statement) : M Statement :=
  tok <- CurrentToken ;;
  if is_char tok "+" || is_char tok "-"
  then
    NextToken ;;
    rhs <- call_ParseAdder call ;;
    call_ParseExpression_loop call
      (if is_char tok "+" then ast.Add result rhs else ast.Sub result rhs)
  else ret result.

Definition ParseExpression : M Statement :=
  result <- call_ParseAdder call ;;
  call_ParseExpression_loop call result.

(** The [while] loop of [ParseAdder]. *)
Definition ParseAdder_loop (result : Statement) : M Statement :=
  tok <- CurrentToken ;;
  if is_char tok "*" || is_char tok "/"
  then
    NextToken ;;
    rhs <- call_ParseMult call ;;
    call_ParseAdder_loop call
      (if is_char tok "*" then ast.Mult result rhs else ast.Div result rhs)
  else ret result.

Definition ParseAdder : M Statement :=
  result <- call_ParseMult call ;;
  call_ParseAdder_loop call result.

Definition ParseMult : M Statement :=
  tok <- CurrentToken ;;
  if is_char tok "("
  then
    NextToken ;;
    result <- call_ParseTest call ;;
    Expect_Char ")" ;;
    NextToken ;;
    ret result
  else if is_char tok "-"
  then
    NextToken ;;
    operand <- call_ParseMult call ;;
    ret (ast.Mult operand (ast.NumericConst (-1)))
  else
    match tok with
    | token_type.Number value => NextToken ;; ret (ast.NumericConst value)
    | token_type.String value => NextToken ;; ret (ast.StringConst value)
    | token_type.True => NextToken ;; ret (ast.BoolConst true)
    | token_type.False => NextToken ;; ret (ast.BoolConst false)
    | token_type.None => NextToken ;; ret ast.None
    | _ => call_ParseDottedIdsInMultExpr call
    end.

Definition ParseDottedIdsInMultExpr : M Statement :=
  names <- call_ParseDottedIds call ;;
  tok <- CurrentToken ;;
  if is_char tok "("
  then
    t <- NextToken ;;
    args <- (if negb (is_char t ")") then call_ParseTestList call else ret []) ;;
    Expect_Char ")" ;;
    NextToken ;;
    method_name <- back names ;;
    match removelast names with
    | _ :: _ =>
        ret (ast.MethodCall (ast.VariableValue (removelast names)) method_name args)
    | [] =>
        fun p =>
          match declared_classes_ p !! method_name with
          | Some (Some (ast.ClassObject cls)) =>
              let '(node, world) :=
                statement.NewInstance_new (free p) cls args (nodes p) in
              Ok node {| lexer_ := lexer_ p; declared_classes_ := declared_classes_ p;
                         nodes := world; free := Pos.succ (free p) |}
          | Some _ => Undefined
          | Datatypes.None =>
              if String.eqb method_name "str"
              then
                match args with
                | [argument] => Ok (ast.Stringify argument) p
                | _ => Raise (ParseError "Function str takes exactly one argument")
                end
              else Raise (ParseError ("Unknown call to " +:+ method_name +:+ "()"))
          end
    end
  else ret (ast.VariableValue names).

(** The [while] loop of [ParseTestList]. *)
Definition ParseTestList_loop (result : list Statement) : M (list Statement) :=
  tok <- CurrentToken ;;
  if is_char tok ","
  then
    NextToken ;;
    test <- call_ParseTest call ;;
    call_ParseTestList_loop call (result ++ [test])
  else ret result.

Definition ParseTestList : M (list Statement) :=
  test <- call_ParseTest call ;;
  call_ParseTestList_loop call [test].

Definition ParseCondition : M Statement :=
  Expect T_If ;;
  NextToken ;;
  condition <- call_ParseTest call ;;
  Expect_Char ":" ;;
  NextToken ;;
  if_body <- call_ParseSuite call ;;
  tok <- CurrentToken ;;
  else_body <-
    match tok with
    | token_type.Else =>
        ExpectNext_Char ":" ;;
        NextToken ;;
        suite <- call_ParseSuite call ;;
        ret (Some suite)
    | _ => ret Datatypes.None
    end ;;
  ret (ast.IfElse condition if_body else_body).

(** The [while] loop of [ParseTest]. *)
Definition ParseTest_loop (result : Statement) : M Statement :=
  tok <- CurrentToken ;;
  match tok with
  | token_type.Or =>
      NextToken ;;
      rhs <- call_ParseAndTest call ;;
      call_ParseTest_loop call (ast.Or result rhs)
  | _ => ret result
  end.

Definition ParseTest : M Statement :=
  result <- call_ParseAndTest call ;;
  call_ParseTest_loop call result.

(** The [while] loop of [ParseAndTest]. *)
Definition ParseAndTest_loop (result : Statement) : M Statement :=
  tok <- CurrentToken ;;
  match tok with
  | token_type.And =>
      NextToken ;;
      rhs <- call_ParseNotTest call ;;
      call_ParseAndTest_loop call (ast.And result rhs)
  | _ => ret result
  end.

Definition ParseAndTest : M Statement :=
  result <- call_ParseNotTest call ;;
  call_ParseAndTest_loop call result.

Definition ParseNotTest : M Statement :=
  tok <- CurrentToken ;;
  match tok with
  | token_type.Not =>
      NextToken ;;
      argument <- call_ParseNotTest call ;;
      ret (ast.Not argument)
  | _ => call_ParseComparison call
  end.

Definition compare_with (cmp : ast.Comparator) (result : Statement) : M Statement :=
  NextToken ;;
  rhs <- call_ParseExpression call ;;
  ret (ast.Comparison cmp result rhs).

Definition ParseComparison : M Statement :=
  result <- call_ParseExpression call ;;
  token <- CurrentToken ;;
  if is_char token "<" then compare_with ast.Less result
  else if is_char token ">" then compare_with ast.Greater result
  else
    match token with
    | token_type.Eq => compare_with ast.Equal result
    | token_type.NotEq => compare_with ast.NotEqual result
    | token_type.LessOrEq => compare_with ast.LessOrEqual result
    | token_type.GreaterOrEq => compare_with ast.GreaterOrEqual result
    | _ => ret result
    end.

Definition ParseStatement : M Statement :=
  tok <- CurrentToken ;;
  match tok with
  | token_type.Class => NextToken ;; call_ParseClassDefinition call
  | token_type.If => call_ParseCondition call
  | _ =>
      result <- call_ParseSimpleStatement call ;;
      Expect T_Newline ;;
      NextToken ;;
      ret result
  end.

Definition ParseSimpleStatement : M Statement :=
  tok <- CurrentToken ;;
  match tok with
  | token_type.Return =>
      NextToken ;;
      statement <- call_ParseTest call ;;
      ret (ast.Return statement)
  | token_type.Print =>
      NextToken ;;
      tok <- CurrentToken ;;
      args <-
        match tok with
        | token_type.Newline => ret []
        | _ => call_ParseTestList call
        end ;;
      ret (ast.Print args)
  | _ => call_ParseAssignmentOrCall call
  end.

End Functions.

(** The functions when [fuel] nested calls can still be made. *)
Fixpoint calls (fuel : nat) : Calls :=
  match fuel with
  | O =>
      {| call_ParseProgram_loop := fun _ => out_of_fuel;
         call_ParseSuite := out_of_fuel;
         call_ParseSuite_loop := fun _ => out_of_fuel;
         call_ParseMethods_loop := fun _ => out_of_fuel;
         call_ParseMethods_params := fun _ => out_of_fuel;
         call_ParseClassDefinition := out_of_fuel;
         call_ParseDottedIds := out_of_fuel;
         call_ParseDottedIds_loop := fun _ => out_of_fuel;
         call_ParseAssignmentOrCall := out_of_fuel;
         call_ParseExpression := out_of_fuel;
         call_ParseExpression_loop := fun _ => out_of_fuel;
         call_ParseAdder := out_of_fuel;
         call_ParseAdder_loop := fun _ => out_of_fuel;
         call_ParseMult := out_of_fuel;
         call_ParseDottedIdsInMultExpr := out_of_fuel;
         call_ParseTestList := out_of_fuel;
         call_ParseTestList_loop := fun _ => out_of_fuel;
         call_ParseCondition := out_of_fuel;
         call_ParseTest := out_of_fuel;
         call_ParseTest_loop := fun _ => out_of_fuel;
         call_ParseAndTest := out_of_fuel;
         call_ParseAndTest_loop := fun _ => out_of_fuel;
         call_ParseNotTest := out_of_fuel;
         call_ParseComparison := out_of_fuel;
         call_ParseStatement := out_of_fuel;
         call_ParseSimpleStatement := out_of_fuel |}
  | S fuel =>
      let call := calls fuel in
      {| call_ParseProgram_loop := ParseProgram_loop call;
         call_ParseSuite := ParseSuite call;
         call_ParseSuite_loop := ParseSuite_loop call;
         call_ParseMethods_loop := ParseMethods_loop call;
         call_ParseMethods_params := ParseMethods_params call;
         call_ParseClassDefinition := ParseClassDefinition call;
         call_ParseDottedIds := ParseDottedIds call;
         call_ParseDottedIds_loop := ParseDottedIds_loop call;
         call_ParseAssignmentOrCall := ParseAssignmentOrCall call;
         call_ParseExpression := ParseExpression call;
         call_ParseExpression_loop := ParseExpression_loop call;
         call_ParseAdder := ParseAdder call;
         call_ParseAdder_loop := ParseAdder_loop call;
         call_ParseMult := ParseMult call;
         call_ParseDottedIdsInMultExpr := ParseDottedIdsInMultExpr call;
         call_ParseTestList := ParseTestList call;
         call_ParseTestList_loop := ParseTestList_loop call;
         call_ParseCondition := ParseCondition call;
         call_ParseTest := ParseTest call;
         call_ParseTest_loop := ParseTest_loop call;
         call_ParseAndTest := ParseAndTest call;
         call_ParseAndTest_loop := ParseAndTest_loop call;
         call_ParseNotTest := ParseNotTest call;
         call_ParseComparison := ParseComparison call;
         call_ParseStatement := ParseStatement call;
         call_ParseSimpleStatement := ParseSimpleStatement call |}
  end.

(** [parse::ParseProgram(lexer)]: [Parser{lexer}.ParseProgram()]. *)
Definition ParseProgram (fuel : nat) (lexer : lexer.Lexer) : Result Statement :=
  call_ParseProgram_loop (calls fuel) [] (Parser_new lexer).

(** Lexing and parsing a text. An error of the lexer comes first. *)
Definition parse_text (fuel : nat) (text : string)
  : parse.Res (Result Statement) :=
  parse.bind (lexer.Lexer_new fuel text) (fun l => parse.Done (ParseProgram fuel l)).

End parser.

(** ** What the parser keeps true *)

Module grammar.

Import parser.

Definition tokens (p : Parser) : list Token :=
  parse.tokens_ (lexer.parser_ (lexer_ p)).

Definition pos (p : Parser) : nat := lexer.current_token_index_ (lexer_ p).

(** The depth of indentation of the tokens before the cursor. *)
Definition dep (p : Parser) : Z := lexer.depth (take (pos p) (tokens p)).

(** What a token adds to the depth of indentation. *)
Definition delta (t : Token) : Z :=
  match t with
  | token_type.Indent => 1
  | token_type.Dedent => -1
  | _ => 0
  end.

(** [P] holds of every element. *)
Definition every {A : Type} (P : A -> Prop) (l : list A) : Prop :=
  fold_right (fun x rest => P x /\ rest) True l.

(** A statement as the parser builds it. The path of a [VariableValue] and
    the path of the object of a [FieldAssignment] are not empty; the object
    of a [MethodCall] is a [VariableValue]; the bodies of an [IfElse] are
    [Compound]s; a [ClassDefinition] holds a class; a [MethodBody] is the
    body of a method and nothing else. A class has at least one method, and
    so has its parent; the body of a method is a [MethodBody] around the
    [Compound] of its suite. *)
Fixpoint built (s : Statement) {struct s} : Prop :=
  match s with
  | ast.NumericConst _ | ast.StringConst _ | ast.BoolConst _ | ast.None => True
  | ast.VariableValue dotted_ids => dotted_ids <> []
  | ast.Assignment _ r_value => built r_value
  | ast.FieldAssignment object _ r_value => object <> [] /\ built r_value
  | ast.Print args => every built args
  | ast.MethodCall object _ args =>
      (exists dotted_ids, object = ast.VariableValue dotted_ids /\ dotted_ids <> [])
      /\ every built args
  | ast.NewInstance _ args => every built args
  | ast.Stringify argument | ast.Not argument | ast.Return argument => built argument
  | ast.Add lhs rhs | ast.Sub lhs rhs | ast.Mult lhs rhs | ast.Div lhs rhs
  | ast.Or lhs rhs | ast.And lhs rhs | ast.Comparison _ lhs rhs => built lhs /\ built rhs
  | ast.Compound statements => every built statements
  | ast.MethodBody _ => False
  | ast.ClassDefinition (Some (ast.ClassObject cls)) => class_built cls
  | ast.ClassDefinition _ => False
  | ast.IfElse condition if_body else_body =>
      built condition
      /\ (exists statements, if_body = ast.Compound statements) /\ built if_body
      /\ match else_body with
         | Some suite => (exists statements, suite = ast.Compound statements) /\ built suite
         | Datatypes.None => True
         end
  end
with class_built (c : runtime.Class) {struct c} : Prop :=
  match c with
  | ast.mk_Class _ methods parent =>
      methods <> [] /\ every method_built methods
      /\ match parent with
         | Some base => class_built base
         | Datatypes.None => True
         end
  end
with method_built (m : runtime.Method) {struct m} : Prop :=
  match m with
  | ast.mk_Method _ _ (ast.MethodBody (ast.Compound statements)) => every built statements
  | ast.mk_Method _ _ _ => False
  end.

(** [P] holds of the address of the member of every [NewInstance] node of
    the statement, at every depth: the nodes in the bodies of the methods
    of a class the statement defines, and of the ancestors of that class,
    are nodes of the statement. *)
Fixpoint members (P : positive -> Prop) (s : Statement) {struct s} : Prop :=
  match s with
  | ast.NumericConst _ | ast.StringConst _ | ast.BoolConst _ | ast.None
  | ast.VariableValue _ => True
  | ast.Assignment _ r_value | ast.FieldAssignment _ _ r_value => members P r_value
  | ast.Print args => every (members P) args
  | ast.MethodCall object _ args => members P object /\ every (members P) args
  | ast.NewInstance class_instance args => P class_instance /\ every (members P) args
  | ast.Stringify argument | ast.Not argument | ast.Return argument
  | ast.MethodBody argument => members P argument
  | ast.Add lhs rhs | ast.Sub lhs rhs | ast.Mult lhs rhs | ast.Div lhs rhs
  | ast.Or lhs rhs | ast.And lhs rhs | ast.Comparison _ lhs rhs =>
      members P lhs /\ members P rhs
  | ast.Compound statements => every (members P) statements
  | ast.ClassDefinition (Some (ast.ClassObject cls)) => class_members P cls
  | ast.ClassDefinition _ => True
  | ast.IfElse condition if_body else_body =>
      members P condition /\ members P if_body
      /\ match else_body with
         | Some suite => members P suite
         | Datatypes.None => True
         end
  end
with class_members (P : positive -> Prop) (c : runtime.Class) {struct c} : Prop :=
  match c with
  | ast.mk_Class _ methods parent =>
      every (method_members P) methods
      /\ match parent with
         | Some base => class_members P base
         | Datatypes.None => True
         end
  end
with method_members (P : positive -> Prop) (m : runtime.Method) {struct m} : Prop :=
  match m with
  | ast.mk_Method _ _ body => members P body
  end.

(** What holds of every address the parser has given out holds of the
    members of the [NewInstance] nodes of [s]: they were all built before. *)
Definition known (p : Parser) (s : Statement) : Prop :=
  forall P : positive -> Prop,
    (forall address, (address < free p)%positive -> P address) -> members P s.

Definition all_known (p : Parser) (l : list Statement) : Prop :=
  forall P : positive -> Prop,
    (forall address, (address < free p)%positive -> P address) -> every (members P) l.

Definition methods_known (p : Parser) (l : list runtime.Method) : Prop :=
  forall P : positive -> Prop,
    (forall address, (address < free p)%positive -> P address) ->
    every (method_members P) l.

Definition class_known (p : Parser) (cls : runtime.Class) : Prop :=
  forall P : positive -> Prop,
    (forall address, (address < free p)%positive -> P address) -> class_members P cls.

(** [declared_classes_] binds names to classes of that name; the member of
    every [NewInstance] node built so far is an instance without fields of a
    declared class, at an address already given out; every address given
    out is the address of such a member; the nodes in the methods of the
    declared classes were built before. *)
Definition declared_ok (p : Parser) : Prop :=
  (forall name holder,
      declared_classes_ p !! name = Some holder ->
      exists cls, holder = Some (ast.ClassObject cls)
                  /\ runtime.name_ cls = name /\ class_built cls)
  /\ (forall address this,
        runtime.instances (nodes p) !! address = Some this ->
        (address < free p)%positive
        /\ runtime.fields_ this = ∅
        /\ declared_classes_ p !! runtime.name_ (runtime.class_ this)
           = Some (Some (ast.ClassObject (runtime.class_ this))))
  /\ (forall address,
        (address < free p)%positive -> is_Some (runtime.instances (nodes p) !! address))
  /\ (forall name cls,
        declared_classes_ p !! name = Some (Some (ast.ClassObject cls)) ->
        class_known p cls).

(** The errors the parser throws: the two of [Lexer::Expect], at the
    alternatives parse.cpp asks for, and the five [ParseError]s. *)
Definition expected (e : Error) : Prop :=
  match e with
  | LexerError_data_type T =>
      In T [T_Id; T_Char; T_If; T_Def; T_Newline; T_Indent; T_Dedent]
  | LexerError_value => True
  | ParseError what =>
      (exists name class_name,
          what = "Base class " +:+ name +:+ " not found for class " +:+ class_name)
      \/ (exists class_name, what = "Class " +:+ class_name +:+ " already exists")
      \/ (exists last_name,
            what = "Mython doesn't support functions, only methods: " +:+ last_name)
      \/ what = "Function str takes exactly one argument"
      \/ (exists method_name, what = "Unknown call to " +:+ method_name +:+ "()")
  end.

Section Tokens.

(** The tokens of the lexer: they are never changed. *)
Variable ts : list Token.

Definition Inv (p : Parser) : Prop :=
  tokens p = ts /\ (pos p < length ts)%nat /\ declared_ok p.

(** What a call with [n] nested calls to go gives, when it needs fewer than
    [b] of them: a result of which [Q] holds, or an expected error. *)
Definition spec {A : Type} (n b : nat) (r : Result A) (Q : A -> Parser -> Prop) : Prop :=
  match r with
  | Ok a p => Q a p
  | Raise e => expected e
  | Undefined => False
  | NoFuel => (n < b)%nat
  end.

(** The nested calls a function of rank [r] needs at most, by the tokens
    that are left. *)
Definition budget (p : Parser) (r : nat) : nat := 12 * (length ts - pos p) + r.

(** A parsing function of rank [r]: the cursor does not move back, the
    tokens it has moved over leave the depth of indentation as it was, and
    no address is taken back. *)
Definition fspec {A : Type} (n r : nat) (F : M A) (pre : Parser -> Prop)
           (Q : Parser -> A -> Parser -> Prop) : Prop :=
  forall p, Inv p -> pre p ->
    spec n (budget p r) (F p)
         (fun a p' => Inv p' /\ (pos p <= pos p')%nat /\ dep p' = dep p
                      /\ (free p <= free p')%positive /\ Q p a p').

Definition any (p : Parser) : Prop := True.
Definition nothing {A : Type} (p : Parser) (a : A) (p' : Parser) : Prop := True.

(** The cursor is on an identifier. *)
Definition on_Id (p : Parser) : Prop := exists value, ts !! pos p = Some (token_type.Id value).

Record Good (n : nat) (c : Calls) : Prop := mk_Good {
  good_ParseProgram_loop : forall result,
    every built result ->
    fspec n 6 (call_ParseProgram_loop c result) (fun p => all_known p result)
          (fun _ a p' => (exists statements,
                             a = ast.Compound statements /\ every built statements)
                         /\ ts !! pos p' = Some token_type.Eof /\ known p' a);
  good_ParseSuite :
    fspec n 1 (call_ParseSuite c) any
          (fun _ a p' => (exists statements,
                             a = ast.Compound statements /\ every built statements)
                         /\ known p' a);
  good_ParseSuite_loop : forall result,
    every built result ->
    fspec n 6 (call_ParseSuite_loop c result) (fun p => all_known p result)
          (fun _ a p' => every built a /\ all_known p' a);
  good_ParseMethods_loop : forall result,
    every method_built result ->
    fspec n 1 (call_ParseMethods_loop c result) (fun p => methods_known p result)
          (fun p methods p' =>
             every method_built methods
             /\ (result <> [] \/ ts !! pos p = Some token_type.Def -> methods <> [])
             /\ methods_known p' methods);
  good_ParseMethods_params : forall formal_params,
    fspec n 1 (call_ParseMethods_params c formal_params) on_Id nothing;
  good_ParseClassDefinition :
    fspec n 1 (call_ParseClassDefinition c) any (fun _ a p' => built a /\ known p' a);
  good_ParseDottedIds :
    fspec n 2 (call_ParseDottedIds c) any (fun _ ids _ => ids <> []);
  good_ParseDottedIds_loop : forall result,
    fspec n 1 (call_ParseDottedIds_loop c result) on_Id
          (fun _ ids _ => result <> [] -> ids <> []);
  good_ParseAssignmentOrCall :
    fspec n 3 (call_ParseAssignmentOrCall c) any (fun _ a p' => built a /\ known p' a);
  good_ParseExpression :
    fspec n 6 (call_ParseExpression c) any (fun _ a p' => built a /\ known p' a);
  good_ParseExpression_loop : forall result,
    built result ->
    fspec n 1 (call_ParseExpression_loop c result) (fun p => known p result)
          (fun _ a p' => built a /\ known p' a);
  good_ParseAdder :
    fspec n 5 (call_ParseAdder c) any (fun _ a p' => built a /\ known p' a);
  good_ParseAdder_loop : forall result,
    built result ->
    fspec n 1 (call_ParseAdder_loop c result) (fun p => known p result)
          (fun _ a p' => built a /\ known p' a);
  good_ParseMult :
    fspec n 4 (call_ParseMult c) any (fun _ a p' => built a /\ known p' a);
  good_ParseDottedIdsInMultExpr :
    fspec n 3 (call_ParseDottedIdsInMultExpr c) any
          (fun _ a p' => built a /\ known p' a);
  good_ParseTestList :
    fspec n 11 (call_ParseTestList c) any
          (fun _ a p' => every built a /\ all_known p' a);
  good_ParseTestList_loop : forall result,
    every built result ->
    fspec n 1 (call_ParseTestList_loop c result) (fun p => all_known p result)
          (fun _ a p' => every built a /\ all_known p' a);
  good_ParseCondition :
    fspec n 1 (call_ParseCondition c) any
          (fun p a p' => (pos p < pos p')%nat /\ built a /\ known p' a);
  good_ParseTest :
    fspec n 10 (call_ParseTest c) any (fun _ a p' => built a /\ known p' a);
  good_ParseTest_loop : forall result,
    built result ->
    fspec n 1 (call_ParseTest_loop c result) (fun p => known p result)
          (fun _ a p' => built a /\ known p' a);
  good_ParseAndTest :
    fspec n 9 (call_ParseAndTest c) any (fun _ a p' => built a /\ known p' a);
  good_ParseAndTest_loop : forall result,
    built result ->
    fspec n 1 (call_ParseAndTest_loop c result) (fun p => known p result)
          (fun _ a p' => built a /\ known p' a);
  good_ParseNotTest :
    fspec n 8 (call_ParseNotTest c) any (fun _ a p' => built a /\ known p' a);
  good_ParseComparison :
    fspec n 7 (call_ParseComparison c) any (fun _ a p' => built a /\ known p' a);
  good_ParseStatement :
    fspec n 5 (call_ParseStatement c) any
          (fun p a p' => (pos p < pos p')%nat /\ built a /\ known p' a);
  good_ParseSimpleStatement :
    fspec n 4 (call_ParseSimpleStatement c) any (fun _ a p' => built a /\ known p' a)
}.

End Tokens.

End grammar.

(** ** Properties of the lexer *)

Import runtime statement.

(** The tokens of the text of main.cpp: the comment ends the line, the two
    suites are opened and closed. *)
Example main_text_tokens :
  parse.lex 40 samples.main_text =
    parse.Done
      [token_type.Id "a"; token_type.Char "="; token_type.Number 10; token_type.Newline;
       token_type.If; token_type.Id "a"; token_type.Char ">"; token_type.Number 1;
       token_type.Char ":"; token_type.Newline;
       token_type.Indent; token_type.Print; token_type.String "more"; token_type.Newline;
       token_type.Dedent; token_type.Else; token_type.Char ":"; token_type.Newline;
       token_type.Indent; token_type.Print; token_type.String "less"; token_type.Newline;
       token_type.Dedent; token_type.Eof].
Proof. vm_compute. reflexivity. Qed.

(** C5 (as the code behaves): a suite left open at the end of a text without
    a final line feed is never closed; the lexer finishes with one [Indent]
    and no [Dedent]. *)
Theorem open_suite_is_not_dedented :
  parse.lex 10 samples.open_suite =
    parse.Done [token_type.If; token_type.Id "x"; token_type.Char ":"; token_type.Newline;
                token_type.Indent; token_type.Id "y"; token_type.Newline; token_type.Eof]
  /\ (forall ts, parse.lex 10 samples.open_suite = parse.Done ts ->
        parse.count_token token_type.Indent ts = 1%nat
        /\ parse.count_token token_type.Dedent ts = 0%nat)
  /\ parse.lex 10 samples.closed_suite =
    parse.Done [token_type.If; token_type.Id "x"; token_type.Char ":"; token_type.Newline;
                token_type.Indent; token_type.Id "y"; token_type.Newline; token_type.Dedent;
                token_type.Eof].
Proof.
  assert (E : parse.lex 10 samples.open_suite =
    parse.Done [token_type.If; token_type.Id "x"; token_type.Char ":"; token_type.Newline;
                token_type.Indent; token_type.Id "y"; token_type.Newline; token_type.Eof])
    by (vm_compute; reflexivity).
  split; [exact E|]. split.
  - intros ts H. rewrite E in H. injection H as <-. split; reflexivity.
  - vm_compute; reflexivity.
Qed.

(** C6 (as the code behaves): an integer literal above the range of [int]
    ends lexing with [std::out_of_range], thrown by [std::stoi], which is not
    a [LexerError]; the largest [int] still lexes. *)
Theorem long_literal_is_not_a_LexerError :
  parse.lex 10 samples.long_literal = parse.Raise (parse.out_of_range "stoi")
  /\ parse.lex 10 "x = 2147483648" = parse.Raise (parse.out_of_range "stoi")
  /\ parse.lex 10 "x = 2147483647" =
       parse.Done [token_type.Id "x"; token_type.Char "="; token_type.Number 2147483647;
                   token_type.Newline; token_type.Eof].
Proof. repeat split; vm_compute; reflexivity. Qed.

(** ** Properties of the nodes *)

(** Scenario 4 of the specification prints [rex]. *)
Example dog_program_output :
  exists closure context,
    Execute 8 samples.dog_program ∅ samples.dog_world = Returns None (closure, context)
    /\ output context = "rex" +:+ samples.LF.
Proof. eexists _, _. split; [vm_compute; reflexivity|]. vm_compute. reflexivity. Qed.

(** C3 (as the code behaves): on the path [x.y], a first name that is not
    bound, or that is bound to a number, is skipped: the value of [y] in the
    scope itself is returned and nothing is thrown. In general a name that
    is not bound in the closure being searched is dropped from the path. *)
Theorem VariableValue_skips_names :
  Execute 1 (ast.VariableValue ["x"; "y"]) samples.only_y samples.no_world
    = Returns (Some (ast.Number 7)) (samples.only_y, samples.no_world)
  /\ Execute 1 (ast.VariableValue ["x"; "y"]) samples.number_x_and_y samples.no_world
    = Returns (Some (ast.Number 7)) (samples.number_x_and_y, samples.no_world)
  /\ (forall (id : string) (rest : list string) (closure : Closure) (context : World),
        closure !! id = None ->
        VariableValue_Execute (id :: rest) closure context
          = VariableValue_Execute rest closure context).
Proof.
  split; [vm_compute; reflexivity|]. split; [vm_compute; reflexivity|].
  intros id rest closure context Hid.
  unfold VariableValue_Execute. cbn [VariableValue_loop].
  destruct (closure !! id) as [found|] eqn:Hfound; [congruence|reflexivity].
Qed.

(** C7: in [a or b], when [a] gives a true [Bool] the result is [Bool(true)]
    in the very closure and world [a] left, whatever [b] is: [b] is not
    executed. Otherwise [b] is executed next, and the result is [Bool(true)]
    when [b] gives a true [Bool] and [Bool(false)] for any other value. *)
Theorem Or_short_circuit (n : nat) (a b : Statement) (closure : Closure) (context : World)
        (lhs : ObjectHolder) (closure1 : Closure) (context1 : World) :
  Execute n a closure context = Returns lhs (closure1, context1) ->
  (is_true_bool lhs = true ->
     Execute (S n) (ast.Or a b) closure context
       = Returns (Some (ast.Bool true)) (closure1, context1))
  /\ (is_true_bool lhs = false ->
        Execute (S n) (ast.Or a b) closure context
          = bind (Execute n b closure1 context1)
                 (fun rhs frame => Returns (Some (ast.Bool (is_true_bool rhs))) frame)).
Proof.
  intros Ha. cbn [Execute]. unfold Or_Execute. rewrite Ha. cbn [bind].
  split; intros ->; [reflexivity|].
  destruct (Execute n b closure1 context1) as [rhs frame| | |]; cbn [bind]; try reflexivity.
  destruct (is_true_bool rhs); reflexivity.
Qed.

Lemma Or_short_circuit_witness :
  Execute 2 (ast.Or (ast.BoolConst true) (ast.Assignment "seen" (ast.BoolConst true)))
          ∅ samples.no_world
    = Returns (Some (ast.Bool true)) (∅, samples.no_world)
  /\ Execute 3 (ast.Or (ast.BoolConst false) (ast.Assignment "seen" (ast.NumericConst 1)))
             ∅ samples.no_world
    = Returns (Some (ast.Bool false))
              ({[ "seen" := Some (ast.Number 1) ]}, samples.no_world).
Proof.
  split.
  - exact (proj1 (Or_short_circuit 1 (ast.BoolConst true)
                    (ast.Assignment "seen" (ast.BoolConst true)) ∅ samples.no_world
                    (Some (ast.Bool true)) ∅ samples.no_world eq_refl) eq_refl).
  - rewrite (proj2 (Or_short_circuit 2 (ast.BoolConst false)
                      (ast.Assignment "seen" (ast.NumericConst 1)) ∅ samples.no_world
                      (Some (ast.Bool false)) ∅ samples.no_world eq_refl) eq_refl).
    vm_compute. reflexivity.
Defined.

(** C8 (as the code behaves): on an instance of [Moody], whose [__lt__]
    changes what [__eq__] answers, [Equal] and [Less] both give [False] in
    the world [moody_with 0], yet [Greater] gives [False] where
    [!Less && !Equal] is [True], and [LessOrEqual] gives [True] where
    [Less || Equal] is [False]: the [Equal] inside them runs in the world
    [Less] left. *)
Lemma Greater_asks_Equal_after_Less :
  let a := Some (ast.InstancePtr 1) in
  let b := Some (ast.Number 0) in
  Equal (Execute 5) a b (samples.moody_with 0) = Returns false (samples.moody_with 0)
  /\ Less (Execute 5) a b (samples.moody_with 0) = Returns false (samples.moody_with 1)
  /\ Greater (Execute 5) a b (samples.moody_with 0) = Returns false (samples.moody_with 1)
  /\ LessOrEqual (Execute 5) a b (samples.moody_with 0) = Returns true (samples.moody_with 1)
  /\ negb false && negb false = true
  /\ false || false = false.
Proof. repeat split; vm_compute; reflexivity. Qed.

(** C8, amended: the derived comparators, read as the C++ expressions they
    are. [Less] runs first; where [&&] or [||] still needs it, [Equal] runs
    after it, in the context [Less] left. With [Equal] giving [equal0] in
    the context of the call, [Less] giving [less] and leaving [context1],
    and [Equal] giving [equal] in [context1]: NotEqual = ![equal0],
    Greater = ![less] && ![equal], LessOrEqual = [less] || [equal],
    GreaterOrEqual = ![less]. Where [Less] leaves the context as it was,
    [equal] is [equal0] and the four equations are those of the claim. *)
Theorem derived_comparators
        (exec : Executable -> Closure -> World -> Outcome (Closure * World) ObjectHolder)
        (lhs rhs : ObjectHolder) (context : World)
        (equal0 : bool) (context0 : World)
        (less : bool) (context1 : World) (equal : bool) (context2 : World) :
  Equal exec lhs rhs context = Returns equal0 context0 ->
  Less exec lhs rhs context = Returns less context1 ->
  Equal exec lhs rhs context1 = Returns equal context2 ->
  NotEqual exec lhs rhs context = Returns (negb equal0) context0
  /\ Greater exec lhs rhs context
       = Returns (negb less && negb equal) (if less then context1 else context2)
  /\ LessOrEqual exec lhs rhs context
       = Returns (less || equal) (if less then context1 else context2)
  /\ GreaterOrEqual exec lhs rhs context = Returns (negb less) context1.
Proof.
  intros He0 Hl He.
  unfold NotEqual, Greater, LessOrEqual, GreaterOrEqual, NotEqual.
  rewrite He0, Hl. cbn [bind].
  destruct less; cbn [negb andb orb]; rewrite ?He; cbn [bind]; auto.
Qed.

Lemma derived_comparators_witness :
  let one := Some (ast.Number 1) in
  let two := Some (ast.Number 2) in
  NotEqual (Execute 3) one two samples.no_world = Returns true samples.no_world
  /\ Greater (Execute 3) one two samples.no_world = Returns false samples.no_world
  /\ LessOrEqual (Execute 3) one two samples.no_world = Returns true samples.no_world
  /\ GreaterOrEqual (Execute 3) one two samples.no_world = Returns false samples.no_world.
Proof.
  exact (derived_comparators (Execute 3) (Some (ast.Number 1)) (Some (ast.Number 2))
           samples.no_world false samples.no_world true samples.no_world
           false samples.no_world eq_refl eq_refl eq_refl).
Defined.

(** The arguments of a call are executed from left to right: those in front
    first, the rest in the closure and world the first ones left. *)
Lemma ExecuteArgs_app
      (exec : Statement -> Closure -> World -> Outcome Frame ObjectHolder)
      (front rest : list Statement) (closure : Closure) (context : World) :
  ExecuteArgs exec (front ++ rest) closure context
    = bind (ExecuteArgs exec front closure context) (fun values '(closure, context) =>
      bind (ExecuteArgs exec rest closure context) (fun more frame =>
      Returns (values ++ more)%list frame)).
Proof.
  revert closure context.
  induction front as [|arg front IH]; intros closure context; cbn [app ExecuteArgs bind].
  - destruct (ExecuteArgs exec rest closure context) as [more frame| | |]; reflexivity.
  - destruct (exec arg closure context) as [value [c w]| | |]; cbn [bind]; try reflexivity.
    rewrite IH.
    destruct (ExecuteArgs exec front c w) as [values [c' w']| | |]; cbn [bind]; try reflexivity.
    destruct (ExecuteArgs exec rest c' w') as [more frame| | |]; reflexivity.
Qed.

(** [Compound::Execute] runs its statements in order. *)
Lemma Compound_Execute_app
      (exec : Statement -> Closure -> World -> Outcome Frame ObjectHolder)
      (before after : list Statement) (closure : Closure) (context : World) :
  Compound_Execute exec (before ++ after) closure context
    = bind (Compound_Execute exec before closure context)
           (fun _ '(closure, context) => Compound_Execute exec after closure context).
Proof.
  revert closure context.
  induction before as [|statement before IH]; intros closure context; [reflexivity|].
  cbn [app Compound_Execute].
  destruct (exec statement closure context) as [v [c w]| | |]; cbn [bind]; auto.
Qed.

(** [Print::Execute] prints its arguments in order. *)
Lemma Print_loop_app
      (exec : Statement -> Closure -> World -> Outcome Frame ObjectHolder) (depth : nat)
      (before after : list Statement) (i : nat) (os : string)
      (closure : Closure) (context : World) :
  Print_loop exec depth (before ++ after) i os closure context
    = bind (Print_loop exec depth before i os closure context)
           (fun os '(closure, context) =>
              Print_loop exec depth after (i + length before) os closure context).
Proof.
  revert i os closure context.
  induction before as [|arg before IH]; intros i os closure context.
  - cbn [app Print_loop bind length]. rewrite Nat.add_0_r. reflexivity.
  - cbn [app Print_loop length].
    destruct (exec arg closure context) as [oh [c w]| | |]; cbn [bind]; auto.
    destruct (print_holder exec depth oh c w) as [text [c' w']| | |]; cbn [bind]; auto.
    rewrite IH. replace (S i + length before)%nat with (i + S (length before))%nat by lia.
    reflexivity.
Qed.

(** No node but [MethodBody] has a [catch]: when the child a node is
    executing throws an [ObjectHolder], the node throws it on, in the frame
    the child left; a [MethodBody] returns it. *)
Lemma thrown_holder_passes
      (n : nat) (node : Statement) (c : Closure) (w : World)
      (child : Statement) (c1 : Closure) (w1 : World)
      (result : ObjectHolder) (frame : Frame) :
  calls n node c w child c1 w1 ->
  Execute n child c1 w1 = Throws (thrown_holder result) frame ->
  Execute (S n) node c w
    = match node with
      | ast.MethodBody _ => Returns result frame
      | _ => Throws (thrown_holder result) frame
      end.
Proof.
  intros Hcalls Hchild.
  destruct Hcalls;
    try match goal with
        | H : operands ?node = Some _ |- _ =>
            destruct node; try discriminate H; injection H as -> ->
        end;
    cbn [Execute];
    unfold Assignment_Execute, FieldAssignment_Execute, Print_Execute,
      MethodCall_Execute, NewInstance_Execute, Stringify_Execute, BinaryOperation,
      Or_Execute, And_Execute, Not_Execute, MethodBody_Execute, Return_Execute,
      IfElse_Execute;
    repeat first
      [ rewrite Print_loop_app | rewrite ExecuteArgs_app | rewrite Compound_Execute_app
      | match goal with
        | H : is_Some _ |- _ => destruct H as [? H]
        | H : _ = _ |- _ => rewrite H; clear H
        end
      | progress cbn [bind Print_loop ExecuteArgs Compound_Execute negb] ];
    reflexivity.
Qed.

(** C9: a [Return] executed outside any [MethodBody] is caught by no node.
    Whatever nodes lie between [node] and the [Return] (the [Compound] of
    the program, the suite of an [if], an operand, an argument), [Execute]
    of [node] ends with the [ObjectHolder] still thrown, in the frame the
    [Return] left: it does not return, so nothing after the [Return] runs,
    and what it throws is not a [runtime_error]. Only a [MethodBody] around
    [node] turns the thrown holder into a result. *)
Theorem Return_outside_method_body
        (n : nat) (node : Statement) (closure : Closure) (context : World)
        (result : ObjectHolder) (frame : Frame) :
  escapes n node closure context result frame ->
  Execute n node closure context = Throws (thrown_holder result) frame
  /\ (forall value frame', Execute n node closure context <> Returns value frame')
  /\ (forall what frame',
        Execute n node closure context <> Throws (runtime_error what) frame')
  /\ Execute (S n) (ast.MethodBody node) closure context = Returns result frame.
Proof.
  intros Hescapes.
  assert (Hthrown : Execute n node closure context = Throws (thrown_holder result) frame).
  { induction Hescapes as [n statement c w result frame Hargument
                          |n node c w child c1 w1 result frame Hcalls Hnode _ IH].
    - cbn [Execute]. unfold Return_Execute. rewrite Hargument. reflexivity.
    - rewrite (thrown_holder_passes n node c w child c1 w1 result frame Hcalls IH).
      destruct node; try reflexivity. destruct (Hnode node eq_refl). }
  split; [exact Hthrown|].
  split; [intros value frame'; rewrite Hthrown; discriminate|].
  split; [intros what frame'; rewrite Hthrown; discriminate|].
  cbn [Execute]. unfold MethodBody_Execute. rewrite Hthrown. reflexivity.
Qed.

Lemma Return_outside_method_body_witness :
  Execute 5 samples.early_exit ∅ samples.no_world
    = Throws (thrown_holder (Some (ast.Number 1))) (samples.x_is_1, samples.no_world)
  /\ Execute 6 (ast.MethodBody samples.early_exit) ∅ samples.no_world
     = Returns (Some (ast.Number 1)) (samples.x_is_1, samples.no_world).
Proof.
  assert (Hescapes : escapes 5 samples.early_exit ∅ samples.no_world
                             (Some (ast.Number 1)) (samples.x_is_1, samples.no_world)).
  { apply (escapes_child 4 _ _ _ samples.return_in_if samples.x_is_1 samples.no_world).
    - exact (calls_Compound 4 [ast.Assignment "x" (ast.NumericConst 1)]
               samples.return_in_if [ast.Assignment "x" (ast.NumericConst 2)]
               ∅ samples.no_world None samples.x_is_1 samples.no_world eq_refl).
    - discriminate.
    - apply (escapes_child 3 _ _ _ (ast.Compound [ast.Return (ast.VariableValue ["x"])])
                           samples.x_is_1 samples.no_world).
      + exact (calls_IfElse_if 3
                 (ast.Comparison ast.Equal (ast.VariableValue ["x"]) (ast.NumericConst 1))
                 (ast.Compound [ast.Return (ast.VariableValue ["x"])]) None
                 samples.x_is_1 samples.no_world samples.x_is_1 samples.no_world eq_refl).
      + discriminate.
      + apply (escapes_child 2 _ _ _ (ast.Return (ast.VariableValue ["x"]))
                             samples.x_is_1 samples.no_world).
        * exact (calls_Compound 2 [] (ast.Return (ast.VariableValue ["x"])) []
                   samples.x_is_1 samples.no_world None samples.x_is_1 samples.no_world
                   eq_refl).
        * discriminate.
        * apply escapes_Return. reflexivity. }
  destruct (Return_outside_method_body 5 samples.early_exit ∅ samples.no_world
              (Some (ast.Number 1)) (samples.x_is_1, samples.no_world) Hescapes)
    as (Hthrown & _ & _ & Hcaught).
  exact (conj Hthrown Hcaught).
Defined.

(** What [ComparatorImpl] does once it dispatches to the method of a class
    instance. *)
Lemma ComparatorImpl_dispatch
      (exec : Executable -> Closure -> World -> Outcome (Closure * World) ObjectHolder)
      (cmp : comparator) (method : string)
      (self : positive) (rhs : ObjectHolder) (context : World) (this : ClassInstance) :
  instances context !! self = Some this ->
  HasMethod this method 1 = true ->
  ComparatorImpl exec (Some (ast.InstancePtr self)) rhs context cmp method
    = bind (Call exec self method [rhs] context) unchecked_bool.
Proof.
  intros Hthis Hhas. unfold ComparatorImpl. rewrite Hthis, Hhas.
  destruct rhs as [[]|]; reflexivity.
Qed.

(** C10: when [Equal] (or [Less]) dispatches to [__eq__] (or [__lt__]) of the
    instance on the left, the value the method returned is read as a [Bool]
    without a check: the comparison is undefined exactly when that value is
    not a [Bool], and when it is the [Bool] [b], the comparison returns [b]
    in the context the method left. *)
Theorem dunder_result_is_unchecked
        (exec : Executable -> Closure -> World -> Outcome (Closure * World) ObjectHolder)
        (self : positive) (rhs : ObjectHolder) (context : World) (this : ClassInstance)
        (result : ObjectHolder) (context' : World) :
  instances context !! self = Some this ->
  (HasMethod this "__eq__" 1 = true ->
   Call exec self "__eq__" [rhs] context = Returns result context' ->
   (forall b, result = Some (ast.Bool b) ->
      Equal exec (Some (ast.InstancePtr self)) rhs context = Returns b context')
   /\ (Equal exec (Some (ast.InstancePtr self)) rhs context = Undefined
       <-> forall b, result <> Some (ast.Bool b)))
  /\ (HasMethod this "__lt__" 1 = true ->
      Call exec self "__lt__" [rhs] context = Returns result context' ->
      (forall b, result = Some (ast.Bool b) ->
         Less exec (Some (ast.InstancePtr self)) rhs context = Returns b context')
      /\ (Less exec (Some (ast.InstancePtr self)) rhs context = Undefined
          <-> forall b, result <> Some (ast.Bool b))).
Proof.
  intros Hthis.
  assert (Hgen : forall cmp method,
    HasMethod this method 1 = true ->
    Call exec self method [rhs] context = Returns result context' ->
    (forall b, result = Some (ast.Bool b) ->
       ComparatorImpl exec (Some (ast.InstancePtr self)) rhs context cmp method
         = Returns b context')
    /\ (ComparatorImpl exec (Some (ast.InstancePtr self)) rhs context cmp method = Undefined
        <-> forall b, result <> Some (ast.Bool b))).
  { intros cmp method Hhas Hcall.
    rewrite (ComparatorImpl_dispatch exec cmp method self rhs context this Hthis Hhas).
    rewrite Hcall. cbn [bind]. unfold unchecked_bool. split.
    - intros b ->. reflexivity.
    - destruct result as [[v|v|v|v|v]|]; split; intros H; try discriminate; try reflexivity;
        try (intros b Hb; discriminate).
      exfalso. exact (H v eq_refl). }
  split; intros Hhas Hcall.
  - unfold Equal. apply (Hgen eq_comparator "__eq__" Hhas Hcall).
  - unfold Less. apply (Hgen less_comparator "__lt__" Hhas Hcall).
Qed.

Lemma dunder_result_is_unchecked_witness :
  Equal (Execute 4) (Some (ast.InstancePtr 1)) None samples.same_world
    = Returns true samples.same_world
  /\ Less (Execute 4) (Some (ast.InstancePtr 1)) None samples.same_world = Undefined.
Proof.
  pose proof (dunder_result_is_unchecked (Execute 4) 1 None samples.same_world
                {| class_ := samples.Same; fields_ := ∅ |}) as H.
  split.
  - exact (proj1 (proj1 (H (Some (ast.Bool true)) samples.same_world eq_refl)
                        eq_refl eq_refl) true eq_refl).
  - apply (proj2 (proj2 (H (Some (ast.Number 1)) samples.same_world eq_refl)
                        eq_refl eq_refl)).
    intros b Hb. discriminate Hb.
Defined.

(** [VariableValue::Execute] changes neither the closure nor the world. *)
Lemma VariableValue_loop_frame (dotted_ids : list string) (new_closure closure : Closure)
      (context : World) (value : ObjectHolder) (frame : Frame) :
  VariableValue_loop dotted_ids new_closure closure context = Returns value frame ->
  frame = (closure, context).
Proof.
  revert new_closure.
  induction dotted_ids as [|id rest IH]; intros new_closure; cbn [VariableValue_loop].
  - discriminate.
  - destruct (new_closure !! id) as [found|]; [|apply IH].
    destruct rest as [|next rest].
    + intros [= _ <-]. reflexivity.
    + destruct found as [[v|v|v|v|base_ci]|]; try apply IH.
      destruct (instances context !! base_ci) as [this|]; [apply IH|discriminate].
Qed.

(** C4: [FieldAssignment(object_var, field, rhs)]. When [object_var] does
    not resolve to a class instance a [runtime_error] is thrown. When it
    resolves to the instance [self], the slot of [field] is made, [rhs] is
    executed, and its value becomes the field [field] of [self], is bound to
    the name [field] in the closure the statement runs in, and is the result;
    other instances and the output are as [rhs] left them. *)
Theorem FieldAssignment_stores_and_binds
        (n : nat) (object : list string) (field : string) (rhs : Statement)
        (closure : Closure) (context : World) (obj : ObjectHolder) (frame : Frame) :
  VariableValue_Execute object closure context = Returns obj frame ->
  ((forall self, obj <> Some (ast.InstancePtr self)) ->
     Execute (S n) (ast.FieldAssignment object field rhs) closure context
       = Throws (runtime_error "FieldAssignment::Execute. The object is not a custom type")
                (closure, context))
  /\ (forall self this value closure' context' this',
        obj = Some (ast.InstancePtr self) ->
        instances context !! self = Some this ->
        Execute n rhs closure (touch_field self field context)
          = Returns value (closure', context') ->
        instances context' !! self = Some this' ->
        exists context'',
          Execute (S n) (ast.FieldAssignment object field rhs) closure context
            = Returns value (<[field := value]> closure', context'')
          /\ instances context'' !! self
             = Some {| class_ := class_ this';
                       fields_ := <[field := value]> (fields_ this') |}
          /\ (forall other, other <> self ->
                instances context'' !! other = instances context' !! other)
          /\ output context'' = output context').
Proof.
  intros Hobj.
  assert (frame = (closure, context)) as -> by exact (VariableValue_loop_frame _ _ _ _ _ _ Hobj).
  split.
  - intros Hnot. cbn [Execute]. unfold FieldAssignment_Execute. rewrite Hobj. cbn [bind].
    destruct obj as [[v|v|v|v|self]|]; try reflexivity.
    exfalso. exact (Hnot self eq_refl).
  - intros self this value closure' context' this' -> Hthis Hrhs Hthis'.
    exists (store_field self field value context').
    cbn [Execute]. unfold FieldAssignment_Execute. rewrite Hobj. cbn [bind].
    rewrite Hthis, Hrhs. cbn [bind]. split; [reflexivity|].
    unfold store_field; cbn [instances output]. repeat split.
    + rewrite lookup_alter_eq, Hthis'. reflexivity.
    + intros other Hother. apply lookup_alter_ne. congruence.
Qed.

Lemma FieldAssignment_stores_and_binds_witness :
  exists context'',
    Execute 2 (ast.FieldAssignment ["self"] "v" (ast.NumericConst 3))
            samples.self_is_1 samples.box_world
      = Returns (Some (ast.Number 3))
                (<["v" := Some (ast.Number 3)]> samples.self_is_1, context'')
    /\ instances context'' !! 1%positive
       = Some {| class_ := samples.Box;
                 fields_ := <["v" := Some (ast.Number 3)]> {[ "v" := None ]} |}
    /\ (forall other, other <> 1%positive ->
          instances context'' !! other
          = instances (touch_field 1 "v" samples.box_world) !! other)
    /\ output context'' = "".
Proof.
  exact (proj2 (FieldAssignment_stores_and_binds 1 ["self"] "v" (ast.NumericConst 3)
                  samples.self_is_1 samples.box_world
                  (Some (ast.InstancePtr 1)) (samples.self_is_1, samples.box_world) eq_refl)
               1%positive {| class_ := samples.Box; fields_ := ∅ |}
               (Some (ast.Number 3)) samples.self_is_1
               (touch_field 1 "v" samples.box_world)
               {| class_ := samples.Box; fields_ := {[ "v" := None ]} |}
               eq_refl eq_refl eq_refl eq_refl).
Defined.

(** C1 (as the code behaves): both executions of the node [Box(n)] return a
    holder on the instance at address 1, the node's own member: after the
    second execution the object the first one returned has [v = 2]. *)
Lemma NewInstance_twice_same_instance :
  Execute 5 samples.Box_n (samples.n_is 1) samples.box_world
    = Returns (Some (ast.InstancePtr 1)) (samples.n_is 1, samples.box_with 1)
  /\ Execute 5 samples.Box_n (samples.n_is 2) (samples.box_with 1)
    = Returns (Some (ast.InstancePtr 1)) (samples.n_is 2, samples.box_with 2).
Proof. split; vm_compute; reflexivity. Qed.

(** C1, amended: a [NewInstance] node works on the one instance it holds as
    a member. Without a fitting [__init__] the execution returns a holder on
    that instance and changes nothing; with one, the arguments are executed
    (from left to right, [ExecuteArgs_app]), [__init__] is called on the
    instance with their values, and the holder on the instance is returned.
    Every execution of the node that returns, from whatever closure and
    world, returns the holder on this same instance. *)
Theorem NewInstance_shares_member
        (n : nat) (address : positive) (args : list Statement)
        (closure : Closure) (context : World) (this : ClassInstance) :
  instances context !! address = Some this ->
  (HasMethod this INIT_METHOD (length args) = false ->
     Execute (S n) (ast.NewInstance address args) closure context
       = Returns (Some (ast.InstancePtr address)) (closure, context))
  /\ (HasMethod this INIT_METHOD (length args) = true ->
      forall actual_args closure1 context1 result context2,
        ExecuteArgs (Execute n) args closure context
          = Returns actual_args (closure1, context1) ->
        Call (Execute n) address INIT_METHOD actual_args context1
          = Returns result context2 ->
        Execute (S n) (ast.NewInstance address args) closure context
          = Returns (Some (ast.InstancePtr address)) (closure1, context2))
  /\ (forall m closure' context' value frame,
        Execute m (ast.NewInstance address args) closure' context' = Returns value frame ->
        value = Some (ast.InstancePtr address)).
Proof.
  intros Hthis. repeat split.
  - intros Hno. cbn [Execute]. unfold NewInstance_Execute. rewrite Hthis, Hno. reflexivity.
  - intros Hinit actual_args closure1 context1 result context2 Hargs Hcall.
    cbn [Execute]. unfold NewInstance_Execute.
    rewrite Hthis, Hinit, Hargs. cbn [bind]. rewrite Hcall. reflexivity.
  - intros [|m] closure' context' value frame; cbn [Execute]; [discriminate|].
    unfold NewInstance_Execute.
    destruct (instances context' !! address) as [that|]; [|discriminate].
    destruct (HasMethod that INIT_METHOD (length args)).
    + destruct (ExecuteArgs (Execute m) args closure' context') as [vs [c w]| | |];
        cbn [bind]; try discriminate.
      destruct (Call (Execute m) address INIT_METHOD vs w) as [r w'| | |];
        cbn [enter bind]; try discriminate.
      intros [= <- _]. reflexivity.
    + intros [= <- _]. reflexivity.
Qed.

Lemma NewInstance_shares_member_witness :
  Execute 5 samples.Box_n (samples.n_is 1) samples.box_world
    = Returns (Some (ast.InstancePtr 1)) (samples.n_is 1, samples.box_with 1).
Proof.
  exact (proj1 (proj2 (NewInstance_shares_member 4 1 [ast.VariableValue ["n"]]
                         (samples.n_is 1) samples.box_world
                         {| class_ := samples.Box; fields_ := ∅ |} eq_refl))
               eq_refl [Some (ast.Number 1)] (samples.n_is 1) samples.box_world
               None (samples.box_with 1) eq_refl eq_refl).
Defined.

(** C2: [str(p)], for an instance [p] whose [__str__] prints, leaves the
    line [hi] on the output stream, which was empty before: the evaluation
    of [str(x)] has written to the stream. The argument is a variable, so
    the instance outlives the holder that [Stringify::Execute] drops. *)
Lemma Stringify_lets_output_through :
  Execute 6 (ast.Stringify (ast.VariableValue ["p"])) samples.p_is_loud samples.loud_world
    = Returns (Some (ast.String "p")) (samples.p_is_loud, samples.loud_said_hi)
  /\ output samples.loud_world = ""
  /\ output samples.loud_said_hi = "hi" +:+ samples.LF
  /\ output samples.loud_said_hi <> output samples.loud_world.
Proof. repeat split; try (vm_compute; reflexivity). discriminate. Qed.

(** A node that makes its result returns a number, a string or a boolean,
    and nothing keeps a second holder on it. *)
Lemma makes_object_alone
      (n : nat) (x : Statement) (closure : Closure) (context : World)
      (value : ObjectHolder) (frame : Frame) :
  makes_object x = true ->
  Execute n x closure context = Returns value frame ->
  outlives_holder x value = false.
Proof.
  intros Hmakes Hx. destruct n as [|n]; [discriminate Hx|].
  destruct x; try discriminate Hmakes; cbn [Execute] in Hx;
    unfold ValueStatement_Execute, Print_Execute, Stringify_Execute, BinaryOperation,
      Or_Execute, And_Execute, Not_Execute, Sub_op, Mult_op, Div_op, Comparison_op in Hx;
    repeat match type of Hx with
           | context [bind ?r _] => destruct r as [? [? ?]| | |]; cbn [bind] in Hx
           | context [match ?e with _ => _ end] => destruct e
           end;
    try discriminate Hx; injection Hx as <- _; reflexivity.
Qed.

(** [str] of an object that nobody else holds: the argument made a number,
    a string or a boolean and returned its only holder, the holder is
    destroyed, and [Print] is called on what is left. So it is for a
    difference, a comparison, a nested [str] and a literal. *)
Lemma Stringify_of_a_temporary
      (n : nat) (x : Statement) (closure : Closure) (context : World)
      (value : ObjectHolder) (frame : Frame) :
  makes_object x = true ->
  Execute n x closure context = Returns value frame ->
  Execute (S n) (ast.Stringify x) closure context = Undefined.
Proof.
  intros Hmakes Hx.
  pose proof (makes_object_alone n x closure context value frame Hmakes Hx) as Hgone.
  destruct frame as [closure1 context1].
  cbn [Execute]. unfold Stringify_Execute. rewrite Hx. cbn [bind]. rewrite Hgone.
  reflexivity.
Qed.

(** [str(a + b)] for two numbers: the sum is in a holder of its own. *)
Example Stringify_of_a_sum :
  Execute 3 (ast.Stringify (ast.Add (ast.VariableValue ["x"]) (ast.VariableValue ["y"])))
          samples.number_x_and_y samples.no_world
    = Undefined.
Proof. reflexivity. Qed.

(** [str] of an object that is held elsewhere gives the text [Print] gives,
    in the world [Print] left. *)
Lemma Stringify_of_a_kept_object
      (n : nat) (x : Statement) (closure : Closure) (context : World)
      (object : Object) (closure1 : Closure) (context1 : World)
      (text : string) (context2 : World) :
  Execute n x closure context = Returns (Some object) (closure1, context1) ->
  outlives_holder x (Some object) = true ->
  Print (Execute n) n object context1 = Returns text context2 ->
  Execute (S n) (ast.Stringify x) closure context
    = Returns (Some (ast.String text)) (closure1, context2).
Proof.
  intros Hx Hkept Hprint.
  cbn [Execute]. unfold Stringify_Execute. rewrite Hx. cbn [bind]. rewrite Hkept.
  cbn [print_holder]. rewrite Hprint. reflexivity.
Qed.


(** ** More on the lexer *)

(** *** The hand-written equality of tokens *)

Lemma string_eqb_true (a b : string) : String.eqb a b = true <-> a = b.
Proof. apply String.eqb_eq. Qed.

(** X1: two tokens are [operator==] exactly when they are the same
    alternative of [TokenBase] and, for [Number], [Id], [Char] and [String],
    hold the same value; [operator!=] is the negation. *)
Theorem Token_eq_is_equality (lhs rhs : parse.Token) :
  (lexer.Token_eq lhs rhs = true <-> lhs = rhs)
  /\ (lexer.Token_ne lhs rhs = true <-> lhs <> rhs).
Proof.
  assert (E : lexer.Token_eq lhs rhs = true <-> lhs = rhs).
  { split.
    - destruct lhs, rhs; cbn; try discriminate; try reflexivity; intros H.
      + apply Z.eqb_eq in H. congruence.
      + apply String.eqb_eq in H. congruence.
      + apply Ascii.eqb_eq in H. congruence.
      + apply String.eqb_eq in H. congruence.
    - intros <-. destruct lhs; cbn; try reflexivity.
      + apply Z.eqb_refl.
      + apply String.eqb_refl.
      + apply Ascii.eqb_refl.
      + apply String.eqb_refl. }
  split; [exact E|].
  unfold lexer.Token_ne. destruct (lexer.Token_eq lhs rhs); cbn [negb].
  - split; [discriminate|]. intros H. exfalso. apply H, E. reflexivity.
  - split; [|reflexivity]. intros _ H. apply E in H. discriminate H.
Qed.

(** *** What the lexer keeps true of its tokens *)

Lemma depth_snoc (ts : list parse.Token) (t : parse.Token) :
  lexer.depth (ts ++ [t])%list
    = lexer.depth ts + match t with
                       | token_type.Indent => 1
                       | token_type.Dedent => -1
                       | _ => 0
                       end.
Proof.
  unfold lexer.depth, parse.count_token.
  rewrite !filter_app, !length_app.
  destruct t; cbn; repeat case_decide; try congruence; cbn [length]; lia.
Qed.

Lemma back_is_Newline (p : parse.Parser) :
  parse.back_is token_type.Newline p = true
  <-> last (parse.tokens_ p) = Some token_type.Newline.
Proof.
  unfold parse.back_is, parse.back.
  destruct (last (parse.tokens_ p)) as [[]|]; split; congruence.
Qed.

Lemma empty_false (p : parse.Parser) :
  parse.empty p = false <-> parse.tokens_ p <> [].
Proof. unfold parse.empty. destruct (parse.tokens_ p); split; congruence. Qed.

Lemma snoc_cases {A} (l1 l2 ts : list A) (t : A) :
  (ts ++ [t] = l1 ++ l2)%list ->
  (l2 = [] /\ l1 = ts ++ [t])%list \/ (exists l2', l2 = l2' ++ [t] /\ ts = l1 ++ l2')%list.
Proof.
  intros H. destruct l2 as [|x l2 _] using rev_ind.
  - left. rewrite app_nil_r in H. auto.
  - right. rewrite app_assoc in H. apply app_inj_tail in H as [-> ->]. eauto.
Qed.

(** A token that is neither [Indent] nor [Dedent] can be appended when it is
    well-formed and, if it is a [Newline], follows a token that is not one. *)
Lemma Inv_emplace_back (t : parse.Token) (p : parse.Parser) :
  lexer.Inv p ->
  lexer.token_ok t = true ->
  (t = token_type.Newline ->
   parse.tokens_ p <> [] /\ last (parse.tokens_ p) <> Some token_type.Newline) ->
  t <> token_type.Indent -> t <> token_type.Dedent ->
  lexer.Inv (parse.emplace_back t p).
Proof.
  intros (Hok & Hnl & Hhd & Hpre & Hdepth & Hmax) Ht Hnew Hi Hd.
  unfold lexer.Inv, parse.emplace_back; cbn [parse.tokens_ parse.current_dent_].
  assert (Hstep : lexer.depth (parse.tokens_ p ++ [t])%list = lexer.depth (parse.tokens_ p)).
  { rewrite depth_snoc. destruct t; try lia; congruence. }
  repeat split.
  - rewrite forallb_app, Hok. cbn. rewrite Ht. reflexivity.
  - intros l1 l2 H.
    change (l1 ++ token_type.Newline :: token_type.Newline :: l2)%list
      with (l1 ++ [token_type.Newline] ++ token_type.Newline :: l2)%list in H.
    rewrite app_assoc in H.
    destruct l2 as [|x l2 _] using rev_ind.
    + apply app_inj_tail in H as [Hts ->].
      destruct (Hnew eq_refl) as [_ Hlast]. apply Hlast.
      rewrite Hts. apply last_snoc.
    + change (token_type.Newline :: (l2 ++ [x]))%list
        with ((token_type.Newline :: l2) ++ [x])%list in H.
      rewrite app_assoc in H. apply app_inj_tail in H as [Hts _].
      apply (Hnl l1 l2). rewrite Hts, <- app_assoc. reflexivity.
  - destruct (parse.tokens_ p) as [|x ts] eqn:E; cbn.
    + intros [= ->]. destruct (Hnew eq_refl) as [Hne _]. congruence.
    + exact Hhd.
  - intros l1 l2 H. apply snoc_cases in H as [[-> ->]|(l2' & -> & Hts)].
    + rewrite Hstep. apply (Hpre (parse.tokens_ p) []). rewrite app_nil_r. reflexivity.
    + apply (Hpre l1 l2' Hts).
  - rewrite Hstep. exact Hdepth.
  - exact Hmax.
Qed.

Lemma Inv_depth_nonneg (p : parse.Parser) : lexer.Inv p -> 0 <= parse.current_dent_ p.
Proof.
  intros (_ & _ & _ & Hpre & Hdepth & _). rewrite <- Hdepth.
  apply (Hpre (parse.tokens_ p) []). rewrite app_nil_r. reflexivity.
Qed.

Lemma indent_loop_Inv (n : nat) (p : parse.Parser) :
  lexer.Inv p -> parse.current_dent_ p + Z.of_nat n <= 32767 ->
  lexer.Inv (parse.indent_loop n p).
Proof.
  revert p. induction n as [|n IH]; intros p HI Hn; cbn [parse.indent_loop]; [exact HI|].
  apply IH; cbn [parse.current_dent_ parse.emplace_back parse.tokens_]; [|lia].
  pose proof (Inv_depth_nonneg p HI) as Hnn.
  destruct HI as (Hok & Hnl & Hhd & Hpre & Hdepth & Hmax).
  unfold lexer.Inv; cbn [parse.tokens_ parse.current_dent_ parse.emplace_back].
  repeat split.
  - rewrite forallb_app, Hok. reflexivity.
  - intros l1 l2 H.
    destruct l2 as [|x l2 _] using rev_ind.
    + change (l1 ++ [token_type.Newline; token_type.Newline])%list
        with (l1 ++ [token_type.Newline] ++ [token_type.Newline])%list in H.
      rewrite app_assoc in H. apply app_inj_tail in H as [_ H]. discriminate H.
    + change (l1 ++ token_type.Newline :: token_type.Newline :: l2 ++ [x])%list
        with (l1 ++ (token_type.Newline :: token_type.Newline :: l2) ++ [x])%list in H.
      rewrite app_assoc in H. apply app_inj_tail in H as [Hts _].
      exact (Hnl l1 l2 Hts).
  - destruct (parse.tokens_ p) as [|x ts] eqn:E; cbn; [discriminate|exact Hhd].
  - intros l1 l2 H. apply snoc_cases in H as [[-> ->]|(l2' & -> & Hts)].
    + rewrite depth_snoc. lia.
    + apply (Hpre l1 l2' Hts).
  - rewrite depth_snoc. lia.
  - lia.
Qed.

Lemma dedent_loop_keeps (n : nat) (p : parse.Parser) :
  lexer.Inv p -> Z.of_nat n <= parse.current_dent_ p ->
  lexer.keeps (parse.dedent_loop n p).
Proof.
  revert p. induction n as [|n IH]; intros p HI Hn; cbn [parse.dedent_loop]; [exact HI|].
  cbn [parse.current_dent_ parse.emplace_back parse.tokens_ parse.input_tokens_].
  destruct (parse.current_dent_ p =? 0) eqn:E; [apply Z.eqb_eq in E; lia|].
  apply IH; cbn [parse.current_dent_]; [|lia].
  destruct HI as (Hok & Hnl & Hhd & Hpre & Hdepth & Hmax).
  unfold lexer.Inv; cbn [parse.tokens_ parse.current_dent_].
  repeat split.
  - rewrite forallb_app, Hok. reflexivity.
  - intros l1 l2 H.
    destruct l2 as [|x l2 _] using rev_ind.
    + change (l1 ++ [token_type.Newline; token_type.Newline])%list
        with (l1 ++ [token_type.Newline] ++ [token_type.Newline])%list in H.
      rewrite app_assoc in H. apply app_inj_tail in H as [_ H]. discriminate H.
    + change (l1 ++ token_type.Newline :: token_type.Newline :: l2 ++ [x])%list
        with (l1 ++ (token_type.Newline :: token_type.Newline :: l2) ++ [x])%list in H.
      rewrite app_assoc in H. apply app_inj_tail in H as [Hts _].
      exact (Hnl l1 l2 Hts).
  - destruct (parse.tokens_ p) as [|x ts] eqn:E'; cbn; [discriminate|exact Hhd].
  - intros l1 l2 H. apply snoc_cases in H as [[-> ->]|(l2' & -> & Hts)].
    + rewrite depth_snoc. lia.
    + apply (Hpre l1 l2' Hts).
  - rewrite depth_snoc. lia.
  - lia.
Qed.

Lemma Inv_with_input (p : parse.Parser) (s : parse.istream) :
  lexer.Inv p -> lexer.Inv (parse.with_input p s).
Proof. exact (fun H => H). Qed.

Lemma peek_Some (s s' : parse.istream) (c : ascii) :
  parse.peek s = (Some c, s') ->
  s' = s /\ parse.good s = true /\ exists rest, parse.buf s = String.String c rest.
Proof.
  unfold parse.peek. destruct (parse.good s); [|discriminate].
  destruct (parse.buf s) as [|d rest]; [discriminate|].
  intros [= -> <-]. eauto.
Qed.

Lemma peek_get (s s1 s2 : parse.istream) (o : option ascii) (f : ascii) :
  parse.peek s = (o, s1) -> parse.get s1 = (Some f, s2) -> o = Some f.
Proof.
  unfold parse.peek. destruct (parse.good s) eqn:G.
  - destruct (parse.buf s) as [|d rest] eqn:B.
    + intros [= <- <-]. unfold parse.get, parse.good. cbn. discriminate.
    + intros [= <- <-]. unfold parse.get. rewrite G, B. congruence.
  - intros [= <- <-]. unfold parse.get, parse.good, parse.set_fail. cbn.
    rewrite andb_false_r. discriminate.
Qed.

Lemma IsEof_tokens (p p' : parse.Parser) (eof : bool) :
  parse.IsEof p = (eof, p') ->
  exists s, p' = parse.with_input p s.
Proof.
  unfold parse.IsEof. destruct (parse.peek (parse.input_tokens_ p)) as [c s].
  intros [= _ <-]. eauto.
Qed.

Lemma token_types_ok (word : string) (kw : parse.Token) :
  parse.token_types word = Some kw ->
  lexer.token_ok kw = true /\ kw <> token_type.Newline
  /\ kw <> token_type.Indent /\ kw <> token_type.Dedent.
Proof.
  unfold parse.token_types.
  repeat match goal with
         | |- context [if ?b then _ else _] => destruct b
         end; intros [= <-]; repeat split; discriminate.
Qed.

Lemma append_cons (a : ascii) (s t : string) :
  (String.String a s +:+ t)%string = String.String a (s +:+ t).
Proof. reflexivity. Qed.

Lemma append_nil_r (s : string) : (s +:+ "")%string = s.
Proof. induction s as [|a s IH]; [reflexivity|]. rewrite append_cons, IH. reflexivity. Qed.

Lemma append_assoc (s t u : string) : ((s +:+ t) +:+ u)%string = (s +:+ (t +:+ u))%string.
Proof.
  induction s as [|a s IH]; [reflexivity|]. rewrite !append_cons, IH. reflexivity.
Qed.

Lemma push_char_append (acc : string) (c : ascii) (rest : string) :
  (parse.push_char acc c +:+ rest)%string = (acc +:+ String.String c rest)%string.
Proof. unfold parse.push_char. rewrite append_assoc. reflexivity. Qed.

Lemma ReadWord_loop_prefix (turns : nat) (s s' : parse.istream) (acc w : string) :
  parse.ReadWord_loop turns s acc = (w, s') -> exists rest, w = (acc +:+ rest)%string.
Proof.
  revert s acc. induction turns as [|n IH]; intros s acc; cbn [parse.ReadWord_loop].
  - intros [= <- _]. exists ""%string. rewrite append_nil_r. reflexivity.
  - destruct (parse.get s) as [[symbol|] s1].
    + destruct (parse.isalnum symbol || Ascii.eqb symbol "_").
      * intros H. apply IH in H as [rest ->]. rewrite push_char_append. eauto.
      * intros [= <- _]. exists ""%string. rewrite append_nil_r. reflexivity.
    + intros [= <- _]. exists ""%string. rewrite append_nil_r. reflexivity.
Qed.

Lemma ReadWord_loop_first (n : nat) (s s1 : parse.istream) (acc : string) (c : ascii) :
  parse.get s = (Some c, s1) ->
  parse.isalnum c || Ascii.eqb c "_" = true ->
  parse.ReadWord_loop (S n) s acc = parse.ReadWord_loop n s1 (parse.push_char acc c).
Proof. intros Hget Hal. cbn [parse.ReadWord_loop]. rewrite Hget, Hal. reflexivity. Qed.

Lemma HandleKeywordOrId_keeps (p : parse.Parser) :
  lexer.Inv p -> lexer.keeps (parse.HandleKeywordOrId p).
Proof.
  intros HI. unfold parse.HandleKeywordOrId.
  destruct (parse.IsEof p) as [eof p1] eqn:E1.
  apply IsEof_tokens in E1 as [s1 ->].
  destruct eof; [exact HI|].
  cbn [parse.input_tokens_ parse.with_input].
  destruct (parse.peek s1) as [[symbol|] s2] eqn:E2; [|exact HI].
  destruct (negb (parse.isalpha symbol) && negb (Ascii.eqb symbol "_")) eqn:E3; [exact HI|].
  cbn [parse.input_tokens_ parse.with_input].
  apply peek_Some in E2 as (-> & Hgood & rest & Hbuf).
  destruct (parse.ReadWord s1) as [parsed_word s3] eqn:E4.
  assert (Hstart : exists more, parsed_word = String.String symbol more).
  { assert (Hget : parse.get s1
                    = (Some symbol, {| parse.buf := rest; parse.eofbit := false;
                                       parse.failbit := false |})).
    { unfold parse.get. rewrite Hgood, Hbuf. reflexivity. }
    assert (Halnum : parse.isalnum symbol || Ascii.eqb symbol "_" = true).
    { unfold parse.isalnum. destruct (parse.isalpha symbol); [reflexivity|].
      destruct (Ascii.eqb symbol "_"); [apply orb_true_r|discriminate]. }
    unfold parse.ReadWord in E4.
    rewrite (ReadWord_loop_first _ _ _ _ _ Hget Halnum) in E4.
    apply ReadWord_loop_prefix in E4 as [more ->].
    exists more. reflexivity. }
  destruct Hstart as [more ->].
  destruct (parse.token_types (String.String symbol more)) as [kw|] eqn:E5; cbn [lexer.keeps].
  - destruct (token_types_ok _ _ E5) as (Hok & Hn & Hi & Hd).
    apply Inv_emplace_back; auto; intros ->; congruence.
  - apply Inv_emplace_back; try discriminate; [exact HI|].
    cbn [lexer.token_ok]. rewrite E5.
    destruct (parse.isalpha symbol); [reflexivity|].
    destruct (Ascii.eqb symbol "_"); [reflexivity|discriminate].
Qed.

Lemma HandleOperatorEqOrSymbol_keeps (p : parse.Parser) :
  lexer.Inv p -> lexer.keeps (parse.HandleOperatorEqOrSymbol p).
Proof.
  intros HI. unfold parse.HandleOperatorEqOrSymbol.
  destruct (parse.IsEof p) as [eof p1] eqn:E1.
  apply IsEof_tokens in E1 as [s1 ->].
  destruct eof; [exact HI|].
  cbn [parse.input_tokens_ parse.with_input].
  destruct (parse.peek s1) as [c s2] eqn:E2.
  destruct (parse.is_char "#" c) eqn:E3; [exact HI|].
  destruct (parse.get s2) as [[first_symbol|] s3] eqn:E4; [|exact HI].
  pose proof (peek_get _ _ _ _ _ E2 E4) as ->. cbn [parse.is_char] in E3.
  destruct (negb (parse.ispunct first_symbol) || Ascii.eqb first_symbol parse.dquote
            || Ascii.eqb first_symbol "'") eqn:E5; [exact HI|].
  assert (Hchar : lexer.token_ok (token_type.Char first_symbol) = true).
  { cbn [lexer.token_ok].
    destruct (parse.ispunct first_symbol); [|discriminate].
    destruct (Ascii.eqb first_symbol parse.dquote); [discriminate|].
    destruct (Ascii.eqb first_symbol "'"); [discriminate|].
    rewrite Ascii.eqb_sym, E3. reflexivity. }
  assert (Hone : forall s, lexer.Inv (parse.emplace_back (token_type.Char first_symbol)
                                        (parse.with_input (parse.with_input p s2) s))).
  { intros s. apply Inv_emplace_back; try discriminate; auto. }
  assert (Htwo : forall t, lexer.token_ok t = true -> t <> token_type.Newline ->
                   t <> token_type.Indent -> t <> token_type.Dedent ->
            lexer.keeps
              (let '(nxt, s) := parse.peek s3 in
               if parse.is_char "=" nxt
               then parse.Done (parse.emplace_back t
                      (parse.with_input (parse.with_input p s2) (snd (parse.get s))))
               else parse.Done (parse.emplace_back (token_type.Char first_symbol)
                      (parse.with_input (parse.with_input p s2) s)))).
  { intros t Hok Hn Hi Hd. destruct (parse.peek s3) as [nxt s4].
    destruct (parse.is_char "=" nxt); cbn [lexer.keeps]; [|apply Hone].
    apply Inv_emplace_back; auto; intros ->; congruence. }
  destruct (Ascii.eqb first_symbol "!"); [apply Htwo; discriminate || reflexivity|].
  destruct (Ascii.eqb first_symbol "="); [apply Htwo; discriminate || reflexivity|].
  destruct (Ascii.eqb first_symbol ">"); [apply Htwo; discriminate || reflexivity|].
  destruct (Ascii.eqb first_symbol "<"); [apply Htwo; discriminate || reflexivity|].
  apply Hone.
Qed.

Lemma digits_value_append (a b : string) (k : Z) :
  parse.digits_value (a +:+ b) k = parse.digits_value b (parse.digits_value a k).
Proof.
  revert k. induction a as [|c a IH]; intros k; [reflexivity|].
  rewrite append_cons. cbn [parse.digits_value]. apply IH.
Qed.

Lemma isdigit_value (c : ascii) :
  parse.isdigit c = true -> 0 <= parse.digit_value c <= 9.
Proof.
  unfold parse.isdigit, parse.between, parse.digit_value.
  intros H. apply andb_true_iff in H as [H1 H2].
  apply Nat.leb_le in H1, H2. lia.
Qed.

Lemma HandleIntValue_loop_nonneg (turns : nat) (s s' : parse.istream) (acc w : string) :
  parse.HandleIntValue_loop turns s acc = (w, s') ->
  0 <= parse.digits_value acc 0 -> 0 <= parse.digits_value w 0.
Proof.
  revert s acc. induction turns as [|n IH]; intros s acc; cbn [parse.HandleIntValue_loop].
  - intros [= <- _]. auto.
  - destruct (parse.get s) as [[symbol|] s1].
    + destruct (parse.isdigit symbol) eqn:D.
      * intros H Hacc. apply (IH _ _ H). unfold parse.push_char.
        rewrite digits_value_append. cbn [parse.digits_value].
        pose proof (isdigit_value _ D). lia.
      * intros [= <- _]. auto.
    + intros [= <- _]. auto.
Qed.

Lemma HandleIntValue_keeps (p : parse.Parser) :
  lexer.Inv p -> lexer.keeps (parse.HandleIntValue p).
Proof.
  intros HI. unfold parse.HandleIntValue.
  destruct (parse.IsEof p) as [eof p1] eqn:E1.
  apply IsEof_tokens in E1 as [s1 ->].
  destruct eof; [exact HI|].
  cbn [parse.input_tokens_ parse.with_input].
  destruct (parse.get s1) as [[symbol|] s2] eqn:E2; [|exact HI].
  destruct (negb (parse.isdigit symbol)) eqn:E3; [exact HI|].
  destruct (parse.HandleIntValue_loop (S (String.length (parse.buf s2))) s2
              (String.String symbol EmptyString)) as [parsed_num s3] eqn:E4.
  apply HandleIntValue_loop_nonneg in E4.
  2:{ cbn [parse.digits_value]. apply negb_false_iff in E3.
      pose proof (isdigit_value _ E3). lia. }
  unfold parse.stoi.
  destruct (parse.digits_value parsed_num 0 <=? 2147483647) eqn:E5; cbn [parse.bind lexer.keeps].
  - apply Inv_emplace_back; try discriminate; [exact HI|].
    cbn [lexer.token_ok]. rewrite E5. apply Z.leb_le in E4. rewrite E4. reflexivity.
  - discriminate.
Qed.

Lemma HandleString_loop_raises (turns : nat) (begin_symbol : ascii) (s : parse.istream)
      (str : string) (e : parse.Exception) :
  parse.HandleString_loop turns begin_symbol s str = parse.Raise e ->
  e <> parse.assertion_failed.
Proof.
  revert s str. induction turns as [|n IH]; intros s str; cbn [parse.HandleString_loop].
  - discriminate.
  - destruct (parse.get s) as [[symbol|] s1]; [|discriminate].
    destruct (Ascii.eqb symbol begin_symbol); [discriminate|].
    destruct (Ascii.eqb symbol "\").
    + destruct (parse.get s1) as [c s2].
      destruct (Ascii.eqb (parse.to_char c) "000"); [intros [= <-]; discriminate|].
      unfold parse.HandleSpecialSymbol.
      repeat match goal with
             | |- context [if ?b then _ else _] => destruct b
             end; cbn [parse.bind]; try apply IH.
      intros [= <-]. discriminate.
    + destruct (Ascii.eqb symbol "010" || Ascii.eqb symbol "013");
        [intros [= <-]; discriminate|apply IH].
Qed.

Lemma HandleString_keeps (p : parse.Parser) :
  lexer.Inv p -> lexer.keeps (parse.HandleString p).
Proof.
  intros HI. unfold parse.HandleString.
  destruct (parse.IsEof p) as [eof p1] eqn:E1.
  apply IsEof_tokens in E1 as [s1 ->].
  destruct eof; [exact HI|].
  cbn [parse.input_tokens_ parse.with_input].
  destruct (parse.get s1) as [[begin_symbol|] s2] eqn:E2; [|exact HI].
  destruct (negb (Ascii.eqb begin_symbol "'") && negb (Ascii.eqb begin_symbol parse.dquote));
    [exact HI|].
  destruct (parse.HandleString_loop (S (String.length (parse.buf s2))) begin_symbol s2
              EmptyString) as [[str s3]|e|] eqn:E3; cbn [parse.bind lexer.keeps].
  - apply Inv_emplace_back; try discriminate; [exact HI|reflexivity].
  - exact (HandleString_loop_raises _ _ _ _ _ E3).
  - exact I.
Qed.

Lemma Inv_Newline (p : parse.Parser) :
  lexer.Inv p -> parse.empty p = false -> parse.back_is token_type.Newline p = false ->
  lexer.Inv (parse.emplace_back token_type.Newline p).
Proof.
  intros HI He Hb. apply Inv_emplace_back; try discriminate; [exact HI|reflexivity|].
  intros _. split; [apply empty_false, He|].
  intros Hl. apply back_is_Newline in Hl. congruence.
Qed.

Lemma HandleComments_keeps (p : parse.Parser) :
  lexer.Inv p -> lexer.keeps (parse.HandleComments p).
Proof.
  intros HI. unfold parse.HandleComments.
  destruct (parse.peek (parse.input_tokens_ p)) as [c s1].
  destruct (negb (parse.is_char "#" c)); [exact HI|].
  cbn [parse.input_tokens_ parse.with_input].
  match goal with |- context [if ?b then _ else _] => destruct b eqn:E end; [|exact HI].
  apply andb_true_iff in E as [E Hd]. apply andb_true_iff in E as [E Hn].
  apply andb_true_iff in E as [_ He].
  apply Inv_Newline; [exact HI| |]; apply negb_true_iff; assumption.
Qed.

Lemma HandleNewLine_keeps (p : parse.Parser) :
  lexer.Inv p -> lexer.keeps (parse.HandleNewLine p).
Proof.
  intros HI. unfold parse.HandleNewLine.
  destruct (parse.IsEof p) as [eof p1] eqn:E1.
  apply IsEof_tokens in E1 as [s1 ->].
  destruct eof; [exact HI|].
  cbn [parse.input_tokens_ parse.with_input].
  destruct (parse.peek s1) as [c s2].
  destruct (negb (parse.is_char "010" c)); [exact HI|].
  cbn [parse.input_tokens_ parse.with_input].
  match goal with |- context [if ?b then _ else _] => destruct b eqn:E end; [|exact HI].
  apply andb_true_iff in E as [He Hn].
  apply Inv_Newline; [exact HI| |]; apply negb_true_iff; assumption.
Qed.

Lemma count_spaces_range (turns : nat) (s s' : parse.istream) (k k' : Z) :
  parse.count_spaces turns s k = (k', s') -> 0 <= k < 65536 -> 0 <= k' < 65536.
Proof.
  revert s k. induction turns as [|n IH]; intros s k; cbn [parse.count_spaces].
  - intros [= <- _]. auto.
  - destruct (parse.peek s) as [c s1]. destruct (parse.is_char " " c).
    + intros H _. apply (IH _ _ H). unfold wrap_uint16. apply Z.mod_pos_bound. lia.
    + intros [= <- _]. auto.
Qed.

Lemma HandleDent_keeps (p : parse.Parser) :
  lexer.Inv p -> lexer.keeps (parse.HandleDent p).
Proof.
  intros HI. unfold parse.HandleDent.
  destruct (negb (parse.empty p) && negb (parse.back_is token_type.Newline p)); [exact HI|].
  destruct (parse.peek (parse.input_tokens_ p)) as [c s1].
  destruct (parse.is_char "010" c); [exact HI|].
  destruct (parse.count_spaces (S (String.length (parse.buf s1))) s1 0)
    as [count_space s2] eqn:E.
  apply count_spaces_range in E; [|lia].
  destruct (negb (count_space mod parse.NUM_SPACE_DENT_ =? 0)); [discriminate|].
  cbn [parse.current_dent_ parse.with_input].
  pose proof (Inv_depth_nonneg p HI) as Hnn.
  assert (Hmax : parse.current_dent_ p <= 32767) by apply HI.
  unfold parse.NUM_SPACE_DENT_.
  assert (Hhalf : 0 <= count_space / 2 <= 32767).
  { split; [apply Z.div_pos; lia|].
    assert (count_space / 2 < 32768) by (apply Z.div_lt_upper_bound; lia). lia. }
  assert (Hwrap : wrap_int16 (count_space / 2 - parse.current_dent_ p)
                  = count_space / 2 - parse.current_dent_ p).
  { unfold wrap_int16. rewrite Z.mod_small; lia. }
  rewrite Hwrap.
  destruct (0 <? count_space / 2 - parse.current_dent_ p) eqn:D.
  - apply Z.ltb_lt in D. cbn [lexer.keeps].
    apply indent_loop_Inv; [exact HI|]. cbn [parse.current_dent_ parse.with_input]. lia.
  - apply Z.ltb_ge in D. apply dedent_loop_keeps; [exact HI|].
    cbn [parse.current_dent_ parse.with_input]. lia.
Qed.

Lemma keeps_bind (r : parse.Res parse.Parser) (k : parse.Parser -> parse.Res parse.Parser) :
  lexer.keeps r -> (forall p, lexer.Inv p -> lexer.keeps (k p)) ->
  lexer.keeps (parse.bind r k).
Proof. destruct r; cbn; auto. Qed.

Lemma ParseTokens_turn_keeps (p : parse.Parser) :
  lexer.Inv p -> lexer.keeps (parse.ParseTokens_turn p).
Proof.
  intros HI. unfold parse.ParseTokens_turn.
  apply keeps_bind; [apply HandleKeywordOrId_keeps, HI|]. clear p HI. intros p HI.
  apply keeps_bind; [apply HandleOperatorEqOrSymbol_keeps, HI|]. clear p HI. intros p HI.
  apply keeps_bind; [apply HandleIntValue_keeps, HI|]. clear p HI. intros p HI.
  apply keeps_bind; [apply HandleString_keeps, HI|]. clear p HI. intros p HI.
  apply keeps_bind; [apply HandleComments_keeps, HI|]. clear p HI. intros p HI.
  apply keeps_bind; [apply HandleNewLine_keeps, HI|]. clear p HI. intros p HI.
  apply HandleDent_keeps, HI.
Qed.

Lemma ParseTokens_loop_keeps (fuel : nat) (p : parse.Parser) :
  lexer.Inv p -> lexer.keeps (parse.ParseTokens_loop fuel p).
Proof.
  revert p. induction fuel as [|n IH]; intros p HI; cbn [parse.ParseTokens_loop]; [exact I|].
  destruct (parse.ok (parse.input_tokens_ p)); [|exact HI].
  apply keeps_bind; [apply ParseTokens_turn_keeps, HI|apply IH].
Qed.

Lemma Inv_start (text : string) :
  lexer.Inv {| parse.input_tokens_ := parse.open text; parse.tokens_ := [];
               parse.current_dent_ := 0 |}.
Proof.
  unfold lexer.Inv; cbn. repeat split; try lia; try discriminate.
  - intros [|x l1] l2 H; discriminate H.
  - intros [|x l1] l2 H; [|discriminate H]. unfold lexer.depth. cbn. lia.
Qed.

(** The state in which the loop of [ParseTokens] ends satisfies [Inv]. *)
Lemma ParseTokens_body_keeps (fuel : nat) (text : string) :
  lexer.keeps
    (parse.ParseTokens_loop fuel
       (parse.RemovingSpacesBeforeTokens
          {| parse.input_tokens_ := parse.open text; parse.tokens_ := [];
             parse.current_dent_ := 0 |})).
Proof. apply ParseTokens_loop_keeps. exact (Inv_start text). Qed.

(** What [lex] returns: the tokens of a state in which [Inv] holds, ended by a
    [Newline] or a [Dedent] unless there are none, and then [Eof]. *)
Lemma lex_Done (fuel : nat) (text : string) (ts : list parse.Token) :
  parse.lex fuel text = parse.Done ts ->
  exists p, lexer.Inv p /\ ts = (parse.tokens_ p ++ [token_type.Eof])%list
            /\ (parse.tokens_ p = []
                \/ last (parse.tokens_ p) = Some token_type.Newline
                \/ last (parse.tokens_ p) = Some token_type.Dedent).
Proof.
  unfold parse.lex, parse.ParseTokens.
  pose proof (ParseTokens_body_keeps fuel text) as HK.
  destruct (parse.ParseTokens_loop fuel _) as [p|e|]; cbn [parse.bind lexer.keeps] in *;
    try discriminate.
  intros [= <-].
  destruct (negb (parse.empty p)) eqn:He; cbn [andb].
  - destruct (negb (parse.back_is token_type.Newline p)) eqn:Hn; cbn [andb].
    + destruct (negb (parse.back_is token_type.Dedent p)) eqn:Hd.
      * exists (parse.emplace_back token_type.Newline p). split; [|split].
        -- apply Inv_Newline; [exact HK| |]; apply negb_true_iff; assumption.
        -- reflexivity.
        -- right. left. cbn. apply last_snoc.
      * exists p. split; [exact HK|]. split; [reflexivity|]. right. right.
        apply negb_false_iff in Hd. unfold parse.back_is, parse.back in Hd.
        destruct (last (parse.tokens_ p)) as [[]|]; congruence.
    + exists p. split; [exact HK|]. split; [reflexivity|]. right. left.
      apply negb_false_iff in Hn. apply back_is_Newline, Hn.
  - exists p. split; [exact HK|]. split; [reflexivity|]. left.
    apply negb_false_iff in He. unfold parse.empty in He.
    destruct (parse.tokens_ p); congruence.
Qed.

Lemma lex_Raise (fuel : nat) (text : string) (e : parse.Exception) :
  parse.lex fuel text = parse.Raise e -> e <> parse.assertion_failed.
Proof.
  unfold parse.lex, parse.ParseTokens.
  pose proof (ParseTokens_body_keeps fuel text) as HK.
  destruct (parse.ParseTokens_loop fuel _) as [p|e'|]; cbn [parse.bind lexer.keeps] in *;
    try discriminate.
  intros [= <-]. exact HK.
Qed.

Lemma lex_Done_body (fuel : nat) (text : string) (ts : list parse.Token) :
  parse.lex fuel text = parse.Done ts ->
  exists body, ts = (body ++ [token_type.Eof])%list /\ ~ In token_type.Eof body.
Proof.
  intros H. apply lex_Done in H as (p & HI & -> & _).
  exists (parse.tokens_ p). split; [reflexivity|].
  destruct HI as (Hok & _). intros Hin.
  rewrite forallb_forall in Hok. specialize (Hok _ Hin). discriminate Hok.
Qed.

(** X2: the token list ends with [Eof], and [Eof] occurs nowhere else; the
    token before it, when there is one, is a [Newline] or a [Dedent]. *)
Theorem lex_ends_with_Eof (fuel : nat) (text : string) (ts : list parse.Token) :
  parse.lex fuel text = parse.Done ts ->
  exists body,
    ts = (body ++ [token_type.Eof])%list
    /\ ~ In token_type.Eof body
    /\ (body = [] \/ last body = Some token_type.Newline
        \/ last body = Some token_type.Dedent).
Proof.
  intros H. apply lex_Done in H as (p & HI & -> & Hlast).
  exists (parse.tokens_ p). split; [reflexivity|]. split; [|exact Hlast].
  destruct HI as (Hok & _). intros Hin.
  rewrite forallb_forall in Hok. specialize (Hok _ Hin). discriminate Hok.
Qed.

Lemma lex_ends_with_Eof_witness :
  exists body,
    [token_type.If; token_type.Id "x"; token_type.Char ":"; token_type.Newline;
     token_type.Indent; token_type.Id "y"; token_type.Newline; token_type.Dedent;
     token_type.Eof] = (body ++ [token_type.Eof])%list
    /\ ~ In token_type.Eof body
    /\ (body = [] \/ last body = Some token_type.Newline
        \/ last body = Some token_type.Dedent).
Proof.
  assert (H : parse.lex 10 samples.closed_suite
              = parse.Done
                  [token_type.If; token_type.Id "x"; token_type.Char ":"; token_type.Newline;
                   token_type.Indent; token_type.Id "y"; token_type.Newline;
                   token_type.Dedent; token_type.Eof]) by (vm_compute; reflexivity).
  exact (lex_ends_with_Eof 10 samples.closed_suite _ H).
Defined.



(** X4: in every prefix of the token list there are at least as many [Indent]
    tokens as [Dedent] tokens: a suite is never closed before it is opened. *)
Theorem lex_Dedent_never_exceeds_Indent
        (fuel : nat) (text : string) (ts l1 l2 : list parse.Token) :
  parse.lex fuel text = parse.Done ts ->
  ts = (l1 ++ l2)%list ->
  (parse.count_token token_type.Dedent l1 <= parse.count_token token_type.Indent l1)%nat.
Proof.
  intros H Hts. apply lex_Done in H as (p & HI & -> & _).
  destruct HI as (_ & _ & _ & Hpre & _).
  assert (0 <= lexer.depth l1); [|unfold lexer.depth in *; lia].
  apply snoc_cases in Hts as [[-> ->]|(l2' & -> & Hts)].
  - rewrite depth_snoc. specialize (Hpre (parse.tokens_ p) []).
    rewrite app_nil_r in Hpre. specialize (Hpre eq_refl). lia.
  - exact (Hpre l1 l2' Hts).
Qed.

Lemma lex_Dedent_never_exceeds_Indent_witness :
  (parse.count_token token_type.Dedent
     [token_type.If; token_type.Id "x"; token_type.Char ":"; token_type.Newline;
      token_type.Indent; token_type.Id "y"]
   <= parse.count_token token_type.Indent
        [token_type.If; token_type.Id "x"; token_type.Char ":"; token_type.Newline;
         token_type.Indent; token_type.Id "y"])%nat.
Proof.
  assert (H : parse.lex 10 samples.closed_suite
              = parse.Done
                  [token_type.If; token_type.Id "x"; token_type.Char ":"; token_type.Newline;
                   token_type.Indent; token_type.Id "y"; token_type.Newline;
                   token_type.Dedent; token_type.Eof]) by (vm_compute; reflexivity).
  exact (lex_Dedent_never_exceeds_Indent 10 samples.closed_suite _
           [token_type.If; token_type.Id "x"; token_type.Char ":"; token_type.Newline;
            token_type.Indent; token_type.Id "y"]
           [token_type.Newline; token_type.Dedent; token_type.Eof] H eq_refl).
Defined.

(** X5: when lexing fails, what is raised is a [LexerError] or the
    [std::out_of_range] of [std::stoi]; the assertion of [HandleDent] never
    fails. *)
Theorem lex_raises_LexerError_or_out_of_range
        (fuel : nat) (text : string) (e : parse.Exception) :
  parse.lex fuel text = parse.Raise e ->
  (exists what, e = parse.LexerError what) \/ (exists what, e = parse.out_of_range what).
Proof.
  intros H. apply lex_Raise in H. destruct e; eauto. congruence.
Qed.

Lemma lex_raises_LexerError_or_out_of_range_witness :
  (exists what, parse.LexerError "Unexpected end of line" = parse.LexerError what)
  \/ (exists what, parse.LexerError "Unexpected end of line" = parse.out_of_range what).
Proof.
  assert (H : parse.lex 10 ("x = 'a" +:+ samples.LF +:+ "'")
              = parse.Raise (parse.LexerError "Unexpected end of line"))
    by (vm_compute; reflexivity).
  exact (lex_raises_LexerError_or_out_of_range 10 _ _ H).
Defined.

(** X6: what the value-carrying tokens hold. A [Number] is between 0 and the
    largest [int]; an [Id] is not a keyword and starts with a letter or an
    underscore; a [Char] is a punctuation character other than the two
    quotes and the number sign. *)
Theorem lex_tokens_well_formed (fuel : nat) (text : string) (ts : list parse.Token) :
  parse.lex fuel text = parse.Done ts ->
  (forall value, In (token_type.Number value) ts -> 0 <= value <= 2147483647)
  /\ (forall word, In (token_type.Id word) ts ->
        parse.token_types word = None
        /\ exists c rest, word = String.String c rest
                          /\ (parse.isalpha c = true \/ c = "_"%char))
  /\ (forall c, In (token_type.Char c) ts ->
        parse.ispunct c = true /\ c <> parse.dquote /\ c <> "'"%char /\ c <> "#"%char).
Proof.
  intros H. apply lex_Done in H as (p & HI & -> & _).
  destruct HI as (Hok & _). rewrite forallb_forall in Hok.
  assert (Hin : forall t, t <> token_type.Eof ->
            In t (parse.tokens_ p ++ [token_type.Eof])%list -> lexer.token_ok t = true).
  { intros t Hne Ht. apply in_app_or in Ht as [Ht|[Ht|[]]]; [auto|congruence]. }
  repeat split.
  - apply Hin in H; [|discriminate]. cbn in H. apply andb_true_iff in H as [H _].
    apply Z.leb_le, H.
  - apply Hin in H; [|discriminate]. cbn in H. apply andb_true_iff in H as [_ H].
    apply Z.leb_le, H.
  - apply Hin in H; [|discriminate]. cbn in H.
    destruct (parse.token_types word); [discriminate|reflexivity].
  - apply Hin in H; [|discriminate]. cbn in H.
    destruct (parse.token_types word); [discriminate|].
    destruct word as [|c rest]; [discriminate|]. exists c, rest. split; [reflexivity|].
    destruct (parse.isalpha c); [auto|]. right. apply Ascii.eqb_eq, H.
  - apply Hin in H; [|discriminate]. cbn in H.
    destruct (parse.ispunct c); [reflexivity|discriminate].
  - intros ->. apply Hin in H; [|discriminate]. vm_compute in H. discriminate.
  - intros ->. apply Hin in H; [|discriminate]. vm_compute in H. discriminate.
  - intros ->. apply Hin in H; [|discriminate]. vm_compute in H. discriminate.
Qed.

Lemma lex_tokens_well_formed_witness :
  0 <= 2147483647 <= 2147483647
  /\ parse.token_types "x" = None
  /\ parse.ispunct "=" = true.
Proof.
  assert (H : parse.lex 10 "x = 2147483647"
              = parse.Done
                  [token_type.Id "x"; token_type.Char "="; token_type.Number 2147483647;
                   token_type.Newline; token_type.Eof]) by (vm_compute; reflexivity).
  pose proof (lex_tokens_well_formed 10 "x = 2147483647" _ H) as (Hn & Hi & Hc).
  split; [|split].
  - exact (Hn 2147483647 (or_intror (or_intror (or_introl eq_refl)))).
  - exact (proj1 (Hi "x"%string (or_introl eq_refl))).
  - exact (proj1 (Hc "="%char (or_intror (or_introl eq_refl)))).
Defined.


(** *** Integer literals *)

Lemma digit_is_nothing_else (c : ascii) :
  parse.isdigit c = true ->
  parse.isalpha c = false /\ parse.ispunct c = false /\ Ascii.eqb c "_" = false
  /\ Ascii.eqb "#" c = false /\ Ascii.eqb " " c = false /\ Ascii.eqb "010" c = false
  /\ Ascii.eqb c "'" = false /\ Ascii.eqb c parse.dquote = false.
Proof.
  destruct c as [[] [] [] [] [] [] [] []]; vm_compute; intros H;
    try discriminate H; repeat split.
Qed.

Lemma HandleIntValue_loop_digits (rest acc : string) :
  lexer.all_digits rest = true ->
  parse.HandleIntValue_loop (S (String.length rest))
    {| parse.buf := rest; parse.eofbit := false; parse.failbit := false |} acc
  = ((acc +:+ rest)%string,
     {| parse.buf := EmptyString; parse.eofbit := true; parse.failbit := true |}).
Proof.
  revert acc. induction rest as [|c rest IH]; intros acc Hd.
  - cbn. rewrite append_nil_r. reflexivity.
  - cbn [lexer.all_digits] in Hd. apply andb_true_iff in Hd as [Hc Hd].
    cbn [String.length].
    change (parse.HandleIntValue_loop (S (S (String.length rest)))
              {| parse.buf := String.String c rest; parse.eofbit := false;
                 parse.failbit := false |} acc)
      with (if parse.isdigit c
            then parse.HandleIntValue_loop (S (String.length rest))
                   {| parse.buf := rest; parse.eofbit := false; parse.failbit := false |}
                   (parse.push_char acc c)
            else (acc, parse.putback c
                         {| parse.buf := rest; parse.eofbit := false;
                            parse.failbit := false |})).
    rewrite Hc, (IH _ Hd), push_char_append. reflexivity.
Qed.

(** [HandleIntValue] on a run of digits that ends the text, whatever tokens
    there are already. *)
Lemma HandleIntValue_digits (toks : list parse.Token) (c : ascii) (rest : string) :
  lexer.all_digits (String.String c rest) = true ->
  parse.HandleIntValue
    {| parse.input_tokens_ := parse.open (String.String c rest);
       parse.tokens_ := toks; parse.current_dent_ := 0 |}
  = parse.bind (parse.stoi (String.String c rest)) (fun num =>
      parse.Done
        {| parse.input_tokens_ :=
             {| parse.buf := EmptyString; parse.eofbit := true; parse.failbit := true |};
           parse.tokens_ := toks ++ [token_type.Number num];
           parse.current_dent_ := 0 |}).
Proof.
  intros Hd. cbn [lexer.all_digits] in Hd. apply andb_true_iff in Hd as [Hc Hrest].
  assert (Hpeek : parse.peek (parse.open (String.String c rest))
                  = (Some c, parse.open (String.String c rest))) by reflexivity.
  unfold parse.HandleIntValue, parse.IsEof, parse.with_input.
  cbn [parse.input_tokens_ parse.tokens_ parse.current_dent_].
  rewrite Hpeek. cbn [parse.input_tokens_].
  change (parse.get (parse.open (String.String c rest)))
    with (Some c, {| parse.buf := rest; parse.eofbit := false; parse.failbit := false |}).
  cbv beta iota. rewrite Hc. cbn [negb parse.buf].
  rewrite (HandleIntValue_loop_digits rest _ Hrest).
  reflexivity.
Qed.

(** Lexing a text that is one run of digits. *)
Lemma lex_digits (fuel : nat) (c : ascii) (rest : string) :
  lexer.all_digits (String.String c rest) = true ->
  parse.lex (S (S fuel)) (String.String c rest)
  = parse.bind (parse.stoi (String.String c rest)) (fun num =>
      parse.Done [token_type.Number num; token_type.Newline; token_type.Eof]).
Proof.
  intros Hd. pose proof Hd as Hd'. cbn [lexer.all_digits] in Hd'.
  apply andb_true_iff in Hd' as [Hc Hrest].
  destruct (digit_is_nothing_else c Hc) as (Ha & Hp & Hu & Hh & Hs & Hn & Hq & Hqq).
  unfold parse.lex, parse.ParseTokens.
  assert (Hpeek : parse.peek (parse.open (String.String c rest))
                  = (Some c, parse.open (String.String c rest))) by reflexivity.
  assert (Hstart : parse.RemovingSpacesBeforeTokens
                     {| parse.input_tokens_ := parse.open (String.String c rest);
                        parse.tokens_ := []; parse.current_dent_ := 0 |}
                   = {| parse.input_tokens_ := parse.open (String.String c rest);
                        parse.tokens_ := []; parse.current_dent_ := 0 |}).
  { unfold parse.RemovingSpacesBeforeTokens, parse.with_input.
    cbn [parse.input_tokens_ parse.tokens_ parse.current_dent_ parse.RemovingSpaces_loop].
    rewrite Hpeek. cbn [parse.is_char]. rewrite Hs. reflexivity. }
  rewrite Hstart.
  assert (Hturn : parse.ParseTokens_turn
                    {| parse.input_tokens_ := parse.open (String.String c rest);
                       parse.tokens_ := []; parse.current_dent_ := 0 |}
                  = parse.bind (parse.stoi (String.String c rest)) (fun num =>
                      parse.Done
                        {| parse.input_tokens_ :=
                             {| parse.buf := EmptyString; parse.eofbit := true;
                                parse.failbit := true |};
                           parse.tokens_ := [token_type.Number num];
                           parse.current_dent_ := 0 |})).
  { unfold parse.ParseTokens_turn.
    assert (H1 : parse.HandleKeywordOrId
                   {| parse.input_tokens_ := parse.open (String.String c rest);
                      parse.tokens_ := []; parse.current_dent_ := 0 |}
                 = parse.Done {| parse.input_tokens_ := parse.open (String.String c rest);
                                 parse.tokens_ := []; parse.current_dent_ := 0 |}).
    { unfold parse.HandleKeywordOrId, parse.IsEof, parse.with_input.
      cbn [parse.input_tokens_ parse.tokens_ parse.current_dent_].
      rewrite Hpeek. cbn [parse.input_tokens_]. rewrite Hpeek, Ha, Hu. reflexivity. }
    rewrite H1. cbn [parse.bind].
    assert (H2 : parse.HandleOperatorEqOrSymbol
                   {| parse.input_tokens_ := parse.open (String.String c rest);
                      parse.tokens_ := []; parse.current_dent_ := 0 |}
                 = parse.Done {| parse.input_tokens_ := parse.open (String.String c rest);
                                 parse.tokens_ := []; parse.current_dent_ := 0 |}).
    { unfold parse.HandleOperatorEqOrSymbol, parse.IsEof, parse.with_input.
      cbn [parse.input_tokens_ parse.tokens_ parse.current_dent_].
      rewrite Hpeek. cbn [parse.input_tokens_]. rewrite Hpeek. cbn [parse.is_char].
      rewrite Hh. cbn [parse.input_tokens_].
      change (parse.get (parse.open (String.String c rest)))
        with (Some c, {| parse.buf := rest; parse.eofbit := false; parse.failbit := false |}).
      cbv beta iota. rewrite Hp. reflexivity. }
    rewrite H2. cbn [parse.bind].
    rewrite (HandleIntValue_digits [] c rest Hd). cbn [app].
    destruct (parse.stoi (String.String c rest)) as [num|e|]; reflexivity. }
  cbn [parse.ParseTokens_loop parse.input_tokens_]. 
  change (parse.ok (parse.open (String.String c rest))) with true. cbn iota.
  rewrite Hturn.
  destruct (parse.stoi (String.String c rest)) as [num|e|]; reflexivity.
Qed.

(** Lexing a minus sign and a run of digits: the sign is a token of its
    own, and the digits are read in the same turn. *)
Lemma lex_minus_digits (fuel : nat) (c : ascii) (rest : string) :
  lexer.all_digits (String.String c rest) = true ->
  parse.lex (S (S fuel)) (String.String "-" (String.String c rest))
  = parse.bind (parse.stoi (String.String c rest)) (fun num =>
      parse.Done [token_type.Char "-"; token_type.Number num;
                  token_type.Newline; token_type.Eof]).
Proof.
  intros Hd.
  unfold parse.lex, parse.ParseTokens.
  assert (Hstart : parse.RemovingSpacesBeforeTokens
                     {| parse.input_tokens_ :=
                          parse.open (String.String "-" (String.String c rest));
                        parse.tokens_ := []; parse.current_dent_ := 0 |}
                   = {| parse.input_tokens_ :=
                          parse.open (String.String "-" (String.String c rest));
                        parse.tokens_ := []; parse.current_dent_ := 0 |})
    by reflexivity.
  rewrite Hstart.
  assert (Hturn : parse.ParseTokens_turn
                    {| parse.input_tokens_ :=
                         parse.open (String.String "-" (String.String c rest));
                       parse.tokens_ := []; parse.current_dent_ := 0 |}
                  = parse.bind (parse.stoi (String.String c rest)) (fun num =>
                      parse.Done
                        {| parse.input_tokens_ :=
                             {| parse.buf := EmptyString; parse.eofbit := true;
                                parse.failbit := true |};
                           parse.tokens_ := [token_type.Char "-"; token_type.Number num];
                           parse.current_dent_ := 0 |})).
  { unfold parse.ParseTokens_turn.
    change (parse.HandleKeywordOrId
              {| parse.input_tokens_ :=
                   parse.open (String.String "-" (String.String c rest));
                 parse.tokens_ := []; parse.current_dent_ := 0 |})
      with (parse.Done {| parse.input_tokens_ :=
                            parse.open (String.String "-" (String.String c rest));
                          parse.tokens_ := []; parse.current_dent_ := 0 |}).
    cbn [parse.bind].
    change (parse.HandleOperatorEqOrSymbol
              {| parse.input_tokens_ :=
                   parse.open (String.String "-" (String.String c rest));
                 parse.tokens_ := []; parse.current_dent_ := 0 |})
      with (parse.Done {| parse.input_tokens_ := parse.open (String.String c rest);
                          parse.tokens_ := [token_type.Char "-"];
                          parse.current_dent_ := 0 |}).
    cbn [parse.bind].
    rewrite (HandleIntValue_digits [token_type.Char "-"] c rest Hd). cbn [app].
    destruct (parse.stoi (String.String c rest)) as [num|e|]; reflexivity. }
  cbn [parse.ParseTokens_loop parse.input_tokens_].
  change (parse.ok (parse.open (String.String "-" (String.String c rest)))) with true.
  cbn iota. rewrite Hturn.
  destruct (parse.stoi (String.String c rest)) as [num|e|]; reflexivity.
Qed.

Lemma digits_value_uint_acc (d : Decimal.uint) (acc : positive) :
  parse.digits_value (DecimalString.NilEmpty.string_of_uint d) (Zpos acc)
  = Zpos (Pos.of_uint_acc d acc).
Proof.
  revert acc. induction d as [|d IH|d IH|d IH|d IH|d IH|d IH|d IH|d IH|d IH|d IH];
    intros acc; cbn [DecimalString.NilEmpty.string_of_uint parse.digits_value Pos.of_uint_acc];
    [reflexivity|..];
    match goal with
    | |- parse.digits_value _ ?k = Zpos (Pos.of_uint_acc _ ?a) =>
        replace k with (Zpos a); [apply IH|vm_compute parse.digit_value; lia]
    end.
Qed.

Lemma digits_value_uint (d : Decimal.uint) :
  parse.digits_value (DecimalString.NilEmpty.string_of_uint d) 0 = Z.of_N (Pos.of_uint d).
Proof.
  induction d as [|d IH|d IH|d IH|d IH|d IH|d IH|d IH|d IH|d IH|d IH];
    cbn [DecimalString.NilEmpty.string_of_uint parse.digits_value Pos.of_uint];
    [reflexivity|exact IH|..];
    match goal with
    | |- parse.digits_value _ ?k = Z.of_N (Npos (Pos.of_uint_acc _ ?a)) =>
        replace k with (Zpos a) by (vm_compute; reflexivity);
        apply digits_value_uint_acc
    end.
Qed.

Lemma all_digits_uint (d : Decimal.uint) :
  lexer.all_digits (DecimalString.NilEmpty.string_of_uint d) = true.
Proof. induction d; cbn; auto. Qed.

Lemma string_of_uint_shape (d : Decimal.uint) :
  exists c rest,
    DecimalString.NilZero.string_of_uint d = String.String c rest
    /\ lexer.all_digits (String.String c rest) = true
    /\ parse.digits_value (String.String c rest) 0 = Z.of_N (Pos.of_uint d).
Proof.
  pose proof (all_digits_uint d) as A. pose proof (digits_value_uint d) as B.
  unfold DecimalString.NilZero.string_of_uint.
  destruct d as [|d|d|d|d|d|d|d|d|d|d];
    [exists "0"%char, EmptyString; repeat split|..];
    (eexists _, _; split; [reflexivity|]; split; [exact A|exact B]).
Qed.

(** X7: the text [Number::Print] writes for a number, lexed again. The text
    of a number from 0 to the largest [int] gives that number; the text of
    a negative number gives the character [-] and then the number without
    its sign, not the number itself; the digits of a number above the
    largest [int] are refused by [std::stoi], with or without a sign in
    front of them. *)
Theorem lex_of_decimal_text (fuel : nat) (n : Z) :
  parse.lex (S (S fuel)) (runtime.Number_Print n)
  = if 0 <=? n
    then if n <=? 2147483647
         then parse.Done [token_type.Number n; token_type.Newline; token_type.Eof]
         else parse.Raise (parse.out_of_range "stoi")
    else if - n <=? 2147483647
         then parse.Done [token_type.Char "-"; token_type.Number (- n);
                          token_type.Newline; token_type.Eof]
         else parse.Raise (parse.out_of_range "stoi").
Proof.
  unfold runtime.Number_Print, dec_of_Z.
  pose proof (DecimalZ.of_to n) as Hr.
  destruct (Z.leb_spec 0 n) as [Hn|Hn].
  - assert (Hd : exists d, Z.to_int n = Decimal.Pos d /\ Z.of_N (Pos.of_uint d) = n).
    { destruct n as [|p|p]; [| |lia];
        cbn [Z.to_int] in *; eexists; split; try reflexivity; exact Hr. }
    destruct Hd as (d & -> & Hval).
    cbn [DecimalString.NilZero.string_of_int].
    destruct (string_of_uint_shape d) as (c & rest & Hs & Hall & Hv).
    rewrite Hval in Hv. rewrite Hs.
    rewrite (lex_digits fuel c rest Hall). unfold parse.stoi. rewrite Hv.
    destruct (n <=? 2147483647); reflexivity.
  - destruct n as [|p|p]; [lia|lia|].
    cbn [Z.to_int] in *. cbn [DecimalString.NilZero.string_of_int].
    destruct (string_of_uint_shape (Pos.to_uint p)) as (c & rest & Hs & Hall & Hv).
    assert (Hval : Z.of_N (Pos.of_uint (Pos.to_uint p)) = - Z.neg p).
    { unfold Z.of_int, Z.of_uint in Hr. lia. }
    rewrite Hval in Hv. rewrite Hs.
    rewrite (lex_minus_digits fuel c rest Hall). unfold parse.stoi. rewrite Hv.
    destruct (- Z.neg p <=? 2147483647); reflexivity.
Qed.

Lemma lex_of_decimal_text_witness :
  parse.lex 2 (runtime.Number_Print 2026)
    = parse.Done [token_type.Number 2026; token_type.Newline; token_type.Eof]
  /\ parse.lex 2 (runtime.Number_Print (-5))
     = parse.Done [token_type.Char "-"; token_type.Number 5;
                   token_type.Newline; token_type.Eof].
Proof.
  split; [exact (lex_of_decimal_text 0 2026)|exact (lex_of_decimal_text 0 (-5))].
Defined.


(** *** The token cursor *)

Lemma Lexer_new_tokens (fuel : nat) (text : string) (l : lexer.Lexer) :
  lexer.Lexer_new fuel text = parse.Done l ->
  lexer.current_token_index_ l = 0%nat
  /\ parse.lex fuel text = parse.Done (parse.tokens_ (lexer.parser_ l)).
Proof.
  unfold lexer.Lexer_new, parse.lex.
  destruct (parse.ParseTokens fuel _) as [p|e|]; cbn [parse.bind]; try discriminate.
  intros [= <-]. split; reflexivity.
Qed.

Lemma advance_index (k : nat) (l : lexer.Lexer) :
  (lexer.current_token_index_ l < length (parse.tokens_ (lexer.parser_ l)))%nat ->
  lexer.parser_ (lexer.advance k l) = lexer.parser_ l
  /\ lexer.current_token_index_ (lexer.advance k l)
     = Nat.min (lexer.current_token_index_ l + k)
               (length (parse.tokens_ (lexer.parser_ l)) - 1).
Proof.
  revert l. induction k as [|k IH]; intros l Hl; cbn [lexer.advance].
  - split; [reflexivity|]. lia.
  - unfold lexer.NextToken at 1 2. cbn [snd].
    destruct (Nat.eqb (lexer.current_token_index_ l + 1)
                      (length (parse.tokens_ (lexer.parser_ l)))) eqn:E; cbn [negb].
    + apply Nat.eqb_eq in E. destruct (IH l Hl) as [-> ->]. split; [reflexivity|]. lia.
    + apply Nat.eqb_neq in E.
      edestruct (IH {| lexer.current_token_index_ := lexer.current_token_index_ l + 1;
                       lexer.parser_ := lexer.parser_ l |}) as [-> ->];
        cbn [lexer.current_token_index_ lexer.parser_]; [lia|].
      split; [reflexivity|]. lia.
Qed.

Lemma advance_succ (k : nat) (l : lexer.Lexer) :
  lexer.advance (S k) l = snd (lexer.NextToken (lexer.advance k l)).
Proof.
  revert l. induction k as [|k IH]; intros l; [reflexivity|].
  change (lexer.advance (S (S k)) l) with (lexer.advance (S k) (snd (lexer.NextToken l))).
  rewrite IH. reflexivity.
Qed.

(** X8: after [k] calls of [NextToken] on a fresh [Lexer] the cursor is on
    token [k], or on the last token when there are not that many: the cursor
    never leaves the vector. The current token is [Eof] exactly when the
    cursor has reached the last token, and from then on [NextToken] changes
    nothing. *)
Theorem NextToken_stops_at_Eof (fuel : nat) (text : string) (l : lexer.Lexer) (k : nat) :
  lexer.Lexer_new fuel text = parse.Done l ->
  let size := length (parse.tokens_ (lexer.parser_ l)) in
  lexer.CurrentToken (lexer.advance k l)
    = parse.tokens_ (lexer.parser_ l) !! Nat.min k (size - 1)
  /\ (exists t, lexer.CurrentToken (lexer.advance k l) = Some t)
  /\ (lexer.CurrentToken (lexer.advance k l) = Some token_type.Eof <-> (size - 1 <= k)%nat)
  /\ ((size - 1 <= k)%nat -> lexer.advance (S k) l = lexer.advance k l).
Proof.
  intros Hnew size. apply Lexer_new_tokens in Hnew as [H0 Hlex].
  apply lex_Done_body in Hlex as (body & Hts & Hnot).
  assert (Hsize : size = S (length body)).
  { unfold size. rewrite Hts, length_app. cbn. lia. }
  assert (Hl : (lexer.current_token_index_ l < length (parse.tokens_ (lexer.parser_ l)))%nat).
  { fold size. lia. }
  destruct (advance_index k l Hl) as [Hp Hi]. fold size in Hi. rewrite H0 in Hi. cbn in Hi.
  assert (Hcur : lexer.CurrentToken (lexer.advance k l)
                 = parse.tokens_ (lexer.parser_ l) !! Nat.min k (size - 1)).
  { unfold lexer.CurrentToken. rewrite Hp, Hi. reflexivity. }
  split; [exact Hcur|]. rewrite Hcur, Hts. split; [|split].
  - apply lookup_lt_is_Some_2. rewrite length_app. cbn. lia.
  - split.
    + intros H. destruct (Nat.le_gt_cases (size - 1) k) as [|Hlt]; [assumption|].
      exfalso. rewrite Nat.min_l in H by lia.
      rewrite lookup_app_l in H by lia.
      apply Hnot. apply list_elem_of_In. eapply list_elem_of_lookup_2, H.
    + intros H. rewrite Nat.min_r by lia. rewrite Hsize.
      replace (S (length body) - 1)%nat with (length body + 0)%nat by lia.
      rewrite lookup_app_r by lia. replace (length body + 0 - length body)%nat with 0%nat by lia.
      reflexivity.
  - intros H. rewrite advance_succ. unfold lexer.NextToken. cbn [snd].
    rewrite Hp, Hi. fold size.
    assert (E : Nat.eqb (Nat.min k (size - 1) + 1) size = true).
    { apply Nat.eqb_eq. lia. }
    rewrite E. reflexivity.
Qed.

Lemma NextToken_stops_at_Eof_witness :
  exists l, lexer.Lexer_new 10 samples.closed_suite = parse.Done l
            /\ lexer.CurrentToken (lexer.advance 3 l) = Some token_type.Newline
            /\ lexer.CurrentToken (lexer.advance 8 l) = Some token_type.Eof
            /\ lexer.advance 100 l = lexer.advance 99 l.
Proof.
  pose (l := ltac:(let v := eval vm_compute in (lexer.Lexer_new 10 samples.closed_suite) in
                   match v with parse.Done ?l => exact l end)).
  assert (H : lexer.Lexer_new 10 samples.closed_suite = parse.Done l)
    by (vm_compute; reflexivity).
  exists l. split; [exact H|].
  split; [vm_compute; reflexivity|]. split; [vm_compute; reflexivity|].
  apply (NextToken_stops_at_Eof 10 samples.closed_suite l 99 H).
  vm_compute. lia.
Defined.


(** ** More on classes and calls *)

Lemma table_lookup (ms : list Method) (table : gmap string Method) (method_name : string) :
  fold_left (fun table method => <[runtime.name method := method]> table) ms table
    !! method_name
  = match last (filter (fun m => runtime.name m = method_name) ms) with
    | Some m => Some m
    | None => table !! method_name
    end.
Proof.
  revert table. induction ms as [|m ms IH]; intros table; [reflexivity|].
  cbn [fold_left]. rewrite IH, filter_cons.
  destruct (decide (runtime.name m = method_name)) as [E|E].
  - rewrite last_cons. destruct (last (filter _ ms)); [reflexivity|].
    rewrite <- E. apply lookup_insert_eq.
  - destruct (last (filter _ ms)); [reflexivity|]. apply lookup_insert_ne, E.
Qed.

(** X9: method lookup. Of the methods a class itself defines under a name the
    last one is found; when it defines none, the lookup is the parent's, and
    without a parent nothing is found. So an override wins over the
    inherited method, and a method defined only in an ancestor is found. *)
Theorem GetMethod_inheritance (class_name : string) (ms : list Method)
        (parent : option Class) (method_name : string) :
  GetMethod (ast.mk_Class class_name ms parent) method_name
  = match last (filter (fun m => runtime.name m = method_name) ms) with
    | Some m => Some m
    | None => match parent with
              | Some p => GetMethod p method_name
              | None => None
              end
    end.
Proof.
  cbn [GetMethod]. unfold table_methods_. cbn [methods_].
  rewrite table_lookup, lookup_empty.
  destruct (last (filter _ ms)); reflexivity.
Qed.

Lemma bind_params_other (params : list string) (args : list ObjectHolder)
      (closure : Closure) (x : string) :
  ~ In x params -> bind_params params args closure !! x = closure !! x.
Proof.
  revert args closure. induction params as [|p ps IH]; intros args closure Hx; [reflexivity|].
  destruct args as [|a rest]; [reflexivity|]. cbn [bind_params].
  rewrite IH by (intros H; apply Hx; right; exact H).
  apply lookup_insert_ne. intros ->. apply Hx. left. reflexivity.
Qed.

Lemma bind_params_nth (params : list string) (args : list ObjectHolder)
      (closure : Closure) (i : nat) (p : string) (a : ObjectHolder) :
  NoDup params -> params !! i = Some p -> args !! i = Some a ->
  bind_params params args closure !! p = Some a.
Proof.
  revert args closure i. induction params as [|q ps IH]; intros args closure i Hnd Hp Ha;
    [discriminate Hp|].
  destruct args as [|b rest]; [discriminate Ha|]. cbn [bind_params].
  apply NoDup_cons in Hnd as [Hq Hnd].
  destruct i as [|i]; cbn in Hp, Ha.
  - injection Hp as ->. injection Ha as ->.
    rewrite bind_params_other by (rewrite <- list_elem_of_In; exact Hq).
    apply lookup_insert_eq.
  - exact (IH rest _ i Hnd Hp Ha).
Qed.

(** X10: a call with the right number of arguments runs the method's body in
    a closure of its own: [self] is the instance (unless a parameter is
    called [self]), every formal parameter is bound to the argument at its
    position (when no two parameters share a name), and no other name is
    bound, so the caller's variables are not visible; what the body does to
    that closure is dropped when the call ends. *)
Theorem Call_runs_body_in_fresh_closure
        (exec : Executable -> Closure -> World -> Outcome (Closure * World) ObjectHolder)
        (self : positive) (method_name : string) (actual_args : list ObjectHolder)
        (context : World) (this : ClassInstance) (method : Method) :
  instances context !! self = Some this ->
  GetMethod (class_ this) method_name = Some method ->
  length (formal_params method) = length actual_args ->
  exists closure : Closure,
    Call exec self method_name actual_args context
      = leave (exec (body method) closure context)
    /\ (forall x, ~ In x (formal_params method) -> x <> "self"%string -> closure !! x = None)
    /\ (~ In "self"%string (formal_params method) ->
        closure !! "self"%string = Some (Some (ast.InstancePtr self)))
    /\ (NoDup (formal_params method) ->
        forall i p a, formal_params method !! i = Some p -> actual_args !! i = Some a ->
                      closure !! p = Some a).
Proof.
  intros Hthis Hm Hlen.
  exists (bind_params (formal_params method) actual_args
            {[ "self"%string := Some (ast.InstancePtr self) ]}).
  split; [|split; [|split]].
  - unfold Call, HasMethod. rewrite Hthis, Hm, Hlen, Nat.eqb_refl. cbn [negb].
    rewrite Nat.ltb_irrefl. reflexivity.
  - intros x Hx Hs. rewrite bind_params_other by exact Hx.
    apply lookup_singleton_ne. congruence.
  - intros Hs. rewrite bind_params_other by exact Hs. apply lookup_singleton_eq.
  - intros Hnd i p a Hp Ha. exact (bind_params_nth _ _ _ i p a Hnd Hp Ha).
Qed.

Lemma Call_runs_body_in_fresh_closure_witness :
  exists closure : Closure,
    Call (Execute 3) 1 "__init__" [Some (ast.Number 1)] samples.box_world
      = leave (Execute 3
                 (ast.MethodBody
                    (ast.Compound
                       [ast.FieldAssignment ["self"] "v" (ast.VariableValue ["v"])]))
                 closure samples.box_world)
    /\ closure !! "n"%string = None
    /\ closure !! "self"%string = Some (Some (ast.InstancePtr 1))
    /\ closure !! "v"%string = Some (Some (ast.Number 1)).
Proof.
  destruct (Call_runs_body_in_fresh_closure (Execute 3) 1 "__init__" [Some (ast.Number 1)]
              samples.box_world {| class_ := samples.Box; fields_ := ∅ |}
              (ast.mk_Method "__init__" ["v"]
                 (ast.MethodBody
                    (ast.Compound
                       [ast.FieldAssignment ["self"] "v" (ast.VariableValue ["v"])])))
              eq_refl eq_refl eq_refl) as (closure & Hcall & Hother & Hself & Hparam).
  exists closure. split; [exact Hcall|]. split; [|split].
  - apply Hother; [|discriminate]. cbn. intros [H|[]]. discriminate H.
  - apply Hself. cbn. intros [H|[]]. discriminate H.
  - apply (Hparam (NoDup_singleton "v"%string) 0%nat "v"%string); reflexivity.
Defined.

(** X11: a [MethodBody] lets no thrown [ObjectHolder] out. The holder its body
    throws with [Return] becomes its result, in the closure and world the
    [Return] left; what its body returns is its result as well; and what it
    throws is always a [runtime_error], the one its body threw. *)
Theorem MethodBody_throws_only_runtime_error
        (n : nat) (body : Statement) (closure : Closure) (context : World) :
  (forall result frame,
      Execute n body closure context = Throws (thrown_holder result) frame ->
      Execute (S n) (ast.MethodBody body) closure context = Returns result frame)
  /\ (forall result frame,
        Execute n body closure context = Returns result frame ->
        Execute (S n) (ast.MethodBody body) closure context = Returns result frame)
  /\ (forall e frame,
        Execute (S n) (ast.MethodBody body) closure context = Throws e frame ->
        exists what, e = runtime_error what
                     /\ Execute n body closure context = Throws (runtime_error what) frame).
Proof.
  cbn [Execute]. unfold MethodBody_Execute.
  destruct (Execute n body closure context) as [v f|[what|v] f| |].
  - split; [discriminate|]. split; [auto|discriminate].
  - split; [discriminate|]. split; [discriminate|].
    intros e frame [= <- <-]. eauto.
  - split; [intros result frame [= <- <-]; reflexivity|]. split; discriminate.
  - split; [discriminate|]. split; discriminate.
  - split; [discriminate|]. split; discriminate.
Qed.

Lemma MethodBody_throws_only_runtime_error_witness :
  Execute 4 (ast.MethodBody (ast.Compound [ast.Return (ast.VariableValue ["y"])]))
          samples.only_y samples.no_world
    = Returns (Some (ast.Number 7)) (samples.only_y, samples.no_world)
  /\ exists what,
       runtime_error "Sub::Execute is failed" = runtime_error what
       /\ Execute 2 (ast.Sub (ast.StringConst "a") (ast.NumericConst 1)) ∅ samples.no_world
          = Throws (runtime_error what) (∅, samples.no_world).
Proof.
  split.
  - exact (proj1 (MethodBody_throws_only_runtime_error 3
                    (ast.Compound [ast.Return (ast.VariableValue ["y"])])
                    samples.only_y samples.no_world)
                 (Some (ast.Number 7)) (samples.only_y, samples.no_world) eq_refl).
  - exact (proj2 (proj2 (MethodBody_throws_only_runtime_error 2
                           (ast.Sub (ast.StringConst "a") (ast.NumericConst 1))
                           ∅ samples.no_world))
                 (runtime_error "Sub::Execute is failed") (∅, samples.no_world) eq_refl).
Defined.


(** ** More on the nodes *)

(** X12: in [a and b], when [a] gives anything but a true [Bool] the result is
    [Bool(false)] in the closure and world [a] left, whatever [b] is: [b] is
    not executed. Otherwise [b] is executed next and the result is
    [Bool(true)] exactly when [b] gives a true [Bool]. *)
Theorem And_short_circuit (n : nat) (a b : Statement) (closure : Closure) (context : World)
        (lhs : ObjectHolder) (closure1 : Closure) (context1 : World) :
  Execute n a closure context = Returns lhs (closure1, context1) ->
  (is_true_bool lhs = false ->
     Execute (S n) (ast.And a b) closure context
       = Returns (Some (ast.Bool false)) (closure1, context1))
  /\ (is_true_bool lhs = true ->
        Execute (S n) (ast.And a b) closure context
          = bind (Execute n b closure1 context1)
                 (fun rhs frame => Returns (Some (ast.Bool (is_true_bool rhs))) frame)).
Proof.
  intros Ha. cbn [Execute]. unfold And_Execute. rewrite Ha. cbn [bind].
  split; intros ->; [reflexivity|]. cbn [negb].
  destruct (Execute n b closure1 context1) as [rhs frame| | |]; cbn [bind]; try reflexivity.
  destruct (is_true_bool rhs); reflexivity.
Qed.

Lemma And_short_circuit_witness :
  Execute 2 (ast.And (ast.NumericConst 1) (ast.Assignment "seen" (ast.BoolConst true)))
          ∅ samples.no_world
    = Returns (Some (ast.Bool false)) (∅, samples.no_world).
Proof.
  exact (proj1 (And_short_circuit 1 (ast.NumericConst 1)
                  (ast.Assignment "seen" (ast.BoolConst true)) ∅ samples.no_world
                  (Some (ast.Number 1)) ∅ samples.no_world eq_refl) eq_refl).
Defined.

(** X13: [not] negates a [Bool] and throws a [runtime_error] for every other
    value, the empty holder included; so [not not x] gives [x] back when [x]
    is a [Bool]. *)
Theorem Not_negates_Bool_only (n : nat) (x : Statement) (closure : Closure) (context : World)
        (value : ObjectHolder) (frame : Frame) :
  Execute n x closure context = Returns value frame ->
  (forall b, value = Some (ast.Bool b) ->
     Execute (S n) (ast.Not x) closure context = Returns (Some (ast.Bool (negb b))) frame
     /\ Execute (S (S n)) (ast.Not (ast.Not x)) closure context
        = Returns (Some (ast.Bool b)) frame)
  /\ ((forall b, value <> Some (ast.Bool b)) ->
      exists what, Execute (S n) (ast.Not x) closure context
                   = Throws (runtime_error what) frame).
Proof.
  intros Hx. split.
  - intros b ->.
    assert (H1 : Execute (S n) (ast.Not x) closure context
                 = Returns (Some (ast.Bool (negb b))) frame).
    { cbn [Execute]. unfold Not_Execute. rewrite Hx. reflexivity. }
    split; [exact H1|].
    change (Not_Execute (Execute (S n)) (ast.Not x) closure context
            = Returns (Some (ast.Bool b)) frame).
    unfold Not_Execute. rewrite H1. cbn [bind]. rewrite negb_involutive. reflexivity.
  - intros Hnot. cbn [Execute]. unfold Not_Execute. rewrite Hx. cbn [bind].
    destruct value as [[v|v|v|v|v]|]; eauto. exfalso. exact (Hnot v eq_refl).
Qed.

Lemma Not_negates_Bool_only_witness :
  Execute 3 (ast.Not (ast.Not (ast.BoolConst true))) ∅ samples.no_world
    = Returns (Some (ast.Bool true)) (∅, samples.no_world).
Proof.
  exact (proj2 (proj1 (Not_negates_Bool_only 1 (ast.BoolConst true) ∅ samples.no_world
                         (Some (ast.Bool true)) (∅, samples.no_world) eq_refl)
                      true eq_refl)).
Defined.

Lemma VariableValue_Execute_frame (dotted_ids : list string)
      (closure : Closure) (context : World) :
  match VariableValue_Execute dotted_ids closure context with
  | Returns _ frame => frame = (closure, context)
  | Throws e frame => frame = (closure, context) /\ exists what, e = runtime_error what
  | Undefined => True
  | NoFuel => False
  end.
Proof.
  unfold VariableValue_Execute.
  generalize closure at 1 as new_closure.
  induction dotted_ids as [|id rest IH]; intros new_closure; cbn [VariableValue_loop].
  - split; eauto.
  - destruct (new_closure !! id) as [found|]; [|apply IH].
    destruct rest as [|next rest]; [reflexivity|].
    destruct found as [[v|v|v|v|base_ci]|]; try apply IH.
    destruct (instances context !! base_ci); [apply IH|exact I].
Qed.

Lemma VariableValue_one (n : nat) (closure : Closure) (context : World) (x : string) :
  Execute (S n) (ast.VariableValue [x]) closure context
  = match closure !! x with
    | Some value => Returns value (closure, context)
    | None => Throws (runtime_error
                 ("Unexpected error of the " +:+ dquote
                  +:+ "VariableValue::Execute" +:+ dquote +:+ " method"))
                (closure, context)
    end.
Proof.
  cbn [Execute]. unfold VariableValue_Execute. cbn [VariableValue_loop].
  unfold ObjectHolder in *. destruct (closure !! x); reflexivity.
Qed.

Lemma VariableValue_two (n : nat) (closure : Closure) (context : World)
      (o f : string) (self : positive) (this : ClassInstance) :
  closure !! o = Some (Some (ast.InstancePtr self)) ->
  instances context !! self = Some this ->
  Execute (S n) (ast.VariableValue [o; f]) closure context
  = match fields_ this !! f with
    | Some value => Returns value (closure, context)
    | None => Throws (runtime_error
                 ("Unexpected error of the " +:+ dquote
                  +:+ "VariableValue::Execute" +:+ dquote +:+ " method"))
                (closure, context)
    end.
Proof.
  intros Ho Hthis. cbn [Execute]. unfold VariableValue_Execute.
  cbn [VariableValue_loop]. unfold ObjectHolder in *. rewrite Ho, Hthis.
  destruct (fields_ this !! f); reflexivity.
Qed.

(** X14: [VariableValue] reads only, whatever the path: whether it returns or
    throws, the closure and the world are the ones it was given, what it
    throws is a [runtime_error], and one unit of fuel is all it needs. *)
Theorem VariableValue_reads_only (n : nat) (dotted_ids : list string)
        (closure : Closure) (context : World) :
  match Execute (S n) (ast.VariableValue dotted_ids) closure context with
  | Returns _ frame => frame = (closure, context)
  | Throws e frame => frame = (closure, context) /\ exists what, e = runtime_error what
  | Undefined => True
  | NoFuel => False
  end.
Proof.
  cbn [Execute]. unfold VariableValue_Execute.
  generalize closure at 1 as new_closure.
  induction dotted_ids as [|id rest IH]; intros new_closure; cbn [VariableValue_loop].
  - split; eauto.
  - destruct (new_closure !! id) as [found|]; [|apply IH].
    destruct rest as [|next rest]; [reflexivity|].
    destruct found as [[v|v|v|v|base_ci]|]; try apply IH.
    destruct (instances context !! base_ci); [apply IH|exact I].
Qed.

(** X15: after [x = e] the name [x] gives the value of [e]: the assignment
    returns that value, binds it, and a lookup of [x] in the closure it left
    returns it. *)
Theorem Assignment_then_lookup (n m : nat) (x : string) (e : Statement)
        (closure : Closure) (context : World)
        (value : ObjectHolder) (closure1 : Closure) (context1 : World) :
  Execute n e closure context = Returns value (closure1, context1) ->
  exists closure2,
    Execute (S n) (ast.Assignment x e) closure context = Returns value (closure2, context1)
    /\ Execute (S m) (ast.VariableValue [x]) closure2 context1
       = Returns value (closure2, context1)
    /\ (forall y, y <> x -> closure2 !! y = closure1 !! y).
Proof.
  intros He. exists (<[x := value]> closure1). split; [|split].
  - cbn [Execute]. unfold Assignment_Execute. rewrite He. reflexivity.
  - cbn [Execute]. unfold VariableValue_Execute. cbn [VariableValue_loop].
    unfold ObjectHolder in *. rewrite lookup_insert_eq. reflexivity.
  - intros y Hy. apply lookup_insert_ne. congruence.
Qed.

Lemma Assignment_then_lookup_witness :
  exists closure2,
    Execute 2 (ast.Assignment "x" (ast.NumericConst 5)) ∅ samples.no_world
      = Returns (Some (ast.Number 5)) (closure2, samples.no_world)
    /\ Execute 1 (ast.VariableValue ["x"]) closure2 samples.no_world
       = Returns (Some (ast.Number 5)) (closure2, samples.no_world)
    /\ (forall y, y <> "x"%string -> closure2 !! y = (∅ : Closure) !! y).
Proof.
  exact (Assignment_then_lookup 1 0 "x" (ast.NumericConst 5) ∅ samples.no_world
           (Some (ast.Number 5)) ∅ samples.no_world eq_refl).
Defined.


(** ** The world only grows *)

Lemma extends_refl (w : World) : world.extends w w.
Proof.
  split.
  - exists ""%string. rewrite append_nil_r. reflexivity.
  - intros address this H. exists this. auto.
Qed.

Lemma extends_trans (w1 w2 w3 : World) :
  world.extends w1 w2 -> world.extends w2 w3 -> world.extends w1 w3.
Proof.
  intros [[m1 O1] I1] [[m2 O2] I2]. split.
  - exists (m1 +:+ m2)%string. rewrite O2, O1. apply append_assoc.
  - intros address this H.
    destruct (I1 _ _ H) as (this2 & H2 & C2 & F2).
    destruct (I2 _ _ H2) as (this3 & H3 & C3 & F3).
    exists this3. split; [exact H3|]. split; [congruence|]. auto.
Qed.

Lemma extends_write_line (text : string) (w : World) :
  world.extends w (write_line text w).
Proof.
  split.
  - eexists. unfold write_line. cbn [output]. reflexivity.
  - intros address this H. exists this. auto.
Qed.

Lemma extends_alter (g : ClassInstance -> ClassInstance) (self : positive) (w : World) :
  (forall this, class_ (g this) = class_ this
                /\ forall f, is_Some (fields_ this !! f) -> is_Some (fields_ (g this) !! f)) ->
  world.extends w {| instances := alter g self (instances w); output := output w |}.
Proof.
  intros Hg. split.
  - exists ""%string. cbn [output]. rewrite append_nil_r. reflexivity.
  - intros address this H. cbn [instances].
    destruct (decide (address = self)) as [->|Hne].
    + exists (g this). rewrite lookup_alter_eq, H. split; [reflexivity|]. apply Hg.
    + exists this. rewrite lookup_alter_ne by congruence. auto.
Qed.

Lemma extends_touch_field (self : positive) (f : string) (w : World) :
  world.extends w (touch_field self f w).
Proof.
  apply extends_alter. intros this. cbn [class_ fields_]. split; [reflexivity|].
  intros g Hg. destruct (fields_ this !! f) eqn:E; [exact Hg|].
  destruct (decide (g = f)) as [->|Hne].
  - rewrite lookup_insert_eq. eauto.
  - rewrite lookup_insert_ne by congruence. exact Hg.
Qed.

Lemma extends_store_field (self : positive) (f : string) (value : ObjectHolder) (w : World) :
  world.extends w (store_field self f value w).
Proof.
  apply extends_alter. intros this. cbn [class_ fields_]. split; [reflexivity|].
  intros g Hg. destruct (decide (g = f)) as [->|Hne].
  - rewrite lookup_insert_eq. eauto.
  - rewrite lookup_insert_ne by congruence. exact Hg.
Qed.

Lemma keeps_frame_weaken {A} (w w1 : World) (r : Outcome Frame A) :
  world.extends w w1 -> world.keeps_frame w1 r -> world.keeps_frame w r.
Proof.
  intros H. destruct r as [a [c w']|e [c w']| |]; cbn; auto; apply extends_trans, H.
Qed.

Lemma keeps_weaken {A} (w w1 : World) (r : Outcome World A) :
  world.extends w w1 -> world.keeps w1 r -> world.keeps w r.
Proof.
  intros H. destruct r as [a w'|e w'| |]; cbn; auto; apply extends_trans, H.
Qed.

Lemma keeps_frame_bind {A B} (w : World) (r : Outcome Frame A)
      (k : A -> Frame -> Outcome Frame B) :
  world.keeps_frame w r ->
  (forall a c' w', world.keeps_frame w' (k a (c', w'))) ->
  world.keeps_frame w (bind r k).
Proof.
  intros Hr Hk. destruct r as [a [c w']|e [c w']| |]; cbn [bind]; auto.
  exact (keeps_frame_weaken _ _ _ Hr (Hk a c w')).
Qed.

Lemma keeps_bind_world {A B} (w : World) (r : Outcome World A)
      (k : A -> World -> Outcome World B) :
  world.keeps w r ->
  (forall a w', world.keeps w' (k a w')) ->
  world.keeps w (bind r k).
Proof.
  intros Hr Hk. destruct r as [a w'|e w'| |]; cbn [bind]; auto.
  exact (keeps_weaken _ _ _ Hr (Hk a w')).
Qed.

Lemma keeps_enter {A} (w : World) (c : Closure) (r : Outcome World A) :
  world.keeps w r -> world.keeps_frame w (enter c r).
Proof. destruct r; cbn; auto. Qed.

Lemma keeps_leave {A} (w : World) (r : Outcome Frame A) :
  world.keeps_frame w r -> world.keeps w (leave r).
Proof. destruct r as [a [c w']|e [c w']| |]; cbn; auto. Qed.

Section Grows.

Variable exec : Statement -> Closure -> World -> Outcome Frame ObjectHolder.
Hypothesis exec_keeps : forall node c w, world.keeps_frame w (exec node c w).

Lemma ExecuteArgs_keeps (args : list Statement) (c : Closure) (w : World) :
  world.keeps_frame w (ExecuteArgs exec args c w).
Proof.
  revert c w. induction args as [|arg rest IH]; intros c w; cbn [ExecuteArgs].
  - apply extends_refl.
  - apply keeps_frame_bind; [apply exec_keeps|]. intros v c1 w1.
    apply keeps_frame_bind; [apply IH|]. intros vs c2 w2. apply extends_refl.
Qed.

Lemma Call_keeps (self : positive) (method_name : string) (args : list ObjectHolder)
      (w : World) :
  world.keeps w (Call exec self method_name args w).
Proof.
  unfold Call. destruct (instances w !! self) as [this|]; [|exact I].
  destruct (negb (HasMethod this method_name (length args))); [apply extends_refl|].
  destruct (GetMethod (class_ this) method_name) as [method|]; [|exact I].
  destruct (Nat.ltb _ _); [apply extends_refl|].
  apply keeps_leave, exec_keeps.
Qed.

Lemma Print_keeps (depth : nat) (object : Object) (w : World) :
  world.keeps w (Print exec depth object w).
Proof.
  revert object w. induction depth as [|d IH]; intros object w; cbn [Print]; [exact I|].
  destruct object as [v|v|v|cls|this]; try apply extends_refl.
  destruct (instances w !! this) as [self|]; [|exact I].
  destruct (HasMethod self "__str__" 0); [|apply extends_refl].
  apply keeps_bind_world; [apply Call_keeps|].
  intros [object|] w'; [apply IH|exact I].
Qed.

Lemma ComparatorImpl_keeps (lhs rhs : ObjectHolder) (w : World) (cmp : comparator)
      (method_name : string) :
  world.keeps w (ComparatorImpl exec lhs rhs w cmp method_name).
Proof.
  assert (Hd : forall self,
            world.keeps w
              match instances w !! self with
              | Some this =>
                  if HasMethod this method_name 1
                  then bind (Call exec self method_name [rhs] w) unchecked_bool
                  else Throws (runtime_error "Non-comparable objects") w
              | None => Undefined
              end).
  { intros self. destruct (instances w !! self) as [this|]; [|exact I].
    destruct (HasMethod this method_name 1); [|apply extends_refl].
    apply keeps_bind_world; [apply Call_keeps|].
    intros [[v|v|v|v|v]|] w'; cbn; auto using extends_refl. }
  unfold ComparatorImpl.
  destruct lhs as [[l|l|l|l|l]|]; destruct rhs as [[r|r|r|r|r]|];
    try apply extends_refl; apply Hd.
Qed.

Lemma compare_keeps (cmp : ast.Comparator) (lhs rhs : ObjectHolder) (w : World) :
  world.keeps w (compare exec cmp lhs rhs w).
Proof.
  assert (HE : forall w, world.keeps w (Equal exec lhs rhs w)).
  { intros w0. unfold Equal.
    destruct lhs as [l|]; [apply ComparatorImpl_keeps|].
    destruct rhs as [r|]; [apply ComparatorImpl_keeps|apply extends_refl]. }
  assert (HL : forall w, world.keeps w (Less exec lhs rhs w))
    by (intros w0; apply ComparatorImpl_keeps).
  assert (HN : forall w, world.keeps w (NotEqual exec lhs rhs w)).
  { intros w0. unfold NotEqual. apply keeps_bind_world; [apply HE|].
    intros e w'. apply extends_refl. }
  destruct cmp; cbn [compare]; auto.
  - unfold Greater. apply keeps_bind_world; [apply HL|].
    intros l w'. destruct (negb l); [apply HN|apply extends_refl].
  - unfold LessOrEqual. apply keeps_bind_world; [apply HL|].
    intros l w'. destruct l; [apply extends_refl|apply HE].
  - unfold GreaterOrEqual. apply keeps_bind_world; [apply HL|].
    intros l w'. apply extends_refl.
Qed.

Lemma print_holder_keeps (depth : nat) (oh : ObjectHolder) (c : Closure) (w : World) :
  world.keeps_frame w (print_holder exec depth oh c w).
Proof.
  destruct oh as [obj|]; cbn [print_holder]; [|apply extends_refl].
  apply keeps_enter, Print_keeps.
Qed.

Lemma Print_loop_keeps (depth : nat) (args : list Statement) (i : nat) (os : string)
      (c : Closure) (w : World) :
  world.keeps_frame w (Print_loop exec depth args i os c w).
Proof.
  revert i os c w. induction args as [|arg rest IH]; intros i os c w; cbn [Print_loop].
  - apply extends_refl.
  - apply keeps_frame_bind; [apply exec_keeps|]. intros oh c1 w1.
    apply keeps_frame_bind; [apply print_holder_keeps|]. intros text c2 w2. apply IH.
Qed.

Lemma Compound_keeps (statements : list Statement) (c : Closure) (w : World) :
  world.keeps_frame w (Compound_Execute exec statements c w).
Proof.
  revert c w. induction statements as [|st rest IH]; intros c w; cbn [Compound_Execute].
  - apply extends_refl.
  - apply keeps_frame_bind; [apply exec_keeps|]. intros v c1 w1. apply IH.
Qed.

Lemma BinaryOperation_keeps (lhs rhs : Statement)
      (op : ObjectHolder -> ObjectHolder -> Closure -> World -> Outcome Frame ObjectHolder)
      (c : Closure) (w : World) :
  (forall l r c w, world.keeps_frame w (op l r c w)) ->
  world.keeps_frame w (BinaryOperation exec lhs rhs op c w).
Proof.
  intros Hop. unfold BinaryOperation.
  apply keeps_frame_bind; [apply exec_keeps|]. intros l c1 w1.
  apply keeps_frame_bind; [apply exec_keeps|]. intros r c2 w2. apply Hop.
Qed.

End Grows.

Lemma Execute_keeps (n : nat) (node : Statement) (c : Closure) (w : World) :
  world.keeps_frame w (Execute n node c w).
Proof.
  revert node c w. induction n as [|n IH]; intros node c w; [exact I|].
  destruct node; cbn [Execute].
  - apply extends_refl.
  - apply extends_refl.
  - apply extends_refl.
  - apply extends_refl.
  - pose proof (VariableValue_Execute_frame dotted_ids_ c w) as H.
    destruct (VariableValue_Execute dotted_ids_ c w) as [v f|e f| |]; cbn; auto.
    + rewrite H. apply extends_refl.
    + destruct H as [-> _]. apply extends_refl.
  - unfold Assignment_Execute. apply keeps_frame_bind; [apply IH|].
    intros v c1 w1. apply extends_refl.
  - unfold FieldAssignment_Execute.
    pose proof (VariableValue_Execute_frame object_ c w) as H.
    destruct (VariableValue_Execute object_ c w) as [obj f|e f| |]; cbn [bind];
      try exact I.
    + subst f. destruct obj as [[v|v|v|v|self]|]; try apply extends_refl.
      destruct (instances w !! self); [|exact I].
      apply (keeps_frame_weaken _ _ _ (extends_touch_field self field_name_ w)).
      apply keeps_frame_bind; [apply IH|]. intros v c1 w1. apply extends_store_field.
    + destruct H as [-> _]. apply extends_refl.
  - unfold Print_Execute. apply keeps_frame_bind; [apply Print_loop_keeps, IH|].
    intros os c1 w1. apply extends_write_line.
  - unfold MethodCall_Execute. apply keeps_frame_bind; [apply IH|].
    intros obj c1 w1. destruct obj as [[v|v|v|v|self]|]; try apply extends_refl.
    destruct (instances w1 !! self) as [this|]; [|exact I].
    destruct (negb _); [apply extends_refl|].
    apply keeps_frame_bind; [apply ExecuteArgs_keeps, IH|].
    intros vs c2 w2. apply keeps_enter, Call_keeps, IH.
  - unfold NewInstance_Execute. destruct (instances w !! class_instance_); [|exact I].
    destruct (HasMethod _ _ _); [|apply extends_refl].
    apply keeps_frame_bind; [apply ExecuteArgs_keeps, IH|].
    intros vs c1 w1. apply keeps_frame_bind; [apply keeps_enter, Call_keeps, IH|].
    intros r c2 w2. apply extends_refl.
  - unfold Stringify_Execute. apply keeps_frame_bind; [apply IH|].
    intros oh c1 w1. destruct (outlives_holder _ oh); [|exact I].
    apply keeps_frame_bind; [apply print_holder_keeps, IH|].
    intros out c2 w2. apply extends_refl.
  - apply BinaryOperation_keeps; [apply IH|]. intros l r c0 w0. unfold Add_op.
    assert (Hd : forall self, world.keeps_frame w0
              match instances w0 !! self with
              | Some this =>
                  if HasMethod this ADD_METHOD 1
                  then enter c0 (Call (Execute n) self ADD_METHOD [r] w0)
                  else Throws (runtime_error "Add::Execute is failed") (c0, w0)
              | None => Undefined
              end).
    { intros self. destruct (instances w0 !! self); [|exact I].
      destruct (HasMethod _ _ _); [|apply extends_refl].
      apply keeps_enter, Call_keeps, IH. }
    destruct l as [[l|l|l|l|l]|]; destruct r as [[r|r|r|r|r]|];
      try apply extends_refl; apply Hd.
  - apply BinaryOperation_keeps; [apply IH|]. intros l r c0 w0. unfold Sub_op.
    destruct l as [[l|l|l|l|l]|]; destruct r as [[r|r|r|r|r]|]; apply extends_refl.
  - apply BinaryOperation_keeps; [apply IH|]. intros l r c0 w0. unfold Mult_op.
    destruct l as [[l|l|l|l|l]|]; destruct r as [[r|r|r|r|r]|]; apply extends_refl.
  - apply BinaryOperation_keeps; [apply IH|]. intros l r c0 w0. unfold Div_op.
    destruct l as [[l|l|l|l|l]|]; destruct r as [[r|r|r|r|r]|]; try apply extends_refl.
    destruct (r =? 0); [apply extends_refl|].
    destruct ((l =? -2147483648) && (r =? -1)); [exact I|apply extends_refl].
  - unfold Or_Execute. apply keeps_frame_bind; [apply IH|]. intros l c1 w1.
    destruct (is_true_bool l); [apply extends_refl|].
    apply keeps_frame_bind; [apply IH|]. intros r c2 w2.
    destruct (is_true_bool r); apply extends_refl.
  - unfold And_Execute. apply keeps_frame_bind; [apply IH|]. intros l c1 w1.
    destruct (negb (is_true_bool l)); [apply extends_refl|].
    apply keeps_frame_bind; [apply IH|]. intros r c2 w2.
    destruct (negb (is_true_bool r)); apply extends_refl.
  - unfold Not_Execute. apply keeps_frame_bind; [apply IH|]. intros v c1 w1.
    destruct v as [[v|v|v|v|v]|]; apply extends_refl.
  - apply Compound_keeps, IH.
  - unfold MethodBody_Execute. specialize (IH node c w).
    destruct (Execute n node c w) as [v [c1 w1]|[what|v] [c1 w1]| |]; exact IH.
  - unfold Return_Execute. apply keeps_frame_bind; [apply IH|].
    intros v c1 w1. apply extends_refl.
  - unfold ClassDefinition_Execute.
    match goal with |- context [match ?cls with _ => _ end] =>
      destruct cls as [[v|v|v|cls|v]|] end; try exact I.
    destruct (String.eqb _ _); apply extends_refl.
  - unfold IfElse_Execute. apply keeps_frame_bind; [apply IH|]. intros v c1 w1.
    destruct v as [[v|v|b|v|v]|]; try apply extends_refl.
    destruct b; [apply IH|]. destruct else_body_; [apply IH|apply extends_refl].
  - apply BinaryOperation_keeps; [apply IH|]. intros l r c0 w0. unfold Comparison_op.
    apply keeps_frame_bind; [apply keeps_enter, compare_keeps, IH|].
    intros b c1 w1. apply extends_refl.
Qed.

(** X16: execution only adds to the world. Whatever node is executed, and
    whether it returns or throws: the output it leaves starts with the
    output it found, every instance it found is still there, of the same
    class, and has kept every field it had. *)
Theorem Execute_only_extends_the_world
        (n : nat) (node : Statement) (closure : Closure) (context : World)
        (outcome : ObjectHolder + Thrown) (closure' : Closure) (context' : World) :
  Execute n node closure context
    = match outcome with
      | inl value => Returns value (closure', context')
      | inr e => Throws e (closure', context')
      end ->
  (exists more, output context' = (output context +:+ more)%string)
  /\ forall address this,
       instances context !! address = Some this ->
       exists this', instances context' !! address = Some this'
                     /\ class_ this' = class_ this
                     /\ forall f, is_Some (fields_ this !! f) -> is_Some (fields_ this' !! f).
Proof.
  intros H. pose proof (Execute_keeps n node closure context) as K. rewrite H in K.
  destruct outcome; exact K.
Qed.

Lemma Execute_only_extends_the_world_witness :
  (exists more, output samples.loud_said_hi = (output samples.loud_world +:+ more)%string)
  /\ forall address this,
       instances samples.loud_world !! address = Some this ->
       exists this', instances samples.loud_said_hi !! address = Some this'
                     /\ class_ this' = class_ this
                     /\ forall f, is_Some (fields_ this !! f) -> is_Some (fields_ this' !! f).
Proof.
  assert (H : Execute 6 (ast.Stringify (ast.VariableValue ["p"]))
                samples.p_is_loud samples.loud_world
              = Returns (Some (ast.String "p")) (samples.p_is_loud, samples.loud_said_hi))
    by (vm_compute; reflexivity).
  exact (Execute_only_extends_the_world 6 (ast.Stringify (ast.VariableValue ["p"]))
           samples.p_is_loud samples.loud_world (inl (Some (ast.String "p")))
           samples.p_is_loud samples.loud_said_hi H).
Defined.


(** ** Comparisons *)

Lemma string_compare_refl (r : string) : String.compare r r = Eq.
Proof.
  pose proof (String.compare_antisym r r) as H.
  destruct (String.compare r r); try reflexivity; discriminate H.
Qed.

Lemma string_trichotomy (l r : string) :
  negb (String.ltb l r) && negb (String.eqb l r) = String.ltb r l.
Proof.
  unfold String.ltb. rewrite (String.compare_antisym r l).
  destruct (String.compare l r) eqn:E; cbn.
  - apply String.compare_eq_iff in E. subst. rewrite String.eqb_refl. reflexivity.
  - reflexivity.
  - destruct (String.eqb l r) eqn:Q; [|reflexivity].
    apply String.eqb_eq in Q. subst.
    pose proof (string_compare_refl r). congruence.
Qed.

Lemma string_lt_irrefl (l r : string) :
  String.ltb l r = true -> String.eqb l r = false /\ String.ltb r l = false.
Proof.
  unfold String.ltb. rewrite (String.compare_antisym r l).
  destruct (String.compare l r) eqn:E; try discriminate. intros _. split; [|reflexivity].
  destruct (String.eqb l r) eqn:Q; [|reflexivity].
  apply String.eqb_eq in Q. subst.
  pose proof (string_compare_refl r). congruence.
Qed.

(** X17: on two numbers, two strings or two booleans the comparators are the
    relations of one total order and leave the context alone: exactly one of
    [Less(a,b)], [Equal(a,b)], [Less(b,a)] holds, [Equal] holds exactly of
    equal values, [Greater(a,b)] is [Less(b,a)], [LessOrEqual(a,b)] is
    [!Less(b,a)], [GreaterOrEqual(a,b)] is [!Less(a,b)] and [NotEqual] is
    [!Equal]; no method of any class is called. *)
Theorem comparators_on_primitives
        (exec : Executable -> Closure -> World -> Outcome (Closure * World) ObjectHolder)
        (a b : ObjectHolder) (context : World) :
  values.same_primitive a b = true ->
  exists less equal greater : bool,
    Less exec a b context = Returns less context
    /\ Equal exec a b context = Returns equal context
    /\ Less exec b a context = Returns greater context
    /\ (equal = true <-> a = b)
    /\ (less = true /\ equal = false /\ greater = false
        \/ less = false /\ equal = true /\ greater = false
        \/ less = false /\ equal = false /\ greater = true)
    /\ Greater exec a b context = Returns greater context
    /\ LessOrEqual exec a b context = Returns (negb greater) context
    /\ GreaterOrEqual exec a b context = Returns (negb less) context
    /\ NotEqual exec a b context = Returns (negb equal) context.
Proof.
  intros Hk.
  destruct a as [[l|l|l|l|l]|]; destruct b as [[r|r|r|r|r]|]; try discriminate Hk.
  - exists (l <? r), (l =? r), (r <? l).
    unfold Greater, LessOrEqual, GreaterOrEqual, NotEqual, Less, Equal, ComparatorImpl.
    cbn [bind on_int less_comparator eq_comparator].
    repeat split; try (intros H; first [apply Z.eqb_eq in H; congruence
                                       | injection H as ->; apply Z.eqb_refl]).
    + destruct (Z.ltb_spec l r), (Z.eqb_spec l r), (Z.ltb_spec r l); try lia; auto.
    + destruct (Z.ltb_spec l r), (Z.eqb_spec l r), (Z.ltb_spec r l); try lia; reflexivity.
    + destruct (Z.ltb_spec l r), (Z.eqb_spec l r), (Z.ltb_spec r l); try lia; reflexivity.
  - exists (String.ltb l r), (String.eqb l r), (String.ltb r l).
    unfold Greater, LessOrEqual, GreaterOrEqual, NotEqual, Less, Equal, ComparatorImpl.
    cbn [bind on_string less_comparator eq_comparator].
    pose proof (string_trichotomy l r) as T.
    pose proof (string_lt_irrefl l r) as I1.
    assert (Heq : String.eqb l r = true <-> Some (ast.String l) = Some (ast.String r)).
    { rewrite String.eqb_eq. split; congruence. }
    set (lt := String.ltb l r) in *. set (eq := String.eqb l r) in *.
    set (gt := String.ltb r l) in *. clearbody lt eq gt.
    destruct lt, eq, gt; cbn in T; try discriminate T;
      try (destruct (I1 eq_refl); discriminate);
      repeat split; auto; try apply Heq; try (intros H; apply Heq in H; discriminate H).
  - exists (negb l && r), (Bool.eqb l r), (negb r && l).
    unfold Greater, LessOrEqual, GreaterOrEqual, NotEqual, Less, Equal, ComparatorImpl.
    cbn [bind on_bool less_comparator eq_comparator].
    destruct l, r; cbn; repeat split; auto; try discriminate; try (intros [= H]; discriminate H).
Qed.

Lemma comparators_on_primitives_witness :
  exists less equal greater : bool,
    Less (Execute 1) (Some (ast.String "ab")) (Some (ast.String "b")) samples.no_world
      = Returns less samples.no_world
    /\ Equal (Execute 1) (Some (ast.String "ab")) (Some (ast.String "b")) samples.no_world
       = Returns equal samples.no_world
    /\ Less (Execute 1) (Some (ast.String "b")) (Some (ast.String "ab")) samples.no_world
       = Returns greater samples.no_world
    /\ (equal = true <-> Some (ast.String "ab") = Some (ast.String "b"))
    /\ (less = true /\ equal = false /\ greater = false
        \/ less = false /\ equal = true /\ greater = false
        \/ less = false /\ equal = false /\ greater = true)
    /\ Greater (Execute 1) (Some (ast.String "ab")) (Some (ast.String "b")) samples.no_world
       = Returns greater samples.no_world
    /\ LessOrEqual (Execute 1) (Some (ast.String "ab")) (Some (ast.String "b"))
                   samples.no_world
       = Returns (negb greater) samples.no_world
    /\ GreaterOrEqual (Execute 1) (Some (ast.String "ab")) (Some (ast.String "b"))
                      samples.no_world
       = Returns (negb less) samples.no_world
    /\ NotEqual (Execute 1) (Some (ast.String "ab")) (Some (ast.String "b")) samples.no_world
       = Returns (negb equal) samples.no_world.
Proof.
  exact (comparators_on_primitives (Execute 1) (Some (ast.String "ab"))
           (Some (ast.String "b")) samples.no_world eq_refl).
Defined.

(** X18: operands the comparators cannot compare. When the left operand is
    not a class instance and the two are not both numbers, both strings or
    both booleans, [Less] throws "Non-comparable objects"; so does [Equal],
    except for two empty holders, which are equal. A number is thus not
    comparable with [None], nor a class with itself. *)
Theorem comparators_reject_mixed_operands
        (exec : Executable -> Closure -> World -> Outcome (Closure * World) ObjectHolder)
        (a b : ObjectHolder) (context : World) :
  values.is_instance a = false ->
  values.same_primitive a b = false ->
  Less exec a b context = Throws (runtime_error "Non-comparable objects") context
  /\ Equal exec a b context
     = match a, b with
       | None, None => Returns true context
       | _, _ => Throws (runtime_error "Non-comparable objects") context
       end.
Proof.
  intros Hi Hk.
  destruct a as [[l|l|l|l|l]|]; destruct b as [[r|r|r|r|r]|];
    try discriminate Hk; try discriminate Hi; split; reflexivity.
Qed.

Lemma comparators_reject_mixed_operands_witness :
  Less (Execute 1) (Some (ast.Number 1)) None samples.no_world
    = Throws (runtime_error "Non-comparable objects") samples.no_world
  /\ Equal (Execute 1) (Some (ast.Number 1)) None samples.no_world
     = Throws (runtime_error "Non-comparable objects") samples.no_world.
Proof.
  exact (comparators_reject_mixed_operands (Execute 1) (Some (ast.Number 1)) None
           samples.no_world eq_refl eq_refl).
Defined.


(** ** Fields, printing and arithmetic *)

(** X19: after [o.f = e] the path [o.f] gives the value of [e], provided [e]
    left [o] bound to the instance and [f] is not the name [o] itself. When
    [f] is the name [o], the statement rebinds [o]: afterwards [o] is the
    value, not the instance. *)
Theorem FieldAssignment_then_lookup
        (n m : nat) (o f : string) (e : Statement) (closure : Closure) (context : World)
        (self : positive) (this : ClassInstance)
        (value : ObjectHolder) (closure1 : Closure) (context1 : World) :
  closure !! o = Some (Some (ast.InstancePtr self)) ->
  instances context !! self = Some this ->
  Execute n e closure (touch_field self f context) = Returns value (closure1, context1) ->
  exists closure2 context2,
    Execute (S n) (ast.FieldAssignment [o] f e) closure context
      = Returns value (closure2, context2)
    /\ (f <> o -> closure1 !! o = Some (Some (ast.InstancePtr self)) ->
        Execute (S m) (ast.VariableValue [o; f]) closure2 context2
          = Returns value (closure2, context2))
    /\ (f = o ->
        Execute (S m) (ast.VariableValue [o]) closure2 context2
          = Returns value (closure2, context2)).
Proof.
  intros Ho Hthis He.
  assert (Hthis1 : exists this1, instances context1 !! self = Some this1).
  { pose proof (Execute_keeps n e closure (touch_field self f context)) as K.
    rewrite He in K. destruct K as [_ K].
    destruct (extends_touch_field self f context) as [_ T].
    destruct (T _ _ Hthis) as (this0 & H0 & _).
    destruct (K _ _ H0) as (this1 & H1 & _). eauto. }
  destruct Hthis1 as [this1 Hthis1].
  exists (<[f := value]> closure1), (store_field self f value context1).
  split; [|split].
  - cbn [Execute]. unfold FieldAssignment_Execute, VariableValue_Execute.
    cbn [VariableValue_loop]. unfold ObjectHolder in *. rewrite Ho. cbn [bind].
    rewrite Hthis, He. reflexivity.
  - intros Hne Ho1.
    rewrite (VariableValue_two m (<[f := value]> closure1)
               (store_field self f value context1) o f self
               {| class_ := class_ this1;
                  fields_ := <[f := value]> (fields_ this1) |}).
    + cbn [fields_]. rewrite lookup_insert_eq. reflexivity.
    + rewrite lookup_insert_ne by exact Hne. exact Ho1.
    + unfold store_field. cbn [instances]. rewrite lookup_alter_eq, Hthis1. reflexivity.
  - intros ->.
    rewrite VariableValue_one, lookup_insert_eq. reflexivity.
Qed.

Lemma FieldAssignment_then_lookup_witness :
  exists closure2 context2,
    Execute 2 (ast.FieldAssignment ["self"] "v" (ast.NumericConst 3))
            samples.self_is_1 samples.box_world
      = Returns (Some (ast.Number 3)) (closure2, context2)
    /\ Execute 1 (ast.VariableValue ["self"; "v"]) closure2 context2
       = Returns (Some (ast.Number 3)) (closure2, context2).
Proof.
  destruct (FieldAssignment_then_lookup 1 0 "self" "v" (ast.NumericConst 3)
              samples.self_is_1 samples.box_world 1
              {| class_ := samples.Box; fields_ := ∅ |}
              (Some (ast.Number 3)) samples.self_is_1
              (touch_field 1 "v" samples.box_world) eq_refl eq_refl eq_refl)
    as (closure2 & context2 & H1 & H2 & _).
  exists closure2, context2. split; [exact H1|].
  apply H2; [discriminate|reflexivity].
Defined.

(** X20: [print x] writes the text [str(x)] returns, then a line feed, and
    returns that text; [print x, y] writes the two texts with one space
    between them. *)
Theorem Print_writes_what_Stringify_returns
        (n : nat) (x y : Statement) (closure : Closure) (context : World)
        (tx : string) (closure1 : Closure) (context1 : World) :
  Execute (S n) (ast.Stringify x) closure context
    = Returns (Some (ast.String tx)) (closure1, context1) ->
  Execute (S n) (ast.Print [x]) closure context
    = Returns (Some (ast.String tx)) (closure1, write_line tx context1)
  /\ output (write_line tx context1)
     = (output context1 +:+ tx +:+ String.String "010" EmptyString)%string
  /\ forall ty closure2 context2,
       Execute (S n) (ast.Stringify y) closure1 context1
         = Returns (Some (ast.String ty)) (closure2, context2) ->
       Execute (S n) (ast.Print [x; y]) closure context
         = Returns (Some (ast.String (tx +:+ " " +:+ ty)))
                   (closure2, write_line (tx +:+ " " +:+ ty) context2).
Proof.
  cbn [Execute]. unfold Stringify_Execute, Print_Execute. cbn [Print_loop Nat.eqb].
  destruct (Execute n x closure context) as [vx [cx wx]| | |]; cbn [bind]; try discriminate.
  destruct (outlives_holder x vx); try discriminate.
  destruct (print_holder (Execute n) n vx cx wx) as [sx [c1 w1]| | |]; cbn [bind];
    try discriminate.
  intros [= -> -> ->]. split; [reflexivity|]. split; [reflexivity|].
  intros ty closure2 context2.
  destruct (Execute n y closure1 context1) as [vy [cy wy]| | |]; cbn [bind]; try discriminate.
  destruct (outlives_holder y vy); try discriminate.
  destruct (print_holder (Execute n) n vy cy wy) as [sy [c2 w2]| | |]; cbn [bind];
    try discriminate.
  intros [= -> -> ->].
  change (EmptyString +:+ tx)%string with tx.
  rewrite append_assoc. reflexivity.
Qed.

Lemma Print_writes_what_Stringify_returns_witness :
  Execute 3 (ast.Print [ast.VariableValue ["x"]; ast.VariableValue ["y"]])
          samples.number_x_and_y samples.no_world
    = Returns (Some (ast.String "5 7"))
              (samples.number_x_and_y, write_line "5 7" samples.no_world).
Proof.
  exact (proj2 (proj2 (Print_writes_what_Stringify_returns 2 (ast.VariableValue ["x"])
                         (ast.VariableValue ["y"]) samples.number_x_and_y samples.no_world
                         "5" samples.number_x_and_y samples.no_world eq_refl))
               "7"%string samples.number_x_and_y samples.no_world eq_refl).
Defined.

(** X21: a method call on something that is not a class instance, or on an
    instance whose class has no method of that name with that many
    parameters, throws a [runtime_error] in the closure and world the
    receiver's evaluation left: the arguments are not executed. *)
Theorem MethodCall_rejects_before_arguments
        (n : nat) (object : Statement) (method : string) (args : list Statement)
        (closure : Closure) (context : World)
        (obj : ObjectHolder) (closure1 : Closure) (context1 : World) :
  Execute n object closure context = Returns obj (closure1, context1) ->
  (values.is_instance obj = false ->
     Execute (S n) (ast.MethodCall object method args) closure context
       = Throws (runtime_error "MethodCall::Execute. The object is not a custom type")
                (closure1, context1))
  /\ (forall self this,
        obj = Some (ast.InstancePtr self) ->
        instances context1 !! self = Some this ->
        HasMethod this method (length args) = false ->
        exists what,
          Execute (S n) (ast.MethodCall object method args) closure context
            = Throws (runtime_error what) (closure1, context1)).
Proof.
  intros Hobj. split.
  - intros Hi. cbn [Execute]. unfold MethodCall_Execute. rewrite Hobj. cbn [bind].
    destruct obj as [[v|v|v|v|v]|]; try reflexivity. discriminate Hi.
  - intros self this -> Hthis Hno. cbn [Execute]. unfold MethodCall_Execute.
    rewrite Hobj. cbn [bind]. rewrite Hthis, Hno. cbn [negb]. eauto.
Qed.

Lemma MethodCall_rejects_before_arguments_witness :
  exists what,
    Execute 2 (ast.MethodCall (ast.VariableValue ["self"]) "area"
                 [ast.Assignment "seen" (ast.NumericConst 1)])
            samples.self_is_1 samples.box_world
      = Throws (runtime_error what) (samples.self_is_1, samples.box_world).
Proof.
  exact (proj2 (MethodCall_rejects_before_arguments 1 (ast.VariableValue ["self"]) "area"
                  [ast.Assignment "seen" (ast.NumericConst 1)]
                  samples.self_is_1 samples.box_world (Some (ast.InstancePtr 1))
                  samples.self_is_1 samples.box_world eq_refl)
               1%positive {| class_ := samples.Box; fields_ := ∅ |} eq_refl eq_refl eq_refl).
Defined.

Lemma wrap_int_fits (z : Z) : values.fits_int z = true -> wrap_int z = z.
Proof.
  unfold values.fits_int, wrap_int. intros H. apply andb_true_iff in H as [H1 H2].
  apply Z.leb_le in H1, H2. rewrite Z.mod_small; lia.
Qed.

(** X22: arithmetic on two numbers. When the exact result fits an [int], [+],
    [-] and [*] give it; [/] gives the quotient rounded towards zero, and
    throws a [runtime_error] when the divisor is zero; [-x], which the parser
    builds as [x * -1], gives the opposite. The operands are executed left
    first, and the closure and world are those the right one left. *)
Theorem arithmetic_on_numbers
        (n : nat) (lhs rhs : Statement) (closure : Closure) (context : World)
        (l r : Z) (closure1 : Closure) (context1 : World) (frame : Frame) :
  Execute n lhs closure context = Returns (Some (ast.Number l)) (closure1, context1) ->
  Execute n rhs closure1 context1 = Returns (Some (ast.Number r)) frame ->
  (values.fits_int (l + r) = true ->
     Execute (S n) (ast.Add lhs rhs) closure context
       = Returns (Some (ast.Number (l + r))) frame)
  /\ (values.fits_int (l - r) = true ->
      Execute (S n) (ast.Sub lhs rhs) closure context
        = Returns (Some (ast.Number (l - r))) frame)
  /\ (values.fits_int (l * r) = true ->
      Execute (S n) (ast.Mult lhs rhs) closure context
        = Returns (Some (ast.Number (l * r))) frame)
  /\ (r <> 0 -> values.fits_int (Z.quot l r) = true ->
      Execute (S n) (ast.Div lhs rhs) closure context
        = Returns (Some (ast.Number (Z.quot l r))) frame)
  /\ (r = 0 ->
      Execute (S n) (ast.Div lhs rhs) closure context
        = Throws (runtime_error "Div::Execute is failed") frame)
  /\ (values.fits_int (- l) = true ->
      Execute (S n) (ast.Mult lhs (ast.NumericConst (-1))) closure context
        = Returns (Some (ast.Number (- l))) (closure1, context1)).
Proof.
  intros Hl Hr. destruct frame as [closure2 context2].
  repeat split.
  - intros H. cbn [Execute]. unfold BinaryOperation. rewrite Hl. cbn [bind].
    rewrite Hr. cbn [bind Add_op]. rewrite (wrap_int_fits _ H). reflexivity.
  - intros H. cbn [Execute]. unfold BinaryOperation. rewrite Hl. cbn [bind].
    rewrite Hr. cbn [bind Sub_op]. rewrite (wrap_int_fits _ H). reflexivity.
  - intros H. cbn [Execute]. unfold BinaryOperation. rewrite Hl. cbn [bind].
    rewrite Hr. cbn [bind Mult_op]. rewrite (wrap_int_fits _ H). reflexivity.
  - intros Hz H. cbn [Execute]. unfold BinaryOperation. rewrite Hl. cbn [bind].
    rewrite Hr. cbn [bind Div_op]. destruct (Z.eqb_spec r 0); [contradiction|].
    destruct (Z.eqb_spec l (-2147483648)) as [->|_];
      [destruct (Z.eqb_spec r (-1)) as [->|_]; [discriminate H|]|];
      cbn [andb]; rewrite (wrap_int_fits _ H); reflexivity.
  - intros ->. cbn [Execute]. unfold BinaryOperation. rewrite Hl. cbn [bind].
    rewrite Hr. reflexivity.
  - intros H. destruct n as [|k]; [discriminate Hl|].
    change (BinaryOperation (Execute (S k)) lhs (ast.NumericConst (-1)) Mult_op
              closure context
            = Returns (Some (ast.Number (- l))) (closure1, context1)).
    unfold BinaryOperation. rewrite Hl. cbn [bind].
    change (Execute (S k) (ast.NumericConst (-1)) closure1 context1)
      with (Returns (Some (ast.Number (-1))) (closure1, context1)
            : Outcome Frame ObjectHolder).
    cbn [bind Mult_op]. replace (l * -1) with (- l) by lia.
    rewrite (wrap_int_fits _ H). reflexivity.
Qed.

Lemma arithmetic_on_numbers_witness :
  Execute 2 (ast.Div (ast.NumericConst (-7)) (ast.NumericConst 2)) ∅ samples.no_world
    = Returns (Some (ast.Number (-3))) (∅, samples.no_world).
Proof.
  exact (proj1 (proj2 (proj2 (proj2
           (arithmetic_on_numbers 1 (ast.NumericConst (-7)) (ast.NumericConst 2)
              ∅ samples.no_world (-7) 2 ∅ samples.no_world (∅, samples.no_world)
              eq_refl eq_refl))))
           ltac:(lia) eq_refl).
Defined.

(** X23: [if] takes a [Bool] and nothing else: on [True] the result is what
    the first body gives, on [False] what the else body gives, or the empty
    holder in the closure and world the condition left when there is no else
    body; a
    condition of any other value, a number or the empty holder included,
    throws a [runtime_error] and runs neither body. *)
Theorem IfElse_runs_one_body
        (n : nat) (condition if_body : Statement) (else_body : option Statement)
        (closure : Closure) (context : World)
        (value : ObjectHolder) (closure1 : Closure) (context1 : World) :
  Execute n condition closure context = Returns value (closure1, context1) ->
  Execute (S n) (ast.IfElse condition if_body else_body) closure context
  = match value with
    | Some (ast.Bool true) => Execute n if_body closure1 context1
    | Some (ast.Bool false) =>
        match else_body with
        | Some body => Execute n body closure1 context1
        | None => Returns None (closure1, context1)
        end
    | _ => Throws (runtime_error "Execute is failed") (closure1, context1)
    end.
Proof.
  intros Hc. cbn [Execute]. unfold IfElse_Execute. rewrite Hc. cbn [bind].
  destruct value as [[v|v|[]|v|v]|]; reflexivity.
Qed.

Lemma IfElse_runs_one_body_witness :
  Execute 2 (ast.IfElse (ast.NumericConst 1) (ast.Assignment "seen" (ast.NumericConst 1))
                        None) ∅ samples.no_world
    = Throws (runtime_error "Execute is failed") (∅, samples.no_world).
Proof.
  exact (IfElse_runs_one_body 1 (ast.NumericConst 1)
           (ast.Assignment "seen" (ast.NumericConst 1)) None ∅ samples.no_world
           (Some (ast.Number 1)) ∅ samples.no_world eq_refl).
Defined.


(** X24: a class definition binds the class under its name: afterwards the
    name gives the class, and [str] of it is the word [Class] and the name.
    A class with an empty name throws a [runtime_error] instead. *)
Theorem ClassDefinition_then_lookup (n m : nat) (cls : Class)
        (closure : Closure) (context : World) :
  (name_ cls <> ""%string ->
   exists closure', 
     Execute (S n) (ast.ClassDefinition (Some (ast.ClassObject cls))) closure context
       = Returns (Some (ast.ClassObject cls)) (closure', context)
     /\ Execute (S m) (ast.VariableValue [name_ cls]) closure' context
        = Returns (Some (ast.ClassObject cls)) (closure', context)
     /\ Execute (S (S m)) (ast.Stringify (ast.VariableValue [name_ cls])) closure' context
        = Returns (Some (ast.String ("Class " +:+ name_ cls))) (closure', context))
  /\ (name_ cls = ""%string ->
      Execute (S n) (ast.ClassDefinition (Some (ast.ClassObject cls))) closure context
        = Throws (runtime_error "Class name must not be empty") (closure, context)).
Proof.
  split.
  - intros Hname. exists (<[name_ cls := Some (ast.ClassObject cls)]> closure).
    assert (Hlook : forall k,
              Execute (S k) (ast.VariableValue [name_ cls])
                      (<[name_ cls := Some (ast.ClassObject cls)]> closure) context
              = Returns (Some (ast.ClassObject cls))
                        (<[name_ cls := Some (ast.ClassObject cls)]> closure, context)).
    { intros k.
      rewrite VariableValue_one, lookup_insert_eq. reflexivity. }
    split; [|split].
    + cbn [Execute]. unfold ClassDefinition_Execute.
      destruct (String.eqb_spec (name_ cls) ""); [contradiction|reflexivity].
    + apply Hlook.
    + change (Stringify_Execute (Execute (S m)) (S m) (ast.VariableValue [name_ cls])
                (<[name_ cls := Some (ast.ClassObject cls)]> closure) context
              = Returns (Some (ast.String ("Class " +:+ name_ cls)))
                        (<[name_ cls := Some (ast.ClassObject cls)]> closure, context)).
      unfold Stringify_Execute. rewrite Hlook. reflexivity.
  - intros Hname. cbn [Execute]. unfold ClassDefinition_Execute. rewrite Hname. reflexivity.
Qed.

Lemma ClassDefinition_then_lookup_witness :
  exists closure',
    Execute 1 (ast.ClassDefinition (Some (ast.ClassObject samples.Box))) ∅ samples.no_world
      = Returns (Some (ast.ClassObject samples.Box)) (closure', samples.no_world)
    /\ Execute 1 (ast.VariableValue ["Box"]) closure' samples.no_world
       = Returns (Some (ast.ClassObject samples.Box)) (closure', samples.no_world)
    /\ Execute 2 (ast.Stringify (ast.VariableValue ["Box"])) closure' samples.no_world
       = Returns (Some (ast.String "Class Box")) (closure', samples.no_world).
Proof.
  exact (proj1 (ClassDefinition_then_lookup 0 0 samples.Box ∅ samples.no_world)
               ltac:(discriminate)).
Defined.

(** X25: when [__str__] returns nothing, printing the instance dereferences
    the empty holder ([AssertIsValid] in [operator->]): [str(x)] and
    [print x] are undefined, not an error the program could see. *)
Theorem str_method_without_value_is_undefined
        (n : nat) (x : Statement) (closure : Closure) (context : World)
        (self : positive) (this : ClassInstance)
        (closure1 : Closure) (context1 context2 : World) :
  Execute n x closure context = Returns (Some (ast.InstancePtr self)) (closure1, context1) ->
  instances context1 !! self = Some this ->
  HasMethod this "__str__" 0 = true ->
  Call (Execute n) self "__str__" [] context1 = Returns None context2 ->
  Execute (S n) (ast.Stringify x) closure context = Undefined
  /\ Execute (S n) (ast.Print [x]) closure context = Undefined.
Proof.
  intros Hx Hthis Hhas Hcall.
  destruct n as [|k]; [discriminate Hx|].
  assert (Hp : print_holder (Execute (S k)) (S k) (Some (ast.InstancePtr self))
                 closure1 context1 = (Undefined : Outcome Frame string)).
  { cbn [print_holder Print]. rewrite Hthis, Hhas, Hcall. reflexivity. }
  split.
  - change (Stringify_Execute (Execute (S k)) (S k) x closure context = Undefined).
    unfold Stringify_Execute. rewrite Hx. cbn [bind outlives_holder]. rewrite Hp.
    reflexivity.
  - change (Print_Execute (Execute (S k)) (S k) [x] closure context = Undefined).
    unfold Print_Execute. cbn [Print_loop]. rewrite Hx. cbn [bind]. rewrite Hp. reflexivity.
Qed.

Lemma str_method_without_value_is_undefined_witness :
  Execute 4 (ast.Stringify (ast.VariableValue ["self"]))
          samples.self_is_1 more_samples.mute_world = Undefined
  /\ Execute 4 (ast.Print [ast.VariableValue ["self"]])
             samples.self_is_1 more_samples.mute_world = Undefined.
Proof.
  exact (str_method_without_value_is_undefined 3 (ast.VariableValue ["self"])
           samples.self_is_1 more_samples.mute_world 1
           {| class_ := more_samples.Mute; fields_ := ∅ |}
           samples.self_is_1 more_samples.mute_world more_samples.mute_world
           eq_refl eq_refl eq_refl eq_refl).
Defined.

(** ** Properties of the parser *)

Lemma is_char_true (t : parser.Token) (c : ascii) :
  parser.is_char t c = true -> t = token_type.Char c.
Proof.
  destruct t; cbn; try discriminate.
  intros H. apply Ascii.eqb_eq in H. congruence.
Qed.

Lemma depth_take_S (ts : list parser.Token) (i : nat) (t : parser.Token) :
  ts !! i = Some t ->
  lexer.depth (take (S i) ts) = lexer.depth (take i ts) + grammar.delta t.
Proof.
  intros H. rewrite (take_S_r _ _ _ H), depth_snoc. reflexivity.
Qed.

Lemma every_snoc {A : Type} (P : A -> Prop) (l : list A) (x : A) :
  grammar.every P (l ++ [x])%list <-> grammar.every P l /\ P x.
Proof.
  unfold grammar.every. induction l as [|y l IH]; cbn [app fold_right]; tauto.
Qed.

Section Parsing.

Import parser grammar.

Variable ts : list Token.
Variable body : list Token.
Hypothesis ts_body : ts = (body ++ [token_type.Eof])%list.

Lemma not_last (i : nat) (t : Token) :
  ts !! i = Some t -> t <> token_type.Eof -> (S i < length ts)%nat.
Proof.
  intros H Hne. pose proof (lookup_lt_Some _ _ _ H) as Hlt.
  rewrite ts_body, length_app in *. cbn [length] in *.
  destruct (decide (i = length body)) as [->|]; [|lia].
  rewrite lookup_app_r in H by lia. rewrite Nat.sub_diag in H. cbn in H. congruence.
Qed.

(** *** The combinators *)

Lemma spec_ret {A : Type} (n b : nat) (a : A) (p : Parser) (Q : A -> Parser -> Prop) :
  Q a p -> spec n b (ret a p) Q.
Proof. intros H. exact H. Qed.

Lemma spec_throw {A : Type} (n b : nat) (e : Error) (p : Parser) (Q : A -> Parser -> Prop) :
  expected e -> spec n b (throw e p) Q.
Proof. intros H. exact H. Qed.

Lemma spec_bind {A B : Type} (n b : nat) (m : M A) (k : A -> M B) (p : Parser)
      (Q1 : A -> Parser -> Prop) (Q2 : B -> Parser -> Prop) :
  spec n b (m p) Q1 ->
  (forall a p1, Q1 a p1 -> spec n b (k a p1) Q2) ->
  spec n b (bind m k p) Q2.
Proof.
  intros H1 H2. unfold bind. destruct (m p) as [a p1| | |]; cbn [spec] in *; auto.
Qed.

Lemma spec_call {A B : Type} (n b b1 : nat) (m : M A) (k : A -> M B) (p : Parser)
      (Q1 : A -> Parser -> Prop) (Q2 : B -> Parser -> Prop) :
  spec n b1 (m p) Q1 ->
  (b1 < b)%nat ->
  (forall a p1, Q1 a p1 -> spec (S n) b (k a p1) Q2) ->
  spec (S n) b (bind m k p) Q2.
Proof.
  intros H1 Hb H2. unfold bind. destruct (m p) as [a p1| | |]; cbn [spec] in *; auto. lia.
Qed.

Lemma spec_tail {A : Type} (n b b1 : nat) (r : Result A)
      (Q1 Q2 : A -> Parser -> Prop) :
  spec n b1 r Q1 ->
  (b1 < b)%nat ->
  (forall a p1, Q1 a p1 -> Q2 a p1) ->
  spec (S n) b r Q2.
Proof.
  intros H1 Hb H2. destruct r as [a p1| | |]; cbn [spec] in *; auto. lia.
Qed.

Lemma spec_weaken {A : Type} (n b : nat) (r : Result A)
      (Q1 Q2 : A -> Parser -> Prop) :
  spec n b r Q1 ->
  (forall a p1, Q1 a p1 -> Q2 a p1) ->
  spec n b r Q2.
Proof.
  intros H1 H2. destruct r as [a p1| | |]; cbn [spec] in *; auto.
Qed.

(** *** The lexer's functions *)

Lemma Inv_with_lexer (p : Parser) (l : lexer.Lexer) :
  Inv ts p ->
  lexer.parser_ l = lexer.parser_ (lexer_ p) ->
  (lexer.current_token_index_ l < length ts)%nat ->
  Inv ts (with_lexer l p).
Proof.
  intros (Ht & _ & Hd) Hl Hlt. split; [|split].
  - unfold tokens in *. cbn. rewrite Hl. exact Ht.
  - exact Hlt.
  - exact Hd.
Qed.

Lemma CurrentToken_spec (n b : nat) (p : Parser) :
  Inv ts p ->
  spec n b (CurrentToken p) (fun t p' => p' = p /\ ts !! pos p = Some t).
Proof.
  intros (Ht & Hlt & _). unfold CurrentToken, lexer.CurrentToken.
  unfold tokens, pos in *. rewrite Ht.
  destruct (lookup_lt_is_Some_2 _ _ Hlt) as [t Hl]. rewrite Hl. cbn. auto.
Qed.

Lemma NextToken_spec (n b : nat) (p : Parser) (t0 : Token) :
  Inv ts p -> ts !! pos p = Some t0 -> t0 <> token_type.Eof ->
  spec n b (NextToken p)
       (fun t p' => Inv ts p' /\ pos p' = S (pos p) /\ dep p' = dep p + delta t0
                    /\ ts !! pos p' = Some t /\ free p' = free p).
Proof.
  intros HI H0 Hne. pose proof (not_last _ _ H0 Hne) as Hlt.
  pose proof HI as (Ht & _ & _).
  unfold NextToken, lexer.NextToken, lexer.CurrentToken.
  unfold tokens, pos in *. rewrite Ht.
  destruct (Nat.eqb_spec (lexer.current_token_index_ (lexer_ p) + 1) (length ts)) as [E|_];
    [lia|].
  cbn [negb lexer.current_token_index_ lexer.parser_]. rewrite Ht.
  rewrite Nat.add_1_r.
  destruct (lookup_lt_is_Some_2 _ _ Hlt) as [t Hl]. rewrite Hl. cbn [spec].
  split; [|split; [|split; [|split]]].
  - apply Inv_with_lexer; [exact HI|reflexivity|exact Hlt].
  - reflexivity.
  - unfold dep, tokens, pos. cbn. rewrite Ht. apply depth_take_S. exact H0.
  - exact Hl.
  - reflexivity.
Qed.

Lemma Expect_spec (n b : nat) (p : Parser) (T : nat) :
  Inv ts p ->
  In T [T_Id; T_Char; T_If; T_Def; T_Newline; T_Indent; T_Dedent] ->
  spec n b (Expect T p)
       (fun t p' => p' = p /\ ts !! pos p = Some t /\ lexer.index t = T).
Proof.
  intros HI HT. unfold Expect.
  eapply spec_bind; [apply CurrentToken_spec; exact HI|].
  cbv beta. intros t p1 [-> Ht].
  destruct (Nat.eqb_spec (lexer.index t) T) as [E|_].
  - apply spec_ret. auto.
  - apply spec_throw. exact HT.
Qed.

Lemma Expect_Char_spec (n b : nat) (p : Parser) (c : ascii) :
  Inv ts p ->
  spec n b (Expect_Char c p)
       (fun _ p' => p' = p /\ ts !! pos p = Some (token_type.Char c)).
Proof.
  intros HI. unfold Expect_Char.
  eapply spec_bind; [apply Expect_spec; [exact HI|cbn; tauto]|].
  cbv beta. intros t p1 (-> & Ht & Hi).
  destruct t; try discriminate Hi.
  destruct (Ascii.eqb_spec value c) as [->|_].
  - apply spec_ret. auto.
  - apply spec_throw. exact I.
Qed.

Lemma Expect_Id_spec (n b : nat) (p : Parser) :
  Inv ts p ->
  spec n b (Expect_Id p)
       (fun value p' => p' = p /\ ts !! pos p = Some (token_type.Id value)).
Proof.
  intros HI. unfold Expect_Id.
  eapply spec_bind; [apply Expect_spec; [exact HI|cbn; tauto]|].
  cbv beta. intros t p1 (-> & Ht & Hi).
  destruct t; try discriminate Hi.
  apply spec_ret. auto.
Qed.

Lemma ExpectNext_spec (n b : nat) (p : Parser) (T : nat) (t0 : Token) :
  Inv ts p -> ts !! pos p = Some t0 -> t0 <> token_type.Eof ->
  In T [T_Id; T_Char; T_If; T_Def; T_Newline; T_Indent; T_Dedent] ->
  spec n b (ExpectNext T p)
       (fun t p' => Inv ts p' /\ pos p' = S (pos p) /\ dep p' = dep p + delta t0
                    /\ ts !! pos p' = Some t /\ lexer.index t = T
                    /\ free p' = free p).
Proof.
  intros HI H0 Hne HT. unfold ExpectNext.
  eapply spec_bind; [apply (NextToken_spec _ _ _ _ HI H0 Hne)|].
  cbv beta. intros t1 p1 (HI1 & Hp & Hd & _ & Hf).
  eapply spec_weaken; [apply (Expect_spec _ _ _ _ HI1 HT)|].
  cbv beta. intros t p2 (-> & Ht & Hi). auto 7.
Qed.

Lemma ExpectNext_Char_spec (n b : nat) (p : Parser) (c : ascii) (t0 : Token) :
  Inv ts p -> ts !! pos p = Some t0 -> t0 <> token_type.Eof ->
  spec n b (ExpectNext_Char c p)
       (fun _ p' => Inv ts p' /\ pos p' = S (pos p) /\ dep p' = dep p + delta t0
                    /\ ts !! pos p' = Some (token_type.Char c) /\ free p' = free p).
Proof.
  intros HI H0 Hne. unfold ExpectNext_Char.
  eapply spec_bind; [apply (NextToken_spec _ _ _ _ HI H0 Hne)|].
  cbv beta. intros t1 p1 (HI1 & Hp & Hd & _ & Hf).
  eapply spec_weaken; [apply (Expect_Char_spec _ _ _ _ HI1)|].
  cbv beta. intros t p2 (-> & Ht). auto.
Qed.

Lemma ExpectNext_Id_spec (n b : nat) (p : Parser) (t0 : Token) :
  Inv ts p -> ts !! pos p = Some t0 -> t0 <> token_type.Eof ->
  spec n b (ExpectNext_Id p)
       (fun value p' => Inv ts p' /\ pos p' = S (pos p) /\ dep p' = dep p + delta t0
                        /\ ts !! pos p' = Some (token_type.Id value)
                        /\ free p' = free p).
Proof.
  intros HI H0 Hne. unfold ExpectNext_Id.
  eapply spec_bind; [apply (NextToken_spec _ _ _ _ HI H0 Hne)|].
  cbv beta. intros t1 p1 (HI1 & Hp & Hd & _ & Hf).
  eapply spec_weaken; [apply (Expect_Id_spec _ _ _ HI1)|].
  cbv beta. intros t p2 (-> & Ht). auto.
Qed.

Lemma back_spec {A : Type} (n b : nat) (p : Parser) (v : list A) :
  v <> [] ->
  spec n b (back v p) (fun x p' => p' = p /\ last v = Some x).
Proof.
  intros Hv. unfold back.
  destruct (last v) as [x|] eqn:E.
  - apply spec_ret. auto.
  - apply last_None in E. contradiction.
Qed.

(** *** The parsing functions, one call deeper *)

Ltac break :=
  repeat match goal with
         | H : _ /\ _ |- _ => destruct H
         | H : exists _, _ |- _ => destruct H
         | H : ?q = ?p |- _ => is_var q; is_var p; subst q
         | H : ?q = ast.Compound _ |- _ => is_var q; subst q
         | H : any _ |- _ => clear H
         | H : nothing _ _ _ |- _ => clear H
         end;
  cbn [delta] in *.

Ltac bounds :=
  repeat match goal with
         | H : Inv ts ?q |- _ =>
             lazymatch goal with
             | _ : (pos q < length ts)%nat |- _ => fail
             | _ => pose proof (proj1 (proj2 H))
             end
         end.

(** The members of the nodes of a result: those of its parts were known
    when the parts were built, and no address has been taken back since. *)
Ltac placing :=
  unfold known, all_known, methods_known, class_known;
  let P := fresh "P" in
  let HP := fresh "HP" in
  intros P HP;
  cbn [members class_members method_members every fold_right];
  rewrite ?every_snoc;
  cbn [members class_members method_members every fold_right];
  repeat match goal with
         | |- _ /\ _ => split
         | |- True => exact I
         end;
  first
    [ solve [apply HP; cbn [free]; lia]
    | match goal with
      | H : known _ _ |- _ => solve [apply H; intros ? ?; apply HP; cbn [free]; lia]
      | H : all_known _ _ |- _ => solve [apply H; intros ? ?; apply HP; cbn [free]; lia]
      | H : methods_known _ _ |- _ => solve [apply H; intros ? ?; apply HP; cbn [free]; lia]
      | H : class_known _ _ |- _ => solve [apply H; intros ? ?; apply HP; cbn [free]; lia]
      end ].

Ltac shape :=
  cbn [built class_built method_built every fold_right] in *;
  rewrite ?every_snoc;
  repeat match goal with
         | H : _ /\ _ |- _ => destruct H
         end;
  repeat match goal with
         | |- _ /\ _ => split
         | |- True => exact I
         end;
  eauto; try congruence; try solve [placing].

Ltac side :=
  first [ eassumption | discriminate | exact I | (cbn; tauto) | (eexists; eassumption)
        | solve [shape] | solve [cbv beta; placing] ].

Ltac finish :=
  bounds; unfold any, nothing;
  split; [eassumption
         | split; [lia | split; [lia | split; [lia | try exact I; shape; try lia]]]].

Tactic Notation "prim" constr(L) "as" ident(a) ident(q) :=
  eapply spec_bind; [eapply L; side | cbv beta; intros a q ?; break].

Tactic Notation "call" constr(H) "as" ident(a) ident(q) :=
  eapply spec_call;
  [eapply H; side | bounds; unfold budget; lia | cbv beta; intros a q ?; break].

Tactic Notation "tail" constr(H) "as" ident(a) ident(q) :=
  eapply spec_tail;
  [eapply H; side | bounds; unfold budget; lia | cbv beta; intros a q ?; break].

Ltac is_it E :=
  apply is_char_true in E; match type of E with ?t = _ => subst t end.

Ltac kind t :=
  destruct t;
  try match goal with
      | H : lexer.index _ = _ |- _ => cbv in H; discriminate H
      end;
  try match goal with
      | H : lexer.index _ = _ |- _ => clear H
      end.

Lemma bind_ret {A B : Type} (a : A) (k : A -> M B) (p : Parser) :
  bind (ret a) k p = k a p.
Proof. reflexivity. Qed.

Section Step.

Variable n : nat.
Variable c : Calls.
Hypothesis G : Good ts n c.

Lemma ParseDottedIds_loop_good (result : list string) :
  fspec ts (S n) 1 (ParseDottedIds_loop c result) (on_Id ts)
        (fun _ ids _ => result <> [] -> ids <> []).
Proof.
  intros p HI [v Hv]. unfold ParseDottedIds_loop.
  prim NextToken_spec as t p1.
  destruct (is_char t ".") eqn:E.
  - is_it E.
    prim ExpectNext_Id_spec as value p2.
    tail (good_ParseDottedIds_loop _ _ _ G) as ids p3.
    finish. destruct result; auto.
  - apply spec_ret. finish.
Qed.

Lemma ParseDottedIds_good :
  fspec ts (S n) 2 (ParseDottedIds c) any (fun _ ids _ => ids <> []).
Proof.
  intros p HI _. unfold ParseDottedIds.
  prim Expect_Id_spec as value p1.
  tail (good_ParseDottedIds_loop _ _ _ G) as ids p2.
  finish.
Qed.

Lemma ParseTestList_loop_good (result : list Statement) :
  every built result ->
  fspec ts (S n) 1 (ParseTestList_loop c result) (fun p => all_known p result)
        (fun _ a p' => every built a /\ all_known p' a).
Proof.
  intros Hres p HI Hk. unfold ParseTestList_loop.
  prim CurrentToken_spec as tok p1.
  destruct (is_char tok ",") eqn:E.
  - is_it E.
    prim NextToken_spec as t p2.
    call (good_ParseTest _ _ _ G) as test p3.
    tail (good_ParseTestList_loop _ _ _ G) as r p4.
    finish.
  - apply spec_ret. finish.
Qed.

Lemma ParseTestList_good :
  fspec ts (S n) 11 (ParseTestList c) any
        (fun _ a p' => every built a /\ all_known p' a).
Proof.
  intros p HI _. unfold ParseTestList.
  call (good_ParseTest _ _ _ G) as test p1.
  tail (good_ParseTestList_loop _ _ _ G) as r p2.
  finish.
Qed.

Lemma ParseExpression_loop_good (result : Statement) :
  built result ->
  fspec ts (S n) 1 (ParseExpression_loop c result) (fun p => known p result)
        (fun _ a p' => built a /\ known p' a).
Proof.
  intros Hres p HI Hk. unfold ParseExpression_loop.
  prim CurrentToken_spec as tok p1.
  destruct (is_char tok "+") eqn:E1; [is_it E1|destruct (is_char tok "-") eqn:E2; [is_it E2|]];
    cbn [orb]; try solve [apply spec_ret; finish].
  - prim NextToken_spec as t p2.
    call (good_ParseAdder _ _ _ G) as rhs p3.
    tail (good_ParseExpression_loop _ _ _ G) as r p4.
    finish.
  - prim NextToken_spec as t p2.
    call (good_ParseAdder _ _ _ G) as rhs p3.
    tail (good_ParseExpression_loop _ _ _ G) as r p4.
    finish.
Qed.

Lemma ParseExpression_good :
  fspec ts (S n) 6 (ParseExpression c) any (fun _ a p' => built a /\ known p' a).
Proof.
  intros p HI _. unfold ParseExpression.
  call (good_ParseAdder _ _ _ G) as result p1.
  tail (good_ParseExpression_loop _ _ _ G) as r p2.
  finish.
Qed.

Lemma ParseAdder_loop_good (result : Statement) :
  built result ->
  fspec ts (S n) 1 (ParseAdder_loop c result) (fun p => known p result)
        (fun _ a p' => built a /\ known p' a).
Proof.
  intros Hres p HI Hk. unfold ParseAdder_loop.
  prim CurrentToken_spec as tok p1.
  destruct (is_char tok "*") eqn:E1; [is_it E1|destruct (is_char tok "/") eqn:E2; [is_it E2|]];
    cbn [orb]; try solve [apply spec_ret; finish].
  - prim NextToken_spec as t p2.
    call (good_ParseMult _ _ _ G) as rhs p3.
    tail (good_ParseAdder_loop _ _ _ G) as r p4.
    finish.
  - prim NextToken_spec as t p2.
    call (good_ParseMult _ _ _ G) as rhs p3.
    tail (good_ParseAdder_loop _ _ _ G) as r p4.
    finish.
Qed.

Lemma ParseAdder_good :
  fspec ts (S n) 5 (ParseAdder c) any (fun _ a p' => built a /\ known p' a).
Proof.
  intros p HI _. unfold ParseAdder.
  call (good_ParseMult _ _ _ G) as result p1.
  tail (good_ParseAdder_loop _ _ _ G) as r p2.
  finish.
Qed.

Lemma ParseMult_good :
  fspec ts (S n) 4 (ParseMult c) any (fun _ a p' => built a /\ known p' a).
Proof.
  intros p HI _. unfold ParseMult.
  prim CurrentToken_spec as tok p1.
  destruct (is_char tok "(") eqn:E1.
  { is_it E1.
    prim NextToken_spec as t p2.
    call (good_ParseTest _ _ _ G) as result p3.
    prim Expect_Char_spec as u p4.
    prim NextToken_spec as t2 p5.
    apply spec_ret. finish. }
  destruct (is_char tok "-") eqn:E2.
  { is_it E2.
    prim NextToken_spec as t p2.
    call (good_ParseMult _ _ _ G) as operand p3.
    apply spec_ret. finish. }
  destruct tok;
    first [ solve [tail (good_ParseDottedIdsInMultExpr _ _ _ G) as r p2; finish]
          | solve [prim NextToken_spec as t p2; apply spec_ret; finish] ].
Qed.

Lemma ParseTest_loop_good (result : Statement) :
  built result ->
  fspec ts (S n) 1 (ParseTest_loop c result) (fun p => known p result)
        (fun _ a p' => built a /\ known p' a).
Proof.
  intros Hres p HI Hk. unfold ParseTest_loop.
  prim CurrentToken_spec as tok p1.
  destruct tok; try solve [apply spec_ret; finish].
  prim NextToken_spec as t p2.
  call (good_ParseAndTest _ _ _ G) as rhs p3.
  tail (good_ParseTest_loop _ _ _ G) as r p4.
  finish.
Qed.

Lemma ParseTest_good :
  fspec ts (S n) 10 (ParseTest c) any (fun _ a p' => built a /\ known p' a).
Proof.
  intros p HI _. unfold ParseTest.
  call (good_ParseAndTest _ _ _ G) as result p1.
  tail (good_ParseTest_loop _ _ _ G) as r p2.
  finish.
Qed.

Lemma ParseAndTest_loop_good (result : Statement) :
  built result ->
  fspec ts (S n) 1 (ParseAndTest_loop c result) (fun p => known p result)
        (fun _ a p' => built a /\ known p' a).
Proof.
  intros Hres p HI Hk. unfold ParseAndTest_loop.
  prim CurrentToken_spec as tok p1.
  destruct tok; try solve [apply spec_ret; finish].
  prim NextToken_spec as t p2.
  call (good_ParseNotTest _ _ _ G) as rhs p3.
  tail (good_ParseAndTest_loop _ _ _ G) as r p4.
  finish.
Qed.

Lemma ParseAndTest_good :
  fspec ts (S n) 9 (ParseAndTest c) any (fun _ a p' => built a /\ known p' a).
Proof.
  intros p HI _. unfold ParseAndTest.
  call (good_ParseNotTest _ _ _ G) as result p1.
  tail (good_ParseAndTest_loop _ _ _ G) as r p2.
  finish.
Qed.

Lemma ParseNotTest_good :
  fspec ts (S n) 8 (ParseNotTest c) any (fun _ a p' => built a /\ known p' a).
Proof.
  intros p HI _. unfold ParseNotTest.
  prim CurrentToken_spec as tok p1.
  destruct tok; try solve [tail (good_ParseComparison _ _ _ G) as r p2; finish].
  prim NextToken_spec as t p2.
  call (good_ParseNotTest _ _ _ G) as argument p3.
  apply spec_ret. finish.
Qed.

Lemma compare_with_good (cmp : ast.Comparator) (result : Statement)
      (p0 p : Parser) (t0 : Token) :
  Inv ts p -> ts !! pos p = Some t0 -> t0 <> token_type.Eof -> delta t0 = 0 ->
  (pos p0 <= pos p)%nat -> dep p = dep p0 -> Inv ts p0 -> built result ->
  (free p0 <= free p)%positive -> known p result ->
  spec (S n) (budget ts p0 7) (compare_with c cmp result p)
       (fun a p' => Inv ts p' /\ (pos p0 <= pos p')%nat /\ dep p' = dep p0
                    /\ (free p0 <= free p')%positive /\ built a /\ known p' a).
Proof.
  intros HI H0 Hne Hd Hle Hdep HI0 Hres Hfree Hk. unfold compare_with.
  prim NextToken_spec as t p2.
  call (good_ParseExpression _ _ _ G) as rhs p3.
  apply spec_ret. finish.
Qed.

Lemma ParseComparison_good :
  fspec ts (S n) 7 (ParseComparison c) any (fun _ a p' => built a /\ known p' a).
Proof.
  intros p HI _. unfold ParseComparison.
  call (good_ParseExpression _ _ _ G) as result p1.
  prim CurrentToken_spec as token p2.
  destruct (is_char token "<") eqn:E1.
  { is_it E1. eapply compare_with_good; eauto; first [discriminate|lia]. }
  destruct (is_char token ">") eqn:E2.
  { is_it E2. eapply compare_with_good; eauto; first [discriminate|lia]. }
  destruct token; try solve [apply spec_ret; finish];
    (eapply compare_with_good; eauto; first [discriminate|lia]).
Qed.

Lemma ParseSimpleStatement_good :
  fspec ts (S n) 4 (ParseSimpleStatement c) any (fun _ a p' => built a /\ known p' a).
Proof.
  intros p HI _. unfold ParseSimpleStatement.
  prim CurrentToken_spec as tok p1.
  destruct tok; try solve [tail (good_ParseAssignmentOrCall _ _ _ G) as r p2; finish].
  - prim NextToken_spec as t p2.
    call (good_ParseTest _ _ _ G) as statement p3.
    apply spec_ret. finish.
  - prim NextToken_spec as t p2.
    prim CurrentToken_spec as tok p3.
    destruct tok;
      first [ solve [rewrite bind_ret; apply spec_ret; finish]
            | solve [call (good_ParseTestList _ _ _ G) as args p4; apply spec_ret; finish] ].
Qed.

Lemma ParseStatement_good :
  fspec ts (S n) 5 (ParseStatement c) any
        (fun p a p' => (pos p < pos p')%nat /\ built a /\ known p' a).
Proof.
  intros p HI _. unfold ParseStatement.
  prim CurrentToken_spec as tok p1.
  destruct tok;
    try solve [call (good_ParseSimpleStatement _ _ _ G) as result p2;
               prim Expect_spec as t p3; kind t;
               prim NextToken_spec as t2 p4;
               apply spec_ret; finish].
  - prim NextToken_spec as t p2.
    tail (good_ParseClassDefinition _ _ _ G) as r p3.
    finish.
  - tail (good_ParseCondition _ _ _ G) as r p2.
    finish.
Qed.

Lemma ParseProgram_loop_good (result : list Statement) :
  every built result ->
  fspec ts (S n) 6 (ParseProgram_loop c result) (fun p => all_known p result)
        (fun _ a p' => (exists statements,
                           a = ast.Compound statements /\ every built statements)
                       /\ ts !! pos p' = Some token_type.Eof /\ known p' a).
Proof.
  intros Hres p HI Hk. unfold ParseProgram_loop.
  prim CurrentToken_spec as tok p1.
  destruct tok;
    try solve [call (good_ParseStatement _ _ _ G) as statement p2;
               tail (good_ParseProgram_loop _ _ _ G) as r p3;
               finish].
  apply spec_ret. finish.
Qed.

Lemma ParseSuite_loop_good (result : list Statement) :
  every built result ->
  fspec ts (S n) 6 (ParseSuite_loop c result) (fun p => all_known p result)
        (fun _ a p' => every built a /\ all_known p' a).
Proof.
  intros Hres p HI Hk. unfold ParseSuite_loop.
  prim CurrentToken_spec as tok p1.
  destruct tok;
    try solve [call (good_ParseStatement _ _ _ G) as statement p2;
               tail (good_ParseSuite_loop _ _ _ G) as r p3;
               finish].
  apply spec_ret. finish.
Qed.

Lemma ParseSuite_good :
  fspec ts (S n) 1 (ParseSuite c) any
        (fun _ a p' => (exists statements,
                           a = ast.Compound statements /\ every built statements)
                       /\ known p' a).
Proof.
  intros p HI _. unfold ParseSuite.
  prim Expect_spec as t p1. kind t.
  prim ExpectNext_spec as t p2. kind t.
  prim NextToken_spec as t p3.
  call (good_ParseSuite_loop _ _ _ G) as result p4.
  prim Expect_spec as t2 p5. kind t2.
  prim NextToken_spec as t3 p6.
  apply spec_ret. finish.
Qed.

Lemma ParseCondition_good :
  fspec ts (S n) 1 (ParseCondition c) any
        (fun p a p' => (pos p < pos p')%nat /\ built a /\ known p' a).
Proof.
  intros p HI _. unfold ParseCondition.
  prim Expect_spec as t p1. kind t.
  prim NextToken_spec as t p2.
  call (good_ParseTest _ _ _ G) as condition p3.
  prim Expect_Char_spec as u p4.
  prim NextToken_spec as t2 p5.
  call (good_ParseSuite _ _ _ G) as if_body p6.
  prim CurrentToken_spec as tok p7.
  destruct tok; try solve [rewrite bind_ret; apply spec_ret; finish].
  eapply spec_bind.
  { prim ExpectNext_Char_spec as u2 p8.
    prim NextToken_spec as t3 p9.
    call (good_ParseSuite _ _ _ G) as suite p10.
    apply spec_ret.
    instantiate (1 := fun else_body q =>
                        Inv ts q /\ (pos p < pos q)%nat /\ dep q = dep p
                        /\ (free p6 <= free q)%positive
                        /\ exists statements,
                             else_body = Some (ast.Compound statements)
                             /\ every built statements
                             /\ known q (ast.Compound statements)).
    cbv beta. bounds. split; [eassumption|]. split; [lia|]. split; [lia|].
    split; [lia|].
    eexists. split; [f_equal; eassumption|]. split; assumption. }
  cbv beta. intros else_body q ?. break.
  match goal with H : else_body = Some _ |- _ => rewrite H end.
  apply spec_ret. finish.
Qed.

Lemma ParseMethods_params_good (formal_params : list string) :
  fspec ts (S n) 1 (ParseMethods_params c formal_params) (on_Id ts) nothing.
Proof.
  intros p HI [v Hv]. unfold ParseMethods_params.
  prim NextToken_spec as t p1.
  destruct (is_char t ",") eqn:E.
  - is_it E.
    prim ExpectNext_Id_spec as value p2.
    tail (good_ParseMethods_params _ _ _ G) as r p3.
    finish.
  - apply spec_ret. finish.
Qed.

Lemma ParseAssignmentOrCall_good :
  fspec ts (S n) 3 (ParseAssignmentOrCall c) any (fun _ a p' => built a /\ known p' a).
Proof.
  intros p HI _. unfold ParseAssignmentOrCall.
  prim Expect_spec as t p1. kind t.
  call (good_ParseDottedIds _ _ _ G) as ids p2.
  prim (back_spec (A:=string)) as last_name p3.
  cbv zeta.
  prim CurrentToken_spec as tok p4.
  destruct (is_char tok "=") eqn:E.
  - is_it E.
    prim NextToken_spec as t p5.
    destruct (removelast ids);
      (call (good_ParseTest _ _ _ G) as r_value p6; apply spec_ret; finish).
  - prim Expect_Char_spec as u p5.
    prim NextToken_spec as t p6.
    destruct (removelast ids).
    { apply spec_throw. cbn. right. right. left. eexists. reflexivity. }
    prim CurrentToken_spec as tok2 p7.
    destruct (is_char tok2 ")"); cbn [negb].
    + rewrite bind_ret.
      prim Expect_Char_spec as u2 p8.
      prim NextToken_spec as t2 p9.
      apply spec_ret. finish.
    + call (good_ParseTestList _ _ _ G) as args p8.
      prim Expect_Char_spec as u2 p9.
      prim NextToken_spec as t2 p10.
      apply spec_ret. finish.
Qed.

Lemma Inv_new_node (p : Parser) (cls : runtime.Class) (world : World) (name : string) :
  Inv ts p ->
  declared_classes_ p !! name = Some (Some (ast.ClassObject cls)) ->
  instances world
  = <[free p := {| class_ := cls; fields_ := ∅ |}]> (instances (nodes p)) ->
  Inv ts {| lexer_ := lexer_ p; declared_classes_ := declared_classes_ p;
            nodes := world; free := Pos.succ (free p) |}.
Proof.
  intros (Ht & Hlt & Hd & Hn & Hg & Hc) Hcls Hw. split; [exact Ht|]. split; [exact Hlt|].
  split; [exact Hd|]. split; [|split].
  - intros address this. cbn [nodes free declared_classes_]. rewrite Hw.
    destruct (decide (address = free p)) as [->|Hne].
    + rewrite lookup_insert_eq. intros [= <-]. cbn [class_ fields_].
      split; [lia|]. split; [reflexivity|].
      destruct (Hd _ _ Hcls) as (cls' & [= <-] & Hname & _). rewrite Hname. exact Hcls.
    + rewrite lookup_insert_ne by congruence. intros H.
      destruct (Hn _ _ H) as (Hlt' & Hf & Hc'). split; [lia|]. split; assumption.
  - intros address. cbn [nodes free]. rewrite Hw. intros Hlt'.
    destruct (decide (address = free p)) as [->|Hne].
    + rewrite lookup_insert_eq. eauto.
    + rewrite lookup_insert_ne by congruence. apply Hg. lia.
  - intros name' cls' Hdecl P HP. cbn [declared_classes_ free] in *.
    apply (Hc _ _ Hdecl). intros address Hlt'. apply HP. lia.
Qed.

Lemma ParseDottedIdsInMultExpr_good :
  fspec ts (S n) 3 (ParseDottedIdsInMultExpr c) any (fun _ a p' => built a /\ known p' a).
Proof.
  intros p HI _. unfold ParseDottedIdsInMultExpr.
  call (good_ParseDottedIds _ _ _ G) as names p1.
  prim CurrentToken_spec as tok p2.
  destruct (is_char tok "(") eqn:E; [|apply spec_ret; finish].
  is_it E.
  prim NextToken_spec as t p3.
  assert (Hrest : forall args q,
             every built args -> all_known q args ->
             Inv ts q -> (pos p < pos q)%nat -> dep q = dep p ->
             (free p <= free q)%positive ->
             spec (S n) (budget ts p 3)
                  (bind (Expect_Char ")") (fun _ =>
                   bind NextToken (fun _ =>
                   bind (back names) (fun method_name =>
                   match removelast names with
                   | _ :: _ =>
                       ret (ast.MethodCall (ast.VariableValue (removelast names))
                                           method_name args)
                   | [] =>
                       fun p0 =>
                         match declared_classes_ p0 !! method_name with
                         | Some (Some (ast.ClassObject cls)) =>
                             let '(node, world) :=
                               NewInstance_new (free p0) cls args (nodes p0) in
                             Ok node {| lexer_ := lexer_ p0;
                                        declared_classes_ := declared_classes_ p0;
                                        nodes := world; free := Pos.succ (free p0) |}
                         | Some _ => Undefined
                         | Datatypes.None =>
                             if String.eqb method_name "str"
                             then
                               match args with
                               | [argument] => Ok (ast.Stringify argument) p0
                               | _ => Raise (ParseError
                                               "Function str takes exactly one argument")
                               end
                             else Raise (ParseError ("Unknown call to " +:+ method_name
                                                     +:+ "()"))
                         end
                   end))) q)
                  (fun a p' => Inv ts p' /\ (pos p <= pos p')%nat /\ dep p' = dep p
                               /\ (free p <= free p')%positive
                               /\ built a /\ known p' a)).
  { intros args q Hargs Hknown HIq Hpos Hdep Hfree.
    prim Expect_Char_spec as u q1.
    prim NextToken_spec as t2 q2.
    prim (back_spec (A:=string)) as method_name q3.
    destruct (removelast names) eqn:Hnames.
    2:{ apply spec_ret. finish. }
    destruct (declared_classes_ q2 !! method_name) as [holder|] eqn:Hdecl.
    - match goal with H : Inv ts q2 |- _ => pose proof H as (_ & _ & Hd & _) end.
      destruct (Hd _ _ Hdecl) as (cls & -> & _ & _).
      cbn [NewInstance_new spec]. split.
      + eapply Inv_new_node; [eassumption|exact Hdecl|reflexivity].
      + bounds. change (pos {| lexer_ := lexer_ q2; declared_classes_ := declared_classes_ q2;
                               nodes := _; free := _ |}) with (pos q2).
        change (dep {| lexer_ := lexer_ q2; declared_classes_ := declared_classes_ q2;
                       nodes := _; free := _ |}) with (dep q2).
        split; [lia|]. split; [lia|]. cbn [free]. split; [lia|].
        split; [exact Hargs|]. placing.
    - destruct (String.eqb method_name "str").
      + destruct args as [|argument [|]]; cbn [spec].
        * right. right. right. left. reflexivity.
        * finish.
        * right. right. right. left. reflexivity.
      + cbn [spec expected]. right. right. right. right. eexists. reflexivity. }
  destruct (is_char t ")"); cbn [negb].
  - rewrite bind_ret.
    apply Hrest; [exact I|intros P HP; exact I|assumption|bounds; lia|lia|lia].
  - call (good_ParseTestList _ _ _ G) as args p4.
    apply Hrest; [assumption|assumption|assumption|bounds; lia|lia|lia].
Qed.

Lemma ParseMethods_loop_good (result : list runtime.Method) :
  every method_built result ->
  fspec ts (S n) 1 (ParseMethods_loop c result) (fun p => methods_known p result)
        (fun p methods p' =>
           every method_built methods
           /\ (result <> [] \/ ts !! pos p = Some token_type.Def -> methods <> [])
           /\ methods_known p' methods).
Proof.
  intros Hres p HI Hk. unfold ParseMethods_loop.
  prim CurrentToken_spec as tok p1.
  destruct tok;
    try (apply spec_ret; finish; intros [Hr|Hr]; [exact Hr|congruence]).
  prim ExpectNext_Id_spec as name p2.
  prim ExpectNext_Char_spec as u p3.
  prim NextToken_spec as t p4.
  eapply spec_bind.
  { instantiate (1 := fun _ q => Inv ts q /\ (pos p4 <= pos q)%nat /\ dep q = dep p4
                                 /\ (free p4 <= free q)%positive).
    destruct t;
      try (apply spec_ret; cbv beta; bounds; split; [eassumption|repeat split; lia]).
    prim Expect_Id_spec as first_param p5.
    eapply spec_tail;
      [eapply (good_ParseMethods_params _ _ _ G); side
      | bounds; unfold budget; lia
      | cbv beta; intros a q ?; break; split; [eassumption|repeat split; lia] ]. }
  cbv beta. intros formal_params p6 ?. break.
  prim Expect_Char_spec as u2 p7.
  prim ExpectNext_Char_spec as u3 p8.
  prim NextToken_spec as t2 p9.
  call (good_ParseSuite _ _ _ G) as suite p10.
  eapply spec_tail;
    [eapply (good_ParseMethods_loop _ _ _ G); [|eassumption|cbv beta; placing]
    | bounds; unfold budget; lia
    | cbv beta; intros a q ?; break ].
  - rewrite every_snoc. split; [exact Hres|]. cbn [method_built]. assumption.
  - finish. intros _.
    match goal with H : _ -> a <> [] |- _ => apply H end.
    left. destruct result; discriminate.
Qed.

Lemma Inv_new_class (p : Parser) (cls : runtime.Class) :
  Inv ts p ->
  declared_classes_ p !! name_ cls = Datatypes.None ->
  class_built cls ->
  class_known p cls ->
  Inv ts {| lexer_ := lexer_ p;
            declared_classes_ :=
              <[name_ cls := Some (ast.ClassObject cls)]> (declared_classes_ p);
            nodes := nodes p; free := free p |}.
Proof.
  intros (Ht & Hlt & Hd & Hn & Hg & Hc) Hnone Hok Hknown.
  split; [exact Ht|]. split; [exact Hlt|].
  split; [|split; [|split]].
  - intros name holder. cbn [declared_classes_].
    destruct (decide (name = name_ cls)) as [->|Hne].
    + rewrite lookup_insert_eq. intros [= <-]. eauto.
    + rewrite lookup_insert_ne by congruence. apply Hd.
  - intros address this H. cbn [nodes free declared_classes_] in *.
    destruct (Hn _ _ H) as (Hlt' & Hf & Hc'). split; [exact Hlt'|]. split; [exact Hf|].
    rewrite lookup_insert_ne; [exact Hc'|].
    intros E. rewrite <- E in Hc'. unfold runtime.ObjectHolder in *. congruence.
  - exact Hg.
  - intros name cls'. cbn [declared_classes_ free].
    destruct (decide (name = name_ cls)) as [->|Hne].
    + rewrite lookup_insert_eq. intros [= <-]. exact Hknown.
    + rewrite lookup_insert_ne by congruence. apply Hc.
Qed.

Lemma ParseClassDefinition_good :
  fspec ts (S n) 1 (ParseClassDefinition c) any (fun _ a p' => built a /\ known p' a).
Proof.
  intros p HI _. unfold ParseClassDefinition.
  prim Expect_Id_spec as class_name p1.
  prim NextToken_spec as t p2.
  prim CurrentToken_spec as tok p3.
  eapply spec_bind.
  { instantiate (1 := fun base_class q =>
                        Inv ts q /\ (pos p2 <= pos q)%nat /\ dep q = dep p2
                        /\ (free p2 <= free q)%positive
                        /\ match base_class with
                           | Some base => class_built base /\ class_known q base
                           | Datatypes.None => True
                           end).
    destruct (is_char tok "(") eqn:E.
    - is_it E.
      prim ExpectNext_Id_spec as name p4.
      prim ExpectNext_Char_spec as u p5.
      prim NextToken_spec as t2 p6.
      destruct (declared_classes_ p6 !! name) as [holder|] eqn:Hdecl.
      + match goal with
        | H : Inv ts p6 |- _ => pose proof H as (_ & _ & Hd & _ & _ & Hc)
        end.
        destruct (Hd _ _ Hdecl) as (cls & -> & _ & Hok).
        cbn [spec]. bounds. split; [assumption|]. split; [lia|]. split; [lia|].
        split; [lia|]. split; [exact Hok|exact (Hc _ _ Hdecl)].
      + cbn [spec expected]. left. eexists. eexists. reflexivity.
    - apply spec_ret. cbv beta. bounds. split; [assumption|]. split; [lia|].
      split; [lia|]. split; [lia|exact I]. }
  cbv beta. intros base_class p7 ?. break.
  prim Expect_Char_spec as u2 p8.
  prim ExpectNext_spec as t3 p9. kind t3.
  prim ExpectNext_spec as t4 p10. kind t4.
  prim ExpectNext_spec as t5 p11. kind t5.
  eapply spec_call;
    [eapply (good_ParseMethods_loop _ _ _ G []); [exact I|eassumption|intros P HP; exact I]
    | bounds; unfold budget; lia
    | cbv beta; intros methods p12 ?; break ].
  prim Expect_spec as t6 p13. kind t6.
  prim NextToken_spec as t7 p14.
  cbv zeta.
  assert (Hcls : class_built (ast.mk_Class class_name methods base_class)).
  { cbn [class_built]. split; [|split; [assumption|]].
    - match goal with H : _ -> methods <> [] |- _ => apply H end. right. assumption.
    - destruct base_class; [|exact I].
      match goal with H : _ /\ _ |- _ => exact (proj1 H) end. }
  assert (Hknown : class_known p14 (ast.mk_Class class_name methods base_class)).
  { destruct base_class as [base|];
      [match goal with H : class_built base /\ _ |- _ => destruct H end|];
      placing. }
  destruct (declared_classes_ p14 !! class_name) as [holder|] eqn:Hdecl.
  - cbn [spec expected]. right. left. eexists. reflexivity.
  - cbn [spec]. split.
    + apply (Inv_new_class p14 (ast.mk_Class class_name methods base_class));
        [assumption|exact Hdecl|exact Hcls|exact Hknown].
    + change (pos {| lexer_ := lexer_ p14; declared_classes_ := _;
                     nodes := _; free := _ |}) with (pos p14).
      change (dep {| lexer_ := lexer_ p14; declared_classes_ := _;
                     nodes := _; free := _ |}) with (dep p14).
      bounds. split; [lia|]. split; [lia|]. cbn [free]. split; [lia|].
      split; [exact Hcls|]. intros P HP. cbn [members]. apply Hknown. exact HP.
Qed.

End Step.

Lemma Good_O : Good ts 0 (calls 0).
Proof.
  constructor; intros; intros p HI Hpre; cbn; unfold budget; lia.
Qed.

Lemma Good_S (n : nat) : Good ts n (calls n) -> Good ts (S n) (calls (S n)).
Proof.
  intros G. constructor; cbn [calls call_ParseProgram_loop call_ParseSuite
    call_ParseSuite_loop call_ParseMethods_loop call_ParseMethods_params
    call_ParseClassDefinition call_ParseDottedIds call_ParseDottedIds_loop
    call_ParseAssignmentOrCall call_ParseExpression call_ParseExpression_loop
    call_ParseAdder call_ParseAdder_loop call_ParseMult call_ParseDottedIdsInMultExpr
    call_ParseTestList call_ParseTestList_loop call_ParseCondition call_ParseTest
    call_ParseTest_loop call_ParseAndTest call_ParseAndTest_loop call_ParseNotTest
    call_ParseComparison call_ParseStatement call_ParseSimpleStatement].
  - intros. apply ParseProgram_loop_good; assumption.
  - apply ParseSuite_good, G.
  - intros. apply ParseSuite_loop_good; assumption.
  - intros. apply ParseMethods_loop_good; assumption.
  - intros. apply ParseMethods_params_good, G.
  - apply ParseClassDefinition_good, G.
  - apply ParseDottedIds_good, G.
  - intros. apply ParseDottedIds_loop_good, G.
  - apply ParseAssignmentOrCall_good, G.
  - apply ParseExpression_good, G.
  - intros. apply ParseExpression_loop_good; assumption.
  - apply ParseAdder_good, G.
  - intros. apply ParseAdder_loop_good; assumption.
  - apply ParseMult_good, G.
  - apply ParseDottedIdsInMultExpr_good, G.
  - apply ParseTestList_good, G.
  - intros. apply ParseTestList_loop_good; assumption.
  - apply ParseCondition_good, G.
  - apply ParseTest_good, G.
  - intros. apply ParseTest_loop_good; assumption.
  - apply ParseAndTest_good, G.
  - intros. apply ParseAndTest_loop_good; assumption.
  - apply ParseNotTest_good, G.
  - apply ParseComparison_good, G.
  - apply ParseStatement_good, G.
  - apply ParseSimpleStatement_good, G.
Qed.

Lemma calls_Good (n : nat) : Good ts n (calls n).
Proof. induction n as [|n IH]; [apply Good_O|apply Good_S, IH]. Qed.

Lemma Inv_Parser_new (l : lexer.Lexer) :
  parse.tokens_ (lexer.parser_ l) = ts ->
  lexer.current_token_index_ l = 0%nat ->
  Inv ts (Parser_new l).
Proof.
  intros Ht H0. split; [exact Ht|]. split.
  - unfold pos. cbn. rewrite H0, ts_body, length_app. cbn. lia.
  - split; [|split; [|split]]; try (intros ? ?; cbn; rewrite lookup_empty; discriminate).
    intros address. cbn [free Parser_new]. lia.
Qed.

Lemma ParseProgram_spec (n : nat) (l : lexer.Lexer) :
  parse.tokens_ (lexer.parser_ l) = ts ->
  lexer.current_token_index_ l = 0%nat ->
  spec n (12 * length ts + 6) (ParseProgram n l)
       (fun program p' =>
          Inv ts p' /\ dep p' = 0
          /\ (exists statements,
                program = ast.Compound statements /\ every built statements)
          /\ ts !! pos p' = Some token_type.Eof
          /\ known p' program).
Proof.
  intros Ht H0. unfold ParseProgram.
  pose proof (good_ParseProgram_loop _ _ _ (calls_Good n) [] I (Parser_new l)
                (Inv_Parser_new l Ht H0) (fun P HP => I)) as H.
  unfold budget in H.
  assert (Hp : pos (Parser_new l) = 0%nat) by exact H0.
  assert (Hd : dep (Parser_new l) = 0).
  { unfold dep. rewrite Hp. reflexivity. }
  rewrite Hp, Nat.sub_0_r in H.
  eapply spec_weaken; [exact H|].
  cbv beta. intros program p' (HI & _ & Hdep & _ & Hc & Hl & Hk).
  split; [exact HI|]. split; [congruence|]. split; [assumption|]. split; assumption.
Qed.

End Parsing.

Lemma Lexer_new_shape (fuel : nat) (text : string) (l : lexer.Lexer) :
  lexer.Lexer_new fuel text = parse.Done l ->
  lexer.current_token_index_ l = 0%nat
  /\ exists body,
       parse.tokens_ (lexer.parser_ l) = (body ++ [token_type.Eof])%list
       /\ ~ In token_type.Eof body.
Proof.
  intros H. apply Lexer_new_tokens in H as [H0 Hlex]. split; [exact H0|].
  apply lex_Done_body in Hlex. exact Hlex.
Qed.

Lemma ParseProgram_of_text (fuel n : nat) (text : string) (l : lexer.Lexer) :
  lexer.Lexer_new fuel text = parse.Done l ->
  grammar.spec n (12 * length (parse.tokens_ (lexer.parser_ l)) + 6)
    (parser.ParseProgram n l)
    (fun program p' =>
       grammar.Inv (parse.tokens_ (lexer.parser_ l)) p' /\ grammar.dep p' = 0
       /\ (exists statements,
             program = ast.Compound statements /\ grammar.every grammar.built statements)
       /\ parse.tokens_ (lexer.parser_ l) !! grammar.pos p' = Some token_type.Eof
       /\ grammar.known p' program).
Proof.
  intros H. apply Lexer_new_shape in H as (H0 & body & Hts & Hno).
  exact (ParseProgram_spec _ body Hts n l eq_refl H0).
Qed.

(** X26: the parser comes to an end on the tokens of every text, without
    looking outside the token vector or into an empty vector: given a number
    of nested calls that grows with the number of tokens, [ParseProgram]
    throws or returns. What it returns is a [Compound]; the tokens are the
    ones it was given and the cursor is on [Eof]. *)
Theorem ParseProgram_ends (fuel n : nat) (text : string) (l : lexer.Lexer) :
  lexer.Lexer_new fuel text = parse.Done l ->
  (12 * length (parse.tokens_ (lexer.parser_ l)) + 6 <= n)%nat ->
  (exists e, parser.ParseProgram n l = parser.Raise e)
  \/ exists statements p',
       parser.ParseProgram n l = parser.Ok (ast.Compound statements) p'
       /\ parse.tokens_ (lexer.parser_ (parser.lexer_ p')) = parse.tokens_ (lexer.parser_ l)
       /\ lexer.CurrentToken (parser.lexer_ p') = Some token_type.Eof.
Proof.
  intros Hl Hn. pose proof (ParseProgram_of_text fuel n text l Hl) as H.
  destruct (parser.ParseProgram n l) as [program p'|e| |]; cbn [grammar.spec] in H.
  - right. destruct H as ((Ht & _ & _) & _ & (statements & -> & _) & HE & _).
    exists statements, p'. split; [reflexivity|]. split; [exact Ht|].
    unfold lexer.CurrentToken. unfold grammar.tokens in Ht. rewrite Ht. exact HE.
  - left. eauto.
  - contradiction.
  - lia.
Qed.

Lemma ParseProgram_ends_witness :
  exists l, lexer.Lexer_new 40 samples.main_text = parse.Done l
    /\ ((exists e, parser.ParseProgram 300 l = parser.Raise e)
        \/ exists statements p',
             parser.ParseProgram 300 l = parser.Ok (ast.Compound statements) p'
             /\ parse.tokens_ (lexer.parser_ (parser.lexer_ p'))
                = parse.tokens_ (lexer.parser_ l)
             /\ lexer.CurrentToken (parser.lexer_ p') = Some token_type.Eof).
Proof.
  pose (l := ltac:(let v := eval vm_compute in (lexer.Lexer_new 40 samples.main_text) in
                   match v with parse.Done ?l => exact l end)).
  assert (H : lexer.Lexer_new 40 samples.main_text = parse.Done l)
    by (vm_compute; reflexivity).
  exists l. split; [exact H|].
  apply (ParseProgram_ends 40 300 samples.main_text l H).
  vm_compute. lia.
Defined.

(** X27: a text that parses has its suites closed: among the tokens the parser
    was given there are as many [Dedent] as [Indent]. So the tokens of a text
    whose last suite the lexer left open are never accepted. *)
Theorem ParseProgram_needs_closed_suites (fuel n : nat) (text : string)
        (l : lexer.Lexer) (program : ast.Statement) (p' : parser.Parser) :
  lexer.Lexer_new fuel text = parse.Done l ->
  parser.ParseProgram n l = parser.Ok program p' ->
  parse.count_token token_type.Indent (parse.tokens_ (lexer.parser_ l))
  = parse.count_token token_type.Dedent (parse.tokens_ (lexer.parser_ l)).
Proof.
  intros Hl Hp. pose proof (ParseProgram_of_text fuel n text l Hl) as H.
  rewrite Hp in H. cbn [grammar.spec] in H.
  destruct H as ((Ht & _ & _) & Hd & _ & HE & _).
  apply Lexer_new_shape in Hl as (_ & body & Hts & Hno).
  assert (Hpos : grammar.pos p' = length body).
  { rewrite Hts in HE. pose proof (lookup_lt_Some _ _ _ HE) as Hlt.
    rewrite length_app in Hlt. cbn [length] in Hlt.
    destruct (decide (grammar.pos p' < length body)%nat) as [Hi|]; [|lia].
    rewrite lookup_app_l in HE by exact Hi.
    exfalso. apply Hno. apply list_elem_of_In. eapply list_elem_of_lookup_2. exact HE. }
  unfold grammar.dep in Hd. rewrite Ht, Hpos, Hts in Hd.
  rewrite take_app_length in Hd.
  pose proof (depth_snoc body token_type.Eof) as Hs. rewrite <- Hts in Hs.
  unfold lexer.depth in *. lia.
Qed.

Lemma ParseProgram_needs_closed_suites_witness :
  exists l, lexer.Lexer_new 40 samples.main_text = parse.Done l
    /\ parse.count_token token_type.Indent (parse.tokens_ (lexer.parser_ l))
       = parse.count_token token_type.Dedent (parse.tokens_ (lexer.parser_ l)).
Proof.
  pose (l := ltac:(let v := eval vm_compute in (lexer.Lexer_new 40 samples.main_text) in
                   match v with parse.Done ?l => exact l end)).
  pose (r := ltac:(let v := eval vm_compute in (parser.ParseProgram 40 l) in exact v)).
  assert (H : lexer.Lexer_new 40 samples.main_text = parse.Done l)
    by (vm_compute; reflexivity).
  exists l. split; [exact H|].
  refine (match r as r0 return parser.ParseProgram 40 l = r0 -> _ with
          | parser.Ok program p' =>
              fun Hp => ParseProgram_needs_closed_suites 40 40 samples.main_text l
                          program p' H Hp
          | _ => fun Hp => _
          end _); try (vm_compute; reflexivity); exfalso; vm_compute in Hp; discriminate Hp.
Defined.

(** X28: the classes a parsed text declares and the [NewInstance] nodes built
    for it. Every name of [declared_classes_] is bound to a class of that
    name which has at least one method, and so have its ancestors; the body
    of every method is a [MethodBody] around the [Compound] of its suite. The
    parser's store holds nothing but instances without fields of classes
    that are declared under their names; and the member of every
    [NewInstance] node of the program, at every depth and in the bodies of
    the methods of the classes it defines and of their ancestors, is in that
    store. *)
Theorem ParseProgram_declares_classes (fuel n : nat) (text : string)
        (l : lexer.Lexer) (program : ast.Statement) (p' : parser.Parser) :
  lexer.Lexer_new fuel text = parse.Done l ->
  parser.ParseProgram n l = parser.Ok program p' ->
  (forall name holder,
      parser.declared_classes_ p' !! name = Some holder ->
      exists cls, holder = Some (ast.ClassObject cls)
                  /\ name_ cls = name /\ grammar.class_built cls)
  /\ (forall address this,
        instances (parser.nodes p') !! address = Some this ->
        fields_ this = ∅
        /\ parser.declared_classes_ p' !! name_ (class_ this)
           = Some (Some (ast.ClassObject (class_ this))))
  /\ grammar.members
       (fun address =>
          exists this,
            instances (parser.nodes p') !! address = Some this
            /\ fields_ this = ∅
            /\ parser.declared_classes_ p' !! name_ (class_ this)
               = Some (Some (ast.ClassObject (class_ this))))
       program.
Proof.
  intros Hl Hp. pose proof (ParseProgram_of_text fuel n text l Hl) as H.
  rewrite Hp in H. cbn [grammar.spec] in H.
  destruct H as ((_ & _ & Hd & Hn & Hg & _) & _ & _ & _ & Hk).
  assert (Hstore : forall address this,
            instances (parser.nodes p') !! address = Some this ->
            fields_ this = ∅
            /\ parser.declared_classes_ p' !! name_ (class_ this)
               = Some (Some (ast.ClassObject (class_ this)))).
  { intros address this Hthis. destruct (Hn _ _ Hthis) as (_ & Hf & Hc). auto. }
  split; [exact Hd|]. split; [exact Hstore|].
  apply Hk. intros address Hlt. destruct (Hg address Hlt) as [this Hthis].
  exists this. split; [exact Hthis|]. exact (Hstore address this Hthis).
Qed.

Lemma ParseProgram_declares_classes_witness :
  exists l program p',
    lexer.Lexer_new 100 more_samples.dog_text = parse.Done l
    /\ parser.ParseProgram 100 l = parser.Ok program p'
    /\ program = samples.dog_program
    /\ parser.nodes p' = samples.dog_world
    /\ (forall name holder,
          parser.declared_classes_ p' !! name = Some holder ->
          exists cls, holder = Some (ast.ClassObject cls)
                      /\ name_ cls = name /\ grammar.class_built cls)
    /\ (forall address this,
          instances (parser.nodes p') !! address = Some this ->
          fields_ this = ∅
          /\ parser.declared_classes_ p' !! name_ (class_ this)
             = Some (Some (ast.ClassObject (class_ this))))
    /\ grammar.members
         (fun address =>
            exists this,
              instances (parser.nodes p') !! address = Some this
              /\ fields_ this = ∅
              /\ parser.declared_classes_ p' !! name_ (class_ this)
                 = Some (Some (ast.ClassObject (class_ this))))
         program.
Proof.
  pose (l := ltac:(let v := eval vm_compute in (lexer.Lexer_new 100 more_samples.dog_text) in
                   match v with parse.Done ?l => exact l end)).
  assert (H : lexer.Lexer_new 100 more_samples.dog_text = parse.Done l)
    by (vm_compute; reflexivity).
  pose (r := ltac:(let v := eval vm_compute in (parser.ParseProgram 100 l) in exact v)).
  assert (Hr : parser.ParseProgram 100 l = r) by (vm_compute; reflexivity).
  revert Hr.
  refine (match r as r0 return parser.ParseProgram 100 l = r0 -> _ with
          | parser.Ok program p' => fun Hp => _
          | _ => fun Hp => _
          end); try (exfalso; vm_compute in Hp; discriminate Hp).
  exists l, program, p'. split; [exact H|]. split; [exact Hp|].
  split; [vm_compute in Hp; injection Hp as <- _; reflexivity|].
  split; [vm_compute in Hp; injection Hp as _ <-; reflexivity|].
  exact (ParseProgram_declares_classes 100 100 more_samples.dog_text l program p' H Hp).
Defined.

(** X30: what the parser throws is a [LexerError] of [Lexer::Expect] (the
    current token is not the one the grammar asks for) or a [ParseError], and
    then one of five: the base class is not found, the class already exists,
    a plain name is called as a statement (functions are not supported),
    [str] does not take exactly one argument, or the call is unknown. *)
Theorem ParseProgram_throws (fuel n : nat) (text : string) (l : lexer.Lexer)
        (e : parser.Error) :
  lexer.Lexer_new fuel text = parse.Done l ->
  parser.ParseProgram n l = parser.Raise e ->
  grammar.expected e.
Proof.
  intros Hl Hp. pose proof (ParseProgram_of_text fuel n text l Hl) as H.
  rewrite Hp in H. exact H.
Qed.

Lemma ParseProgram_throws_witness :
  exists l,
    lexer.Lexer_new 20 more_samples.bare_call = parse.Done l
    /\ parser.ParseProgram 20 l
       = parser.Raise (parser.ParseError
                         "Mython doesn't support functions, only methods: foo")
    /\ grammar.expected (parser.ParseError
                           "Mython doesn't support functions, only methods: foo").
Proof.
  pose (l := ltac:(let v := eval vm_compute in (lexer.Lexer_new 20 more_samples.bare_call) in
                   match v with parse.Done ?l => exact l end)).
  assert (H : lexer.Lexer_new 20 more_samples.bare_call = parse.Done l)
    by (vm_compute; reflexivity).
  assert (Hp : parser.ParseProgram 20 l
               = parser.Raise (parser.ParseError
                                 "Mython doesn't support functions, only methods: foo"))
    by (vm_compute; reflexivity).
  exists l. split; [exact H|]. split; [exact Hp|].
  exact (ParseProgram_throws 20 20 more_samples.bare_call l _ H Hp).
Defined.

(** X29: what a parsed program is made of, at every depth. The path of a
    [VariableValue] and the path of the object of a [FieldAssignment] are
    never empty; the object of a [MethodCall] is a [VariableValue]; the
    bodies of an [IfElse] are [Compound]s; a [ClassDefinition] holds a class,
    never an empty holder; a class has at least one method, and so have its
    ancestors; the body of a method is a [MethodBody] around a [Compound], and
    a [MethodBody] occurs nowhere else. *)
Theorem ParseProgram_builds (fuel n : nat) (text : string)
        (l : lexer.Lexer) (program : ast.Statement) (p' : parser.Parser) :
  lexer.Lexer_new fuel text = parse.Done l ->
  parser.ParseProgram n l = parser.Ok program p' ->
  grammar.built program.
Proof.
  intros Hl Hp. pose proof (ParseProgram_of_text fuel n text l Hl) as H.
  rewrite Hp in H. cbn [grammar.spec] in H.
  destruct H as (_ & _ & (statements & -> & Hb) & _). exact Hb.
Qed.

Lemma ParseProgram_builds_witness :
  exists l program p',
    lexer.Lexer_new 100 more_samples.dog_text = parse.Done l
    /\ parser.ParseProgram 100 l = parser.Ok program p'
    /\ grammar.built program.
Proof.
  pose (l := ltac:(let v := eval vm_compute in (lexer.Lexer_new 100 more_samples.dog_text) in
                   match v with parse.Done ?l => exact l end)).
  assert (H : lexer.Lexer_new 100 more_samples.dog_text = parse.Done l)
    by (vm_compute; reflexivity).
  pose (r := ltac:(let v := eval vm_compute in (parser.ParseProgram 100 l) in exact v)).
  assert (Hr : parser.ParseProgram 100 l = r) by (vm_compute; reflexivity).
  revert Hr.
  refine (match r as r0 return parser.ParseProgram 100 l = r0 -> _ with
          | parser.Ok program p' => fun Hp => _
          | _ => fun Hp => _
          end); try (exfalso; vm_compute in Hp; discriminate Hp).
  exists l, program, p'. split; [exact H|]. split; [exact Hp|].
  exact (ParseProgram_builds 100 100 more_samples.dog_text l program p' H Hp).
Defined.
